(** * NeuroPet behaviour core: a shallow embedding of the firmware and its laws

    The development follows the firmware sources one translation unit per
    module: [F32] (IEEE-754 binary32, the C [float] of the target),
    [CoreState] (core_state.cpp), [OnlineLearn] (online_learn.cpp),
    [Brain] (brain_infer.cpp and the model-upload hook of main.cpp),
    [Buttons] (buttons.cpp), [Logger] (logger.cpp), [Storage] (the
    checksum of storage.cpp), [TimeManager] (time_manager.cpp) and
    [PetIdentity] (pet_identity.cpp).
    Definitions come first; every lemma and theorem lives in the second
    half of the file.

    Floating point is modelled bit-exactly: a [float] is a [spec_float]
    at precision 24 and maximal exponent 128, every C operator rounds to
    nearest-even once (no fused multiply-add, no excess precision), and a
    decimal literal denotes the nearest binary32 value. *)

From stdpp Require Import base list sorting.
From Stdlib Require Import ZArith Bool Lia.
From Stdlib Require Import SpecFloat.
From Stdlib Require Strings.Byte Strings.String Strings.Ascii.

(* ================================================================== *)
(** ** binary32 arithmetic *)
(* ================================================================== *)

Module F32.

Definition prec : Z := 24.
Definition emax : Z := 128.

Definition float32 : Type := spec_float.

Definition fadd : float32 -> float32 -> float32 := SFadd prec emax.
Definition fsub : float32 -> float32 -> float32 := SFsub prec emax.
Definition fmul : float32 -> float32 -> float32 := SFmul prec emax.
Definition fdiv : float32 -> float32 -> float32 := SFdiv prec emax.
Definition fneg : float32 -> float32 := SFopp.

(** The C relational operators; each is false as soon as one side is NaN. *)
Definition flt (x y : float32) : bool := SFltb x y.
Definition fgt (x y : float32) : bool := SFltb y x.
Definition fle (x y : float32) : bool := SFleb x y.
Definition fge (x y : float32) : bool := SFleb y x.

(** Integer to [float] conversion, as in [(float)delta_ms]. *)
Definition of_Z (n : Z) : float32 := binary_normalize prec emax n 0 false.

(** The binary32 value nearest to the fraction [num / den]; both are
    exactly representable, so one correctly rounded division yields it. *)
Definition lit (num den : Z) : float32 := fdiv (of_Z num) (of_Z den).

(** Decimal literals: [0.7] stands for the C constant [0.7f]. *)
Definition parse_literal (n : Number.number) : option spec_float :=
  match n with
  | Number.Decimal (Decimal.Decimal i f) =>
      let num := Z.of_int (Decimal.app_int i f) in
      let den := (10 ^ Z.of_nat (Decimal.nb_digits f))%Z in
      if ((Z.abs num <? 2 ^ 24) && (den <? 2 ^ 24))%Z
      then Some (lit num den) else None
  | _ => None
  end.

Definition print_literal (x : spec_float) : option Number.number := None.

Declare Scope f32_scope.
Delimit Scope f32_scope with f32.
Bind Scope f32_scope with float32.
Number Notation spec_float parse_literal print_literal : f32_scope.

Notation "x + y" := (fadd x y) : f32_scope.
Notation "x - y" := (fsub x y) : f32_scope.
Notation "x * y" := (fmul x y) : f32_scope.
Notation "x / y" := (fdiv x y) : f32_scope.
Notation "- x" := (fneg x) : f32_scope.
Notation "x <? y" := (flt x y) : f32_scope.
Notation "x >? y" := (fgt x y) : f32_scope.
Notation "x <=? y" := (fle x y) : f32_scope.
Notation "x >=? y" := (fge x y) : f32_scope.

Definition is_nan (x : float32) : bool :=
  match x with S754_nan => true | _ => false end.

(** [fminf] and [fmaxf] of the C library: a NaN operand is ignored. *)
Definition fminf (x y : float32) : float32 :=
  if is_nan x then y else if is_nan y then x
  else if (y <? x)%f32 then y else x.

Definition fmaxf (x y : float32) : float32 :=
  if is_nan x then y else if is_nan y then x
  else if (x <? y)%f32 then y else x.

(** Well-formed encodings: every C [float] is one. *)
Definition valid (x : float32) : bool := valid_binary prec emax x.

(** Decoding of a 32-bit pattern (sign, 8 exponent bits, 23 mantissa bits). *)
Definition of_bits (b : Z) : float32 :=
  let s := Z.testbit b 31 in
  let e := Z.land (Z.shiftr b 23) 255 in
  let m := Z.land b 8388607 in
  if (e =? 255)%Z then (if (m =? 0)%Z then S754_infinity s else S754_nan)
  else if (e =? 0)%Z then
    match m with
    | Zpos p => S754_finite s p (-149)
    | _ => S754_zero s
    end
  else
    match (m + 8388608)%Z with
    | Zpos p => S754_finite s p (e - 150)
    | _ => S754_nan
    end.

(** 32-bit unsigned wrap-around, as in [uint32_t] arithmetic. *)
Definition u32 (z : Z) : Z := (z mod 2 ^ 32)%Z.

(** [x] is a number of the closed unit interval. *)
Definition in01 (x : float32) : Prop :=
  valid x = true /\ (0 <=? x)%f32 = true /\ (x <=? 1)%f32 = true.

(** *** Vocabulary for range arguments

    [fin k x]: [x] is a well-formed zero or finite number with
    [|x| < 2^k]; [mag x] is the least such [k] of a finite non-zero [x];
    [side lo hi] delimits the exponents for which one operation can
    neither overflow nor leave the format. *)
Definition fx (e : Z) : Z := Z.max (e - 24) (-149).

Definition fin (k : Z) (x : float32) : Prop :=
  match x with
  | S754_zero _ => True
  | S754_finite _ m e =>
      bounded prec emax m e = true /\ (Zdigits2 (Zpos m) + e <= k)%Z
  | _ => False
  end.

Definition finb (x : float32) : bool :=
  match x with
  | S754_zero _ => true
  | S754_finite _ m e => bounded prec emax m e
  | _ => false
  end.

Definition nzb (x : float32) : bool :=
  match x with
  | S754_finite _ m e => bounded prec emax m e
  | _ => false
  end.

Definition mag (x : float32) : Z :=
  match x with
  | S754_finite _ m e => (Zdigits2 (Zpos m) + e)%Z
  | _ => (-149)%Z
  end.

Definition side (lo hi : Z) : bool := ((-149 <=? lo) && (hi <=? 127))%Z.

(** [num x]: [x] is a well-formed number, finite or infinite, not NaN. *)
Definition num (x : float32) : Prop :=
  match x with
  | S754_nan => False
  | S754_finite _ m e => bounded prec emax m e = true
  | _ => True
  end.

(** [pos_mag lo hi x]: [x] is a well-formed positive number with
    [2^(lo-1) <= x < 2^hi]. *)
Definition pos_mag (lo hi : Z) (x : float32) : Prop :=
  match x with
  | S754_finite false m e =>
      bounded prec emax m e = true
      /\ (lo <= Zdigits2 (Zpos m) + e <= hi)%Z
  | _ => False
  end.

(** [sign_clear x]: [x] is not NaN and its sign bit is clear. *)
Definition sign_clear (x : float32) : Prop :=
  match x with
  | S754_nan => False
  | S754_zero s | S754_infinity s | S754_finite s _ _ => s = false
  end.

(** *** The order of the comparison operators

    Read off a float: its class (negative infinity, negative, zero,
    positive, positive infinity), then exponent and mantissa, both
    counted downwards for a negative number.  [lex_lt] is the order
    [SFcompare] decides on well-formed numbers. *)
Definition cls (x : float32) : Z :=
  match x with
  | S754_infinity true => -2
  | S754_finite true _ _ => -1
  | S754_finite false _ _ => 1
  | S754_infinity false => 2
  | _ => 0
  end%Z.

Definition key_e (x : float32) : Z :=
  match x with
  | S754_finite true _ e => - e
  | S754_finite false _ e => e
  | _ => 0
  end%Z.

Definition key_m (x : float32) : Z :=
  match x with
  | S754_finite true m _ => - Zpos m
  | S754_finite false m _ => Zpos m
  | _ => 0
  end%Z.

Definition lex_lt (x y : float32) : Prop :=
  (cls x < cls y
   \/ (cls x = cls y
       /\ (key_e x < key_e y \/ (key_e x = key_e y /\ key_m x < key_m y))))%Z.

End F32.

Export F32.

(* ================================================================== *)
(** ** core_state.h, core_state.cpp: the needs simulator *)
(* ================================================================== *)

Module CoreState.

Local Open Scope f32_scope.

Record PetState : Type := {
  hunger : float32;
  energy : float32;
  affection_need : float32;
  trust : float32;
  stress : float32
}.

Inductive PetAction : Type :=
  | ACTION_SLEEP
  | ACTION_IDLE
  | ACTION_PLAY
  | ACTION_ASK_FOOD
  | ACTION_ASK_PET
  | ACTION_HAPPY
  | ACTION_ANNOYED
  | ACTION_SAD.

Definition ACTION_COUNT : Z := 8.

Definition action_index (a : PetAction) : Z :=
  match a with
  | ACTION_SLEEP => 0
  | ACTION_IDLE => 1
  | ACTION_PLAY => 2
  | ACTION_ASK_FOOD => 3
  | ACTION_ASK_PET => 4
  | ACTION_HAPPY => 5
  | ACTION_ANNOYED => 6
  | ACTION_SAD => 7
  end%Z.

(** The cast [(PetAction)i] for an index of the enumeration. *)
Definition action_of_index (i : nat) : PetAction :=
  match i with
  | 0 => ACTION_SLEEP
  | 1 => ACTION_IDLE
  | 2 => ACTION_PLAY
  | 3 => ACTION_ASK_FOOD
  | 4 => ACTION_ASK_PET
  | 5 => ACTION_HAPPY
  | 6 => ACTION_ANNOYED
  | _ => ACTION_SAD
  end%nat.

Definition action_eqb (a b : PetAction) : bool :=
  (action_index a =? action_index b)%Z.

Record BrainOutput : Type := {
  action_id : PetAction;
  valence : float32;
  arousal : float32
}.

Record InteractionStats : Type := {
  last_interaction_ms : Z;
  feed_count_1m : Z;
  feed_count_5m : Z;
  pet_count_1m : Z;
  pet_count_5m : Z;
  ignore_start_ms : Z;
  spam_score : float32
}.

Record StateConfig : Type := {
  hunger_rate : float32;
  energy_decay_rate : float32;
  energy_regen_rate : float32;
  affection_decay_rate : float32;
  stress_decay_rate : float32;
  trust_decay_rate : float32;
  feed_hunger_reduction : float32;
  feed_stress_reduction : float32;
  pet_affection_reduction : float32;
  pet_stress_reduction : float32;
  spam_penalty : float32
}.

Definition clamp01 (value : float32) : float32 :=
  if value <? 0.0 then 0.0
  else if value >? 1.0 then 1.0
  else value.

Definition core_state_init : PetState :=
  {| hunger := 0.3;
     energy := 0.7;
     affection_need := 0.4;
     trust := 0.5;
     stress := 0.2 |}.

Definition core_state_config_init : StateConfig :=
  {| hunger_rate := 0.001;
     energy_decay_rate := 0.0008;
     energy_regen_rate := 0.002;
     affection_decay_rate := 0.0005;
     stress_decay_rate := 0.0003;
     trust_decay_rate := 0.00001;
     feed_hunger_reduction := 0.4;
     feed_stress_reduction := 0.05;
     pet_affection_reduction := 0.35;
     pet_stress_reduction := 0.1;
     spam_penalty := 0.7 |}.

Definition core_state_update (state : PetState) (config : StateConfig)
    (delta_ms : Z) (current_action : PetAction) : PetState :=
  let dt := of_Z delta_ms / 1000.0 in
  (* Hunger always increases *)
  let hunger' := clamp01 (hunger state + hunger_rate config * dt) in
  (* Energy depends on action *)
  let energy' :=
    if action_eqb current_action ACTION_SLEEP
    then clamp01 (energy state + energy_regen_rate config * dt)
    else clamp01 (energy state - energy_decay_rate config * dt) in
  (* Affection need increases over time *)
  let affection_need' :=
    clamp01 (affection_need state + affection_decay_rate config * dt) in
  (* Stress naturally decays but increases when hungry or low energy *)
  let stress_change := - stress_decay_rate config * dt in
  let stress_change :=
    if hunger' >? 0.7
    then stress_change + 0.0005 * dt * (hunger' - 0.7) / 0.3
    else stress_change in
  let stress_change :=
    if energy' <? 0.2
    then stress_change + 0.0003 * dt * (0.2 - energy') / 0.2
    else stress_change in
  let stress_change :=
    if affection_need' >? 0.8
    then stress_change + 0.0002 * dt
    else stress_change in
  let stress' := clamp01 (stress state + stress_change) in
  (* Trust very slowly decays if not maintained *)
  let trust' := clamp01 (trust state - trust_decay_rate config * dt) in
  {| hunger := hunger';
     energy := energy';
     affection_need := affection_need';
     trust := trust';
     stress := stress' |}.

Definition set_spam_score (stats : InteractionStats) (v : float32)
    : InteractionStats :=
  {| last_interaction_ms := last_interaction_ms stats;
     feed_count_1m := feed_count_1m stats;
     feed_count_5m := feed_count_5m stats;
     pet_count_1m := pet_count_1m stats;
     pet_count_5m := pet_count_5m stats;
     ignore_start_ms := ignore_start_ms stats;
     spam_score := v |}.

Definition core_state_feed (state : PetState) (config : StateConfig)
    (stats : InteractionStats) : PetState * InteractionStats :=
  (* Calculate effectiveness based on spam score *)
  let effectiveness := 1.0 - spam_score stats * spam_penalty config in
  (* Apply hunger reduction *)
  let hunger_before := hunger state in
  let hunger' :=
    clamp01 (hunger state - feed_hunger_reduction config * effectiveness) in
  (* Reduce stress slightly *)
  let stress' :=
    clamp01 (stress state - feed_stress_reduction config * effectiveness) in
  (* Trust increases if pet was actually hungry *)
  let was_hungry := hunger_before >? 0.5 in
  let trust' :=
    if was_hungry && (effectiveness >? 0.5)
    then clamp01 (trust state + 0.02)
    else trust state in
  (* Feeding when not hungry can be annoying *)
  let stress' :=
    if hunger_before <? 0.2 then clamp01 (stress' + 0.03) else stress' in
  (* Update spam detection *)
  ({| hunger := hunger';
      energy := energy state;
      affection_need := affection_need state;
      trust := trust';
      stress := stress' |},
   set_spam_score stats (clamp01 (spam_score stats + 0.15))).

Definition core_state_pet (state : PetState) (config : StateConfig)
    (stats : InteractionStats) : PetState * InteractionStats :=
  (* Calculate effectiveness based on spam score *)
  let effectiveness := 1.0 - spam_score stats * spam_penalty config in
  (* Apply affection reduction *)
  let affection_before := affection_need state in
  let affection_need' :=
    clamp01 (affection_need state
             - pet_affection_reduction config * effectiveness) in
  (* Reduce stress *)
  let stress' :=
    clamp01 (stress state - pet_stress_reduction config * effectiveness) in
  (* Trust increases if pet needed affection *)
  let needed_affection := affection_before >? 0.5 in
  let trust' :=
    if needed_affection && (effectiveness >? 0.5)
    then clamp01 (trust state + 0.015)
    else trust state in
  (* Petting when not needed can be slightly annoying *)
  let stress' :=
    if affection_before <? 0.15 then clamp01 (stress' + 0.02) else stress' in
  (* Update spam detection *)
  ({| hunger := hunger state;
      energy := energy state;
      affection_need := affection_need';
      trust := trust';
      stress := stress' |},
   set_spam_score stats (clamp01 (spam_score stats + 0.15))).

Definition core_state_stats_init : InteractionStats :=
  {| last_interaction_ms := 0;
     feed_count_1m := 0;
     feed_count_5m := 0;
     pet_count_1m := 0;
     pet_count_5m := 0;
     ignore_start_ms := 0;
     spam_score := 0.0 |}.

Definition core_state_update_stats (stats : InteractionStats)
    (current_ms : Z) : InteractionStats :=
  (* Decay spam score over time *)
  let decay := 0.0005 in
  let dt := u32 (current_ms - last_interaction_ms stats) in
  if ((0 <? dt) && (dt <? 60000))%Z
  then set_spam_score stats (clamp01 (spam_score stats - decay * of_Z dt))
  else stats.

Definition calculate_trust_change (state : PetState)
    (was_requested was_timely : bool) : float32 :=
  let change := 0.0 in
  let change :=
    if was_requested && was_timely then 0.03        (* Good response to request *)
    else if negb was_requested && was_timely then 0.01    (* Anticipated need *)
    else if was_requested && negb was_timely then -0.01   (* Late response *)
    else change in
  (* Trust change is slower when trust is already high/low *)
  let change :=
    if (trust state >? 0.8) && (change >? 0) then change * 0.5 else change in
  let change :=
    if (trust state <? 0.2) && (change <? 0) then change * 0.5 else change in
  change.

(** One entry of a call sequence on the simulator. *)
Inductive call : Type :=
  | Tick (delta_ms : Z) (current_action : PetAction)
  | Feed
  | Pet.

Definition apply_call (config : StateConfig)
    (s : PetState * InteractionStats) (c : call)
    : PetState * InteractionStats :=
  match c with
  | Tick delta_ms current_action =>
      (core_state_update (fst s) config delta_ms current_action, snd s)
  | Feed => core_state_feed (fst s) config (snd s)
  | Pet => core_state_pet (fst s) config (snd s)
  end.

Definition run_calls (config : StateConfig) (calls : list call)
    (s : PetState * InteractionStats) : PetState * InteractionStats :=
  fold_left (apply_call config) calls s.

(** [delta_ms] is a [uint32_t]. *)
Definition call_ok (c : call) : Prop :=
  match c with
  | Tick delta_ms _ => (0 <= delta_ms < 2 ^ 32)%Z
  | _ => True
  end.

Definition needs_in01 (state : PetState) : Prop :=
  in01 (hunger state) /\ in01 (energy state) /\ in01 (affection_need state)
  /\ in01 (trust state) /\ in01 (stress state).

(** [n] successive feeds, and the spam score they leave behind. *)
Definition feed_n (config : StateConfig) (n : nat)
    (s : PetState * InteractionStats) : PetState * InteractionStats :=
  Nat.iter n (fun s => core_state_feed (fst s) config (snd s)) s.

Definition spam_after_feeds (n : nat) (spam : float32) : float32 :=
  Nat.iter n (fun x => clamp01 (x + 0.15)) spam.

End CoreState.

(* ================================================================== *)
(** ** logger.h, logger.cpp: the event journal *)
(* ================================================================== *)

Module Logger.

Import CoreState.

Definition LOG_MAX_EVENTS : Z := 100.

Inductive InputEventType : Type :=
  | INPUT_NONE
  | INPUT_FEED_SHORT
  | INPUT_FEED_LONG
  | INPUT_FEED_DOUBLE
  | INPUT_PET_SHORT
  | INPUT_PET_LONG
  | INPUT_PET_DOUBLE
  | INPUT_IGNORE.

Record Features : Type := {
  hunger : float32;
  energy : float32;
  affection_need : float32;
  trust : float32;
  stress : float32;
  dt_seconds_norm : float32;
  feed_count_5m_norm : float32;
  pet_count_5m_norm : float32;
  ignore_time_norm : float32;
  time_of_day_sin : float32;
  time_of_day_cos : float32;
  spam_score_norm : float32
}.

Record LogEntry : Type := {
  timestamp : Z;
  input_event : InputEventType;
  features : Features;
  model_action : PetAction;
  model_valence : float32;
  model_arousal : float32;
  state_after : PetState
}.

(** Static storage starts out as all-zero bytes. *)
Definition zero_features : Features :=
  {| hunger := 0.0; energy := 0.0; affection_need := 0.0; trust := 0.0;
     stress := 0.0; dt_seconds_norm := 0.0; feed_count_5m_norm := 0.0;
     pet_count_5m_norm := 0.0; ignore_time_norm := 0.0;
     time_of_day_sin := 0.0; time_of_day_cos := 0.0;
     spam_score_norm := 0.0 |}.

Definition zero_entry : LogEntry :=
  {| timestamp := 0;
     input_event := INPUT_NONE;
     features := zero_features;
     model_action := ACTION_SLEEP;
     model_valence := 0.0;
     model_arousal := 0.0;
     state_after :=
       {| CoreState.hunger := 0.0; CoreState.energy := 0.0;
          CoreState.affection_need := 0.0; CoreState.trust := 0.0;
          CoreState.stress := 0.0 |} |}.

Global Instance LogEntry_inhabited : Inhabited LogEntry := populate zero_entry.

(** The file-static variables of logger.cpp. *)
Record LoggerState : Type := {
  g_buffer : list LogEntry;
  g_head : Z;       (* next write position *)
  g_count : Z;      (* current count *)
  g_initialized : bool
}.

Definition logger_static_init : LoggerState :=
  {| g_buffer := replicate (Z.to_nat LOG_MAX_EVENTS) zero_entry;
     g_head := 0;
     g_count := 0;
     g_initialized := false |}.

Definition logger_init (st : LoggerState) : LoggerState :=
  {| g_buffer := g_buffer st;
     g_head := 0;
     g_count := 0;
     g_initialized := true |}.

(** The assignments made through [entry], the slot at [g_head]; a null
    argument leaves the corresponding fields of the slot as they were. *)
Definition fill_entry (entry : LogEntry) (millis : Z) (event : InputEventType)
    (features_arg : option Features) (brain_output : option BrainOutput)
    (state_after_arg : option PetState) : LogEntry :=
  {| timestamp := (millis / 1000)%Z;
     input_event := event;
     features :=
       match features_arg with
       | Some f => f
       | None => features entry
       end;
     model_action :=
       match brain_output with
       | Some b => action_id b
       | None => model_action entry
       end;
     model_valence :=
       match brain_output with
       | Some b => valence b
       | None => model_valence entry
       end;
     model_arousal :=
       match brain_output with
       | Some b => arousal b
       | None => model_arousal entry
       end;
     state_after :=
       match state_after_arg with
       | Some s => s
       | None => state_after entry
       end |}.

(** [millis] is the reading of the millisecond clock at the call. *)
Definition logger_log_event (st : LoggerState) (millis : Z)
    (event : InputEventType) (features_arg : option Features)
    (brain_output : option BrainOutput) (state_after_arg : option PetState)
    : LoggerState :=
  if negb (g_initialized st) then st
  else
    let slot := Z.to_nat (g_head st) in
    let entry := g_buffer st !!! slot in
    let entry :=
      fill_entry entry millis event features_arg brain_output state_after_arg in
    (* Advance head (ring buffer) *)
    {| g_buffer := <[slot := entry]> (g_buffer st);
       g_head := ((g_head st + 1) mod LOG_MAX_EVENTS)%Z;
       g_count :=
         if (g_count st <? LOG_MAX_EVENTS)%Z then (g_count st + 1)%Z
         else g_count st;
       g_initialized := g_initialized st |}.

Definition logger_get_count (st : LoggerState) : Z := g_count st.

(** [Some e] stands for a [true] return with [*entry = e]. *)
Definition logger_get_event (st : LoggerState) (index : Z) : option LogEntry :=
  if negb (g_initialized st) || (g_count st <=? index)%Z then None
  else
    (* Calculate actual position (oldest first) *)
    let start := if (g_count st =? LOG_MAX_EVENTS)%Z then g_head st else 0%Z in
    let pos := ((start + index) mod LOG_MAX_EVENTS)%Z in
    Some (g_buffer st !!! Z.to_nat pos).

Definition logger_clear (st : LoggerState) : LoggerState :=
  {| g_buffer := g_buffer st;
     g_head := 0;
     g_count := 0;
     g_initialized := g_initialized st |}.

(** One call of [logger_log_event] as the main loop makes it, with all
    three pointers non-null. *)
Record LogCall : Type := {
  lc_millis : Z;
  lc_event : InputEventType;
  lc_features : Features;
  lc_brain : BrainOutput;
  lc_state : PetState
}.

Definition log_call (st : LoggerState) (c : LogCall) : LoggerState :=
  logger_log_event st (lc_millis c) (lc_event c) (Some (lc_features c))
    (Some (lc_brain c)) (Some (lc_state c)).

(** The record such a call writes. *)
Definition record_of (c : LogCall) : LogEntry :=
  {| timestamp := (lc_millis c / 1000)%Z;
     input_event := lc_event c;
     features := lc_features c;
     model_action := action_id (lc_brain c);
     model_valence := valence (lc_brain c);
     model_arousal := arousal (lc_brain c);
     state_after := lc_state c |}.

Definition log_calls (cs : list LogCall) (st : LoggerState) : LoggerState :=
  fold_left log_call cs st.

(** A sample run: call number [k] happens at second [k]. *)
Definition sample_call (k : nat) : LogCall :=
  {| lc_millis := 1000 * Z.of_nat k;
     lc_event := INPUT_FEED_SHORT;
     lc_features := zero_features;
     lc_brain := {| action_id := ACTION_IDLE; valence := 0.0%f32;
                    arousal := 0.3%f32 |};
     lc_state := core_state_init |}.

Definition sample_calls : list LogCall := map sample_call (seq 1 150).

End Logger.

(* ================================================================== *)
(** ** online_learn.cpp: the online learner *)
(* ================================================================== *)

Module OnlineLearn.

Import CoreState.
Local Open Scope f32_scope.

Definition ACTION_COUNT : Z := 8.
Definition LEARNING_RATE : float32 := 0.1.
Definition DECAY_RATE : float32 := 0.99.
Definition MAX_BUFFER_SIZE : Z := 16.

Global Instance float32_inhabited : Inhabited float32 := populate 0.0.

Record Experience : Type := {
  features : list float32;   (* float features[12] *)
  action : Z;                (* uint8_t *)
  reward : float32
}.

Definition zero_experience : Experience :=
  {| features := replicate 12 0.0; action := 0; reward := 0.0 |}.

Global Instance Experience_inhabited : Inhabited Experience :=
  populate zero_experience.

(** The file-static variables of online_learn.cpp. *)
Record LearnState : Type := {
  g_action_biases : list float32;
  g_buffer : list Experience;
  g_buffer_count : Z;       (* uint8_t *)
  g_total_rewards : Z;      (* uint32_t *)
  g_initialized : bool
}.

Definition learn_static_init : LearnState :=
  {| g_action_biases := replicate (Z.to_nat ACTION_COUNT) 0.0;
     g_buffer := replicate (Z.to_nat MAX_BUFFER_SIZE) zero_experience;
     g_buffer_count := 0;
     g_total_rewards := 0;
     g_initialized := false |}.

(** [saved] is what the key-value store returns when it can be opened:
    the eight biases and the reward count. *)
Definition online_learn_init (st : LearnState)
    (saved : option (list float32 * Z)) : LearnState :=
  {| g_action_biases :=
       match saved with
       | Some (biases, _) => biases
       | None => g_action_biases st
       end;
     g_buffer := g_buffer st;
     g_buffer_count := 0;
     g_total_rewards :=
       match saved with
       | Some (_, count) => count
       | None => g_total_rewards st
       end;
     g_initialized := true |}.

(** The twelve floats [memcpy] reads starting at [&features->hunger]. *)
Definition features_array (f : Logger.Features) : list float32 :=
  [ Logger.hunger f; Logger.energy f; Logger.affection_need f;
    Logger.trust f; Logger.stress f; Logger.dt_seconds_norm f;
    Logger.feed_count_5m_norm f; Logger.pet_count_5m_norm f;
    Logger.ignore_time_norm f; Logger.time_of_day_sin f;
    Logger.time_of_day_cos f; Logger.spam_score_norm f ].

Definition online_learn_reward (st : LearnState) (reward_action : Z)
    (f : Logger.Features) : LearnState :=
  if negb (g_initialized st) then st
  else if (ACTION_COUNT <=? reward_action)%Z then st
  else if (g_buffer_count st <? MAX_BUFFER_SIZE)%Z then
    (* Add to experience buffer *)
    let exp :=
      {| features := features_array f;
         action := reward_action;
         reward := 1.0 |} in
    {| g_action_biases := g_action_biases st;
       g_buffer := <[Z.to_nat (g_buffer_count st) := exp]> (g_buffer st);
       g_buffer_count := (g_buffer_count st + 1)%Z;
       g_total_rewards := u32 (g_total_rewards st + 1);
       g_initialized := g_initialized st |}
  else st.

(** The body of the loop over the experience buffer, for one entry. *)
Definition learn_from (biases : list float32) (exp : Experience)
    : list float32 :=
  let a := Z.to_nat (action exp) in
  (* Increase bias for rewarded action *)
  let biases := <[a := biases !!! a + LEARNING_RATE * reward exp]> biases in
  (* Slightly decrease bias for other actions (competition) *)
  fold_left
    (fun bs i =>
       if negb (Nat.eqb i a)
       then <[i := bs !!! i - LEARNING_RATE * reward exp * 0.1]> bs
       else bs)
    (seq 0 (Z.to_nat ACTION_COUNT)) biases.

Definition online_learn_apply (st : LearnState) : bool * LearnState :=
  if negb (g_initialized st) || (g_buffer_count st =? 0)%Z then (false, st)
  else
    (* Apply decay to all biases (forgetting factor) *)
    let biases := map (fun b => b * DECAY_RATE) (g_action_biases st) in
    (* Learn from experience buffer *)
    let biases :=
      fold_left (fun bs e => learn_from bs (g_buffer st !!! e))
        (seq 0 (Z.to_nat (g_buffer_count st))) biases in
    (* Clamp biases to reasonable range *)
    let biases := map (fun b => fmaxf (-2.0) (fminf 2.0 b)) biases in
    (true,
     {| g_action_biases := biases;
        g_buffer := g_buffer st;
        g_buffer_count := 0;
        g_total_rewards := g_total_rewards st;
        g_initialized := g_initialized st |}).

Definition online_learn_get_reward_count (st : LearnState) : Z :=
  g_total_rewards st.

Definition online_learn_get_bias (st : LearnState) (action_arg : Z) : float32 :=
  if (ACTION_COUNT <=? action_arg)%Z then 0.0
  else g_action_biases st !!! Z.to_nat action_arg.

(** A learner whose queue is full. *)
Definition full_learner : LearnState :=
  {| g_action_biases := g_action_biases learn_static_init;
     g_buffer := g_buffer learn_static_init;
     g_buffer_count := 16;
     g_total_rewards := 16;
     g_initialized := true |}.

End OnlineLearn.

(* ================================================================== *)
(** ** brain_infer.cpp: the decision engine *)
(* ================================================================== *)

Module Brain.

Import CoreState.
Local Open Scope f32_scope.

(** The model architecture constants of brain_infer.h. *)
Definition BRAIN_INPUT_SIZE : nat := 12.     (* number of input features *)
Definition BRAIN_HIDDEN_SIZE : nat := 16.    (* hidden layer size *)
Definition BRAIN_ACTION_COUNT : nat := 8.    (* number of actions *)
Definition BRAIN_OUTPUT_SIZE : nat := 10.    (* actions + valence + arousal *)

(** The weight structure of brain_infer.h: [w1[i][j]] is row [i], column
    [j] of the input-to-hidden matrix, and so on. *)
Record BrainWeights : Type := {
  w1 : list (list float32);   (* float w1[BRAIN_INPUT_SIZE][BRAIN_HIDDEN_SIZE] *)
  b1 : list float32;          (* float b1[BRAIN_HIDDEN_SIZE] *)
  w2 : list (list float32);   (* float w2[BRAIN_HIDDEN_SIZE][BRAIN_OUTPUT_SIZE] *)
  b2 : list float32           (* float b2[BRAIN_OUTPUT_SIZE] *)
}.

(** The file-static variables of brain_infer.cpp. *)
Record BrainState : Type := {
  g_weights : BrainWeights;
  g_custom_model_loaded : bool;
  g_model_version : Z
}.

Definition relu (x : float32) : float32 :=
  if x >? 0 then x else 0.

(** [data[i]], and the little-endian 32-bit word at byte offset [off]. *)
Definition byte_at (data : list Byte.byte) (i : nat) : Z :=
  Z.of_N (Byte.to_N (nth i data Byte.x00)).

Definition word_at (data : list Byte.byte) (off : nat) : Z :=
  (byte_at data off
   + Z.shiftl (byte_at data (off + 1)) 8
   + Z.shiftl (byte_at data (off + 2)) 16
   + Z.shiftl (byte_at data (off + 3)) 24)%Z.

(** [fdata[idx]] once [data] has been advanced past the version word. *)
Definition fdata (data : list Byte.byte) (idx : nat) : float32 :=
  of_bits (word_at data (4 + 4 * idx)).

(** [rows * cols] consecutive floats from [idx] on, row by row, which is
    the order in which the nested loops consume [fdata[idx++]]. *)
Definition load_matrix (data : list Byte.byte) (idx rows cols : nat)
    : list (list float32) :=
  map (fun i => map (fun j => fdata data (idx + i * cols + j)) (seq 0 cols))
    (seq 0 rows).

Definition load_vector (data : list Byte.byte) (idx len : nat) : list float32 :=
  map (fun j => fdata data (idx + j)) (seq 0 len).

Definition expected_size : Z :=
  (Z.of_nat (BRAIN_INPUT_SIZE * BRAIN_HIDDEN_SIZE      (* w1 *)
             + BRAIN_HIDDEN_SIZE                        (* b1 *)
             + BRAIN_HIDDEN_SIZE * BRAIN_OUTPUT_SIZE    (* w2 *)
             + BRAIN_OUTPUT_SIZE)                       (* b2 *)
   * 4)%Z.

(** [size] is the length of the buffer [data]. *)
Definition brain_load_weights (st : BrainState) (data : list Byte.byte)
    : bool * BrainState :=
  let size := Z.of_nat (length data) in
  if (size <? expected_size + 4)%Z then (false, st)
  else
    (* First 4 bytes are version *)
    let version := word_at data 0 in
    (* Load weights in order *)
    let idx := 0%nat in
    let w1' := load_matrix data idx BRAIN_INPUT_SIZE BRAIN_HIDDEN_SIZE in
    let idx := (idx + BRAIN_INPUT_SIZE * BRAIN_HIDDEN_SIZE)%nat in
    let b1' := load_vector data idx BRAIN_HIDDEN_SIZE in
    let idx := (idx + BRAIN_HIDDEN_SIZE)%nat in
    let w2' := load_matrix data idx BRAIN_HIDDEN_SIZE BRAIN_OUTPUT_SIZE in
    let idx := (idx + BRAIN_HIDDEN_SIZE * BRAIN_OUTPUT_SIZE)%nat in
    let b2' := load_vector data idx BRAIN_OUTPUT_SIZE in
    (true,
     {| g_weights := {| w1 := w1'; b1 := b1'; w2 := w2'; b2 := b2' |};
        g_custom_model_loaded := true;
        g_model_version := version |}).

Definition brain_has_custom_model (st : BrainState) : bool :=
  g_custom_model_loaded st.

Definition brain_get_model_version (st : BrainState) : Z :=
  g_model_version st.

Section Libm.

(** [expf] and [tanhf] come from the C library. *)
Variable expf : float32 -> float32.
Variable tanhf : float32 -> float32.

Definition sigmoid (x : float32) : float32 :=
  1.0 / (1.0 + expf (- x)).

Definition tanh_f (x : float32) : float32 := tanhf x.

(** Softmax for action probabilities, in place on the first [size]
    elements of [input]. *)
Definition softmax (input : list float32) (size : nat) : list float32 :=
  let max_val :=
    fold_left
      (fun max_val i => if input !!! i >? max_val then input !!! i else max_val)
      (seq 1 (size - 1)) (input !!! 0%nat) in
  let '(input, sum) :=
    fold_left
      (fun '(input, sum) i =>
         let input := <[i := expf (input !!! i - max_val)]> input in
         (input, sum + input !!! i))
      (seq 0 size) (input, 0) in
  fold_left (fun input i => <[i := input !!! i / sum]> input)
    (seq 0 size) input.

(** The two layers of [brain_infer_raw], with the activations of the two
    emotion outputs, up to the call of [softmax]. *)
Definition brain_layers (weights : BrainWeights) (input : list float32)
    : list float32 :=
  (* Hidden layer *)
  let hidden :=
    map (fun j =>
           relu (fold_left
                   (fun h i => h + input !!! i * (w1 weights !!! i) !!! j)
                   (seq 0 BRAIN_INPUT_SIZE) (b1 weights !!! j)))
      (seq 0 BRAIN_HIDDEN_SIZE) in
  (* Output layer *)
  let output :=
    map (fun j =>
           fold_left
             (fun o i => o + hidden !!! i * (w2 weights !!! i) !!! j)
             (seq 0 BRAIN_HIDDEN_SIZE) (b2 weights !!! j))
      (seq 0 BRAIN_OUTPUT_SIZE) in
  (* Apply activation to emotions (last 2 outputs) *)
  let output :=
    <[BRAIN_ACTION_COUNT := tanh_f (output !!! BRAIN_ACTION_COUNT)]> output in
  <[(BRAIN_ACTION_COUNT + 1)%nat :=
      sigmoid (output !!! (BRAIN_ACTION_COUNT + 1)%nat)]> output.

Definition brain_infer_raw (weights : BrainWeights) (input : list float32)
    : list float32 :=
  let output := brain_layers weights input in
  (* Apply softmax to actions *)
  softmax output BRAIN_ACTION_COUNT.

(** The loop of [brain_infer] that adds the learned biases. *)
Definition add_biases (learn : OnlineLearn.LearnState)
    (raw_output : list float32) : list float32 :=
  fold_left
    (fun raw i =>
       <[i := raw !!! i
              + OnlineLearn.online_learn_get_bias learn (Z.of_nat i)]> raw)
    (seq 0 BRAIN_ACTION_COUNT) raw_output.

(** The forward scan for the best action: the running best is replaced
    only by a strictly greater value. *)
Definition find_best (raw_output : list float32) : nat * float32 :=
  fold_left
    (fun '(best_action, best_prob) i =>
       if raw_output !!! i >? best_prob then (i, raw_output !!! i)
       else (best_action, best_prob))
    (seq 1 (BRAIN_ACTION_COUNT - 1)) (0%nat, raw_output !!! 0%nat).

Definition features_input (f : Logger.Features) : list float32 :=
  [ Logger.hunger f; Logger.energy f; Logger.affection_need f;
    Logger.trust f; Logger.stress f; Logger.dt_seconds_norm f;
    Logger.feed_count_5m_norm f; Logger.pet_count_5m_norm f;
    Logger.ignore_time_norm f; Logger.time_of_day_sin f;
    Logger.time_of_day_cos f; Logger.spam_score_norm f ].

(** [output] is returned as the call leaves it; a null [features]
    leaves it untouched. *)
Definition brain_infer (st : BrainState) (learn : OnlineLearn.LearnState)
    (features : option Logger.Features) (output : BrainOutput) : BrainOutput :=
  match features with
  | None => output
  | Some f =>
      (* Convert Features struct to float array *)
      let input := features_input f in
      let raw_output := brain_infer_raw (g_weights st) input in
      (* Add learned biases from online learning *)
      let raw_output := add_biases learn raw_output in
      (* Find best action *)
      let best_action := fst (find_best raw_output) in
      {| action_id := action_of_index best_action;
         valence := raw_output !!! BRAIN_ACTION_COUNT;
         arousal := raw_output !!! (BRAIN_ACTION_COUNT + 1)%nat |}
  end.

(** The learned path in the words of the design document, for
    comparison with [brain_infer]: the action logits receive the bias
    first, softmax over those eight comes second, the forward scan for
    the greatest value last. *)
Definition brain_infer_as_documented (st : BrainState)
    (learn : OnlineLearn.LearnState) (f : Logger.Features) : BrainOutput :=
  let output := brain_layers (g_weights st) (features_input f) in
  let output := add_biases learn output in
  let output := softmax output BRAIN_ACTION_COUNT in
  {| action_id := action_of_index (fst (find_best output));
     valence := output !!! BRAIN_ACTION_COUNT;
     arousal := output !!! (BRAIN_ACTION_COUNT + 1)%nat |}.

End Libm.

Definition set_valence (o : BrainOutput) (v : float32) : BrainOutput :=
  {| action_id := action_id o; valence := v; arousal := arousal o |}.

Definition set_arousal (o : BrainOutput) (v : float32) : BrainOutput :=
  {| action_id := action_id o; valence := valence o; arousal := v |}.

Definition brain_fallback (features : option Logger.Features)
    (output : BrainOutput) : BrainOutput :=
  match features with
  | None => output
  | Some f =>
      (* Simple rule-based fallback *)
      let hunger := Logger.hunger f in
      let energy := Logger.energy f in
      let affection := Logger.affection_need f in
      let stress := Logger.stress f in
      (* Default *)
      let output :=
        {| action_id := ACTION_IDLE; valence := 0.0; arousal := 0.3 |} in
      (* Priority: sleep > food > affection > play > idle *)
      let output :=
        if energy <? 0.2 then
          {| action_id := ACTION_SLEEP; valence := 0.0; arousal := 0.1 |}
        else if hunger >? 0.7 then
          {| action_id := ACTION_ASK_FOOD; valence := -0.3;
             arousal := 0.5 + hunger * 0.3 |}
        else if affection >? 0.6 then
          {| action_id := ACTION_ASK_PET; valence := -0.1; arousal := 0.4 |}
        else if stress >? 0.6 then
          {| action_id := ACTION_ANNOYED; valence := -0.5; arousal := 0.6 |}
        else if (hunger <? 0.3) && (energy >? 0.5) && (affection <? 0.3) then
          (* Well-fed, rested, and loved *)
          if Logger.dt_seconds_norm f >? 0.5 then
            {| action_id := ACTION_SAD; valence := -0.2; arousal := 0.2 |}
          else
            {| action_id := ACTION_HAPPY; valence := 0.7; arousal := 0.5 |}
        else if (energy >? 0.6) && (stress <? 0.3) then
          {| action_id := ACTION_PLAY; valence := 0.4; arousal := 0.6 |}
        else output in
      (* Adjust valence based on trust *)
      let output :=
        set_valence output (valence output + (Logger.trust f - 0.5) * 0.3) in
      (* Clamp *)
      let output :=
        if valence output <? -1.0 then set_valence output (-1.0) else output in
      let output :=
        if valence output >? 1.0 then set_valence output 1.0 else output in
      let output :=
        if arousal output <? 0.0 then set_arousal output 0.0 else output in
      let output :=
        if arousal output >? 1.0 then set_arousal output 1.0 else output in
      output
  end.

(** The priority ladder in the words of the design document, for
    comparison with [brain_fallback]. *)
Definition ladder_action (f : Logger.Features) : PetAction :=
  if Logger.energy f <? 0.2 then ACTION_SLEEP
  else if Logger.hunger f >? 0.7 then ACTION_ASK_FOOD
  else if Logger.affection_need f >? 0.6 then ACTION_ASK_PET
  else if Logger.stress f >? 0.6 then ACTION_ANNOYED
  else if (Logger.hunger f <? 0.3) && (Logger.energy f >? 0.5)
          && (Logger.affection_need f <? 0.3)
  then (if Logger.dt_seconds_norm f >? 0.5 then ACTION_SAD else ACTION_HAPPY)
  else if (Logger.energy f >? 0.6) && (Logger.stress f <? 0.3) then ACTION_PLAY
  else ACTION_IDLE.

(** A model whose output biases alone decide: all weights zero, logit 200
    for idle and 0 for the other actions. *)
Definition skewed_brain : BrainState :=
  {| g_weights :=
       {| w1 := replicate BRAIN_INPUT_SIZE (replicate BRAIN_HIDDEN_SIZE 0.0);
          b1 := replicate BRAIN_HIDDEN_SIZE 0.0;
          w2 := replicate BRAIN_HIDDEN_SIZE (replicate BRAIN_OUTPUT_SIZE 0.0);
          b2 := [0.0; 200.0; 0.0; 0.0; 0.0; 0.0; 0.0; 0.0; 0.0; 0.0] |};
     g_custom_model_loaded := true;
     g_model_version := 1 |}.

(** The learner after sixteen rewards of the happy action, the one the
    main loop rewards on every feed and every pet, and one periodic
    [online_learn_apply]: a bias of about 1.6 for happy and about -0.16
    for each other action. *)
Definition happy_trained : OnlineLearn.LearnState :=
  snd (OnlineLearn.online_learn_apply
         (Nat.iter 16
            (fun st =>
               OnlineLearn.online_learn_reward st (action_index ACTION_HAPPY)
                 Logger.zero_features)
            (OnlineLearn.online_learn_init OnlineLearn.learn_static_init
               None))).

(** A sample model file of exactly 1516 bytes: version 7, then float
    number [k] with the bit pattern [0x3F800000 + k], all little-endian. *)
Definition le_bytes (w : Z) : list Byte.byte :=
  map (fun i =>
         match Byte.of_N (Z.to_N (Z.land (Z.shiftr w (8 * i)) 255)) with
         | Some b => b
         | None => Byte.x00
         end)
    [0; 1; 2; 3]%Z.

Definition sample_model : list Byte.byte :=
  le_bytes 7
  ++ flat_map (fun k => le_bytes (0x3F800000 + Z.of_nat k)) (seq 0 378).

(** A stand-in for [expf] that is exact where the example needs it:
    1 at zero, 0 far below the underflow threshold. *)
Definition expf_table (x : float32) : float32 :=
  if x <? - 150.0 then 0.0 else 1.0.

Definition tired_and_hungry : Logger.Features :=
  {| Logger.hunger := 0.9; Logger.energy := 0.1;
     Logger.affection_need := 0.9; Logger.trust := 0.5;
     Logger.stress := 0.9; Logger.dt_seconds_norm := 1.0;
     Logger.feed_count_5m_norm := 0.0; Logger.pet_count_5m_norm := 0.0;
     Logger.ignore_time_norm := 0.0; Logger.time_of_day_sin := 0.0;
     Logger.time_of_day_cos := 1.0; Logger.spam_score_norm := 0.0 |}.

End Brain.

(* ================================================================== *)
(** ** main.cpp: the model-upload hook *)
(* ================================================================== *)

Module Main.

Import Brain.

(** The decision engine as the main loop sees it: the state of
    brain_infer.cpp and the flag [g_use_fallback_brain]. *)
Record Engine : Type := {
  brain : BrainState;
  g_use_fallback_brain : bool
}.

(** [on_model_uploaded]; [meta] is only printed. *)
Definition on_model_uploaded (eng : Engine) (data : list Byte.byte)
    (success : bool) : Engine :=
  if success then
    (* Try to load the new model *)
    let '(loaded, brain') := brain_load_weights (brain eng) data in
    if loaded
    then {| brain := brain'; g_use_fallback_brain := false |}
    else {| brain := brain'; g_use_fallback_brain := g_use_fallback_brain eng |}
  else eng.

End Main.

(* ================================================================== *)
(** ** buttons.cpp: the gesture recognizer *)
(* ================================================================== *)

Module Buttons.

Local Open Scope Z_scope.

(** The declarations of buttons.h. *)
Inductive ButtonId : Type := BUTTON_FEED | BUTTON_PET.

Definition BUTTON_COUNT : nat := 2.

Inductive GestureType : Type :=
  | GESTURE_NONE
  | GESTURE_SHORT      (* < 500ms press *)
  | GESTURE_LONG       (* > 500ms press *)
  | GESTURE_DOUBLE.    (* two presses within 300ms *)

Record ButtonEvent : Type := {
  button : ButtonId;
  gesture : GestureType;
  timestamp_ms : Z            (* uint32_t *)
}.

Record ButtonConfig : Type := {
  debounce_ms : Z;            (* uint16_t *)
  long_press_ms : Z;          (* uint16_t *)
  double_press_ms : Z         (* uint16_t *)
}.

Record ButtonState : Type := {
  current_state : bool;       (* current debounced state (true = pressed) *)
  last_raw_state : bool;      (* last raw reading *)
  last_change_ms : Z;         (* uint32_t, last state change time *)
  press_start_ms : Z;         (* uint32_t, when current press started *)
  press_count : Z;            (* uint8_t, presses in sequence *)
  pending_event : bool;       (* waiting to determine gesture *)
  release_time_ms : Z         (* uint32_t, when released *)
}.

Definition button_index (b : ButtonId) : nat :=
  match b with BUTTON_FEED => 0%nat | BUTTON_PET => 1%nat end.

Definition initial_button : ButtonState :=
  {| current_state := false;
     last_raw_state := false;
     last_change_ms := 0;
     press_start_ms := 0;
     press_count := 0;
     pending_event := false;
     release_time_ms := 0 |}.

Global Instance ButtonState_inhabited : Inhabited ButtonState :=
  populate initial_button.

(** The file-static variables of buttons.cpp; [g_callback] records
    whether a callback is registered. *)
Record ButtonsState : Type := {
  g_config : ButtonConfig;
  g_state : list ButtonState;
  g_pending_event : option ButtonEvent;
  g_has_pending_event : bool;
  g_callback : bool
}.

Definition buttons_config_init : ButtonConfig :=
  {| debounce_ms := 50;
     long_press_ms := 500;
     double_press_ms := 300 |}.

(** The statics before any call: zero-initialised storage, no callback. *)
Definition buttons_static_init : ButtonsState :=
  {| g_config := {| debounce_ms := 0; long_press_ms := 0;
                    double_press_ms := 0 |};
     g_state := [initial_button; initial_button];
     g_pending_event := None;
     g_has_pending_event := false;
     g_callback := false |}.

(** The pin numbers only matter to the pin reads, which are inputs here. *)
Definition buttons_init (g : ButtonsState) (config : option ButtonConfig)
    : ButtonsState :=
  {| g_config :=
       match config with
       | Some c => c
       | None => buttons_config_init
       end;
     g_state := [initial_button; initial_button];
     g_pending_event := g_pending_event g;
     g_has_pending_event := false;
     g_callback := g_callback g |}.

Definition buttons_set_callback (g : ButtonsState) (callback : bool)
    : ButtonsState :=
  {| g_config := g_config g;
     g_state := g_state g;
     g_pending_event := g_pending_event g;
     g_has_pending_event := g_has_pending_event g;
     g_callback := callback |}.

(** The three groups of assignments the loop body makes to [*state]. *)
Definition note_raw_change (state : ButtonState) (raw : bool)
    (current_ms : Z) : ButtonState :=
  {| current_state := current_state state;
     last_raw_state := raw;
     last_change_ms := current_ms;
     press_start_ms := press_start_ms state;
     press_count := press_count state;
     pending_event := pending_event state;
     release_time_ms := release_time_ms state |}.

Definition set_current_state (state : ButtonState) (debounced : bool)
    : ButtonState :=
  {| current_state := debounced;
     last_raw_state := last_raw_state state;
     last_change_ms := last_change_ms state;
     press_start_ms := press_start_ms state;
     press_count := press_count state;
     pending_event := pending_event state;
     release_time_ms := release_time_ms state |}.

(** [press_count] is a [uint8_t]: the increment wraps at 256. *)
Definition note_press (state : ButtonState) (current_ms : Z) : ButtonState :=
  {| current_state := current_state state;
     last_raw_state := last_raw_state state;
     last_change_ms := last_change_ms state;
     press_start_ms := current_ms;
     press_count := (press_count state + 1) mod 256;
     pending_event := pending_event state;
     release_time_ms := release_time_ms state |}.

Definition note_release (state : ButtonState) (current_ms : Z) : ButtonState :=
  {| current_state := current_state state;
     last_raw_state := last_raw_state state;
     last_change_ms := last_change_ms state;
     press_start_ms := press_start_ms state;
     press_count := press_count state;
     pending_event := true;
     release_time_ms := current_ms |}.

Definition reset_sequence (state : ButtonState) : ButtonState :=
  {| current_state := current_state state;
     last_raw_state := last_raw_state state;
     last_change_ms := last_change_ms state;
     press_start_ms := press_start_ms state;
     press_count := 0;
     pending_event := false;
     release_time_ms := release_time_ms state |}.

(** The debounced level the loop body computes from the raw level. *)
Definition debounce (config : ButtonConfig) (state : ButtonState)
    (raw : bool) (current_ms : Z) : ButtonState * bool :=
  let state :=
    if negb (Bool.eqb raw (last_raw_state state))
    then note_raw_change state raw current_ms
    else state in
  let debounced :=
    if debounce_ms config <=? u32 (current_ms - last_change_ms state)
    then raw
    else current_state state in
  (state, debounced).

(** The rest of the loop body: edge detection and gesture resolution.
    The result lists the gestures handed to [emit_event], in order. *)
Definition resolve (config : ButtonConfig) (state : ButtonState)
    (debounced : bool) (current_ms : Z) : ButtonState * list GestureType :=
  (* State change detection *)
  let was_pressed := current_state state in
  let state := set_current_state state debounced in
  (* Button just pressed *)
  let state :=
    if negb was_pressed && debounced then note_press state current_ms
    else state in
  (* Button just released *)
  let '(state, released) :=
    if was_pressed && negb debounced then
      let press_duration := u32 (current_ms - press_start_ms state) in
      if long_press_ms config <=? press_duration
      then (reset_sequence state, [GESTURE_LONG])
      else (note_release state current_ms, [])
    else (state, []) in
  (* Check for double press timeout *)
  let '(state, resolved) :=
    if pending_event state && negb (current_state state) then
      let since_release := u32 (current_ms - release_time_ms state) in
      if 2 <=? press_count state
      then (reset_sequence state, [GESTURE_DOUBLE])
      else if double_press_ms config <=? since_release
      then (reset_sequence state, [GESTURE_SHORT])
      else (state, [])
    else (state, []) in
  (state, released ++ resolved).

(** One iteration of the loop of [buttons_update], for one button. *)
Definition update_button (config : ButtonConfig) (state : ButtonState)
    (raw : bool) (current_ms : Z) : ButtonState * list GestureType :=
  let '(state, debounced) := debounce config state raw current_ms in
  resolve config state debounced current_ms.

(** The event [emit_event] builds from its arguments. *)
Definition event_of (b : ButtonId) (t : Z) (k : GestureType) : ButtonEvent :=
  {| button := b; gesture := k; timestamp_ms := t |}.

(** With a callback registered the event goes to the callback, which is
    outside this module; otherwise it goes to the pending register. *)
Definition emit_event (g : ButtonsState) (b : ButtonId) (k : GestureType)
    (timestamp : Z) : ButtonsState :=
  let event := event_of b timestamp k in
  if g_callback g then g
  else
    {| g_config := g_config g;
       g_state := g_state g;
       g_pending_event := Some event;
       g_has_pending_event := true;
       g_callback := g_callback g |}.

Definition set_button (g : ButtonsState) (i : nat) (state : ButtonState)
    : ButtonsState :=
  {| g_config := g_config g;
     g_state := <[i := state]> (g_state g);
     g_pending_event := g_pending_event g;
     g_has_pending_event := g_has_pending_event g;
     g_callback := g_callback g |}.

(** [raw b] tells whether the pin of button [b] reads low.  The result
    carries the return value, the new statics and the events handed to
    [emit_event] during the call, in order. *)
Definition buttons_update (g : ButtonsState) (raw : ButtonId -> bool)
    (current_ms : Z) : bool * ButtonsState * list ButtonEvent :=
  fold_left
    (fun '(event_generated, g, emitted) b =>
       let i := button_index b in
       let '(state, gestures) :=
         update_button (g_config g) (g_state g !!! i) (raw b) current_ms in
       let g :=
         fold_left (fun g k => emit_event g b k current_ms) gestures
           (set_button g i state) in
       (event_generated || negb (Nat.eqb (length gestures) 0), g,
        emitted ++ map (event_of b current_ms) gestures))
    [BUTTON_FEED; BUTTON_PET] (false, g, []).

Definition buttons_get_event (g : ButtonsState)
    : option ButtonEvent * ButtonsState :=
  if g_has_pending_event g then
    (g_pending_event g,
     {| g_config := g_config g;
        g_state := g_state g;
        g_pending_event := g_pending_event g;
        g_has_pending_event := false;
        g_callback := g_callback g |})
  else (None, g).

Definition buttons_is_pressed (g : ButtonsState) (b : ButtonId) : bool :=
  current_state (g_state g !!! button_index b).

(** One poll of the main loop: the clock and the two raw levels. *)
Record poll : Type := { now : Z; raw_level : ButtonId -> bool }.

(** A run of [buttons_update] calls; the result lists, per call, the
    events emitted by it. *)
Fixpoint run_updates (g : ButtonsState) (polls : list poll)
    : ButtonsState * list (list ButtonEvent) :=
  match polls with
  | [] => (g, [])
  | p :: rest =>
      let '(_, g', events) := buttons_update g (raw_level p) (now p) in
      let '(g'', later) := run_updates g' rest in
      (g'', events :: later)
  end.

(** The debounced level of button [b] after each call of a run. *)
Fixpoint levels (b : ButtonId) (g : ButtonsState) (polls : list poll)
    : list bool :=
  match polls with
  | [] => []
  | p :: rest =>
      let '(_, g', _) := buttons_update g (raw_level p) (now p) in
      buttons_is_pressed g' b :: levels b g' rest
  end.

Definition ButtonId_eqb (a b : ButtonId) : bool :=
  match a, b with
  | BUTTON_FEED, BUTTON_FEED | BUTTON_PET, BUTTON_PET => true
  | _, _ => false
  end.

(** The gestures a run emits for button [b], in order. *)
Definition gestures_of (b : ButtonId) (events : list (list ButtonEvent))
    : list GestureType :=
  map gesture (filter (fun ev => ButtonId_eqb (button ev) b = true)
                 (concat events)).

(** The view one button has of a run: the clock and its own raw level. *)
Definition button_view (b : ButtonId) (polls : list poll) : list (Z * bool) :=
  map (fun p => (now p, raw_level p b)) polls.

(** The loop body iterated for one button: per poll, the state it leaves
    and the gestures it emits. *)
Fixpoint button_run (config : ButtonConfig) (state : ButtonState)
    (polls : list (Z * bool)) : list (ButtonState * list GestureType) :=
  match polls with
  | [] => []
  | (t, raw) :: rest =>
      let r := update_button config state raw t in
      r :: button_run config (fst r) rest
  end.

Definition button_final (config : ButtonConfig) (state : ButtonState)
    (polls : list (Z * bool)) : ButtonState :=
  fold_left (fun s '(t, raw) => fst (update_button config s raw t)) polls state.

Definition level_of (r : ButtonState * list GestureType) : bool :=
  current_state (fst r).

(** The button is at rest: released, with no press sequence under way. *)
Definition at_rest (state : ButtonState) : Prop :=
  current_state state = false /\ press_count state = 0
  /\ pending_event state = false.

(** The button is down in a press sequence of [count] presses that
    started its current press at [start]. *)
Definition held (count : Z) (pending : bool) (start : Z)
    (state : ButtonState) : Prop :=
  current_state state = true /\ press_count state = count
  /\ pending_event state = pending /\ press_start_ms state = start.

(** The button is up after one short press released at [release], the
    gesture still unresolved. *)
Definition waiting (release : Z) (state : ButtonState) : Prop :=
  current_state state = false /\ press_count state = 1
  /\ pending_event state = true /\ release_time_ms state = release.

(** A poll with both pins at the same raw level. *)
Definition both (t : Z) (lv : bool) : poll :=
  {| now := t; raw_level := fun _ => lv |}.

(** Two sample runs on the recognizer as [setup] leaves it, polled every
    60 ms or so: a short press (down at 160, up at 280) followed 120 ms
    later by a second press, which is short in the first run (400 to
    520, the button then staying released until 1060) and long in the
    second (400 to 1020). *)
Definition fresh_buttons : ButtonsState :=
  buttons_set_callback
    (buttons_init buttons_static_init (Some buttons_config_init)) true.

Definition sample_rest0 : list poll := [both 0 false; both 100 true].
Definition sample_p1 : poll := both 160 true.
Definition sample_held1 : list poll := [both 220 false].
Definition sample_r1 : poll := both 280 false.
Definition sample_wait : list poll := [both 340 true].
Definition sample_p2 : poll := both 400 true.
Definition sample_held2 : list poll := [both 460 false].
Definition sample_r2 : poll := both 520 false.
Definition sample_idle : list poll :=
  [both 580 false; both 700 false; both 880 false; both 1060 false].
Definition sample_held2_long : list poll := [both 460 true; both 960 false].
Definition sample_r2_long : poll := both 1020 false.

End Buttons.

(* ================================================================== *)
(** ** storage.cpp: the CRC32 of a model image *)
(* ================================================================== *)

Module Storage.
Local Open Scope Z_scope.

(** The CRC32 lookup table and its flag, file-static in storage.cpp. *)
Record CrcTable : Type := {
  crc32_table : list Z;
  crc_table_initialized : bool
}.

Definition crc_static_init : CrcTable :=
  {| crc32_table := replicate 256 0; crc_table_initialized := false |}.

(** One round of the inner loop of [init_crc32_table]:
    [crc = (crc >> 1) ^ ((crc & 1) ? 0xEDB88320 : 0)]. *)
Definition crc_round (crc : Z) : Z :=
  Z.lxor (Z.shiftr crc 1) (if Z.land crc 1 =? 0 then 0 else 0xEDB88320).

Definition init_crc32_table (st : CrcTable) : CrcTable :=
  if crc_table_initialized st then st
  else
    {| crc32_table :=
         fold_left
           (fun table i => <[i := Nat.iter 8 crc_round (Z.of_nat i)]> table)
           (seq 0 256) (crc32_table st);
       crc_table_initialized := true |}.

(** The value of [data[i]]. *)
Definition byte_value (b : Byte.byte) : Z := Z.of_N (Byte.to_N b).

(** [length] is the length of [data]; the second component is the table
    as the call leaves it. *)
Definition storage_calc_crc32 (st : CrcTable) (data : list Byte.byte)
    : Z * CrcTable :=
  let st := init_crc32_table st in
  let crc :=
    fold_left
      (fun crc b =>
         Z.lxor
           (crc32_table st
              !!! Z.to_nat (Z.land (Z.lxor crc (byte_value b)) 0xFF))
           (Z.shiftr crc 8))
      data 0xFFFFFFFF in
  (Z.lxor crc 0xFFFFFFFF, st).

(** The table states a run can be in: before and after the first use. *)
Definition crc_reachable (st : CrcTable) : Prop :=
  st = crc_static_init \/ st = init_crc32_table crc_static_init.

End Storage.

(* ================================================================== *)
(** ** time_manager.cpp: the time of day *)
(* ================================================================== *)

Module TimeManager.

Local Open Scope Z_scope.

(** The file-static variables of time_manager.cpp. *)
Record TimeState : Type := {
  g_boot_time_ms : Z;      (* uint32_t, millis() at boot *)
  g_time_offset_ms : Z;    (* uint32_t, offset to add to get ms since midnight *)
  g_time_set : bool
}.

Definition time_static_init : TimeState :=
  {| g_boot_time_ms := 0; g_time_offset_ms := 0; g_time_set := false |}.

(** [millis] is the reading of the millisecond clock at the call, and
    [saved] what the "time" namespace of the non-volatile storage holds
    for "offset" and "set", if it could be opened. *)
Definition time_init (st : TimeState) (millis : Z) (saved : option (Z * bool))
    : TimeState :=
  match saved with
  | Some (offset, set) =>
      {| g_boot_time_ms := millis;
         g_time_offset_ms := offset;
         g_time_set := set |}
  | None =>
      {| g_boot_time_ms := millis;
         g_time_offset_ms := g_time_offset_ms st;
         g_time_set := g_time_set st |}
  end.

(** [hour] and [minute] are [uint8_t]; the closing [time_save] copies
    the two statics to the non-volatile storage and leaves them as they
    are. *)
Definition time_set (st : TimeState) (millis : Z) (hour minute : Z)
    : TimeState :=
  (* Calculate ms since midnight for the given time *)
  let target_ms := u32 (u32 (hour * 3600000) + u32 (minute * 60000)) in
  (* Current "device time" ms since midnight (wrapping every 24h) *)
  let elapsed_ms := u32 (millis - g_boot_time_ms st) in
  let device_time_ms := elapsed_ms mod 86400000 in
  (* Calculate offset needed *)
  let offset :=
    if device_time_ms <=? target_ms
    then u32 (target_ms - device_time_ms)
    else u32 (u32 (86400000 - device_time_ms) + target_ms) in
  {| g_boot_time_ms := g_boot_time_ms st;
     g_time_offset_ms := offset;
     g_time_set := true |}.

(** The pair ([*hour], [*minute]). *)
Definition time_get (st : TimeState) (millis : Z) : Z * Z :=
  let elapsed_ms := u32 (millis - g_boot_time_ms st) in
  let current_ms := u32 (elapsed_ms + g_time_offset_ms st) mod 86400000 in
  let total_minutes := current_ms / 60000 in
  (((total_minutes / 60) mod 24) mod 256, (total_minutes mod 60) mod 256).

Definition time_is_night (st : TimeState) (millis : Z) : bool :=
  let '(hour, minute) := time_get st millis in
  (* Night: 22:00 - 07:00 *)
  (22 <=? hour) || (hour <? 7).

End TimeManager.

(* ================================================================== *)
(** ** pet_identity.cpp: the identity derived from the MAC address *)
(* ================================================================== *)

Module PetIdentity.
Import String.StringSyntax.
Local Open Scope string_scope.
Local Open Scope Z_scope.

(** [PET_NAME_MAX_LEN] of pet_identity.h. *)
Definition PET_NAME_MAX_LEN : nat := 24.

(** The identity structure of pet_identity.h; the strings without their
    terminators. *)
Record PetIdentity : Type := {
  hwid : String.string;       (* char hwid[13], 12 hex chars *)
  name : String.string;       (* char name[PET_NAME_MAX_LEN + 1] *)
  primary_hue : Z;            (* uint8_t *)
  secondary_hue : Z;          (* uint8_t *)
  pattern_seed : Z            (* uint8_t *)
}.

(** The file-static variables of pet_identity.cpp. *)
Record IdentityState : Type := {
  g_identity : PetIdentity;
  g_initialized : bool
}.

Definition identity_static_init : IdentityState :=
  {| g_identity :=
       {| hwid := ""; name := ""; primary_hue := 0;
          secondary_hue := 0; pattern_seed := 0 |};
     g_initialized := false |}.

Definition DEFAULT_NAMES : list String.string :=
  [ "Pixel"; "Byte"; "Chip"; "Spark"; "Glitch";
    "Neon"; "Pulse"; "Echo"; "Flux"; "Nova";
    "Bit"; "Core"; "Sync"; "Volt"; "Zen" ].

Definition NUM_DEFAULT_NAMES : Z := 15.

(** HSV to RGB conversion helper; every variable is a [uint8_t]. *)
Definition hsv_to_rgb (h s v : Z) : Z * Z * Z :=
  if s =? 0 then (v, v, v)
  else
    let region := (h / 43) mod 256 in
    let remainder := ((h - region * 43) * 6) mod 256 in
    let p := Z.shiftr (v * (255 - s)) 8 mod 256 in
    let q := Z.shiftr (v * (255 - Z.shiftr (s * remainder) 8)) 8 mod 256 in
    let t :=
      Z.shiftr (v * (255 - Z.shiftr (s * (255 - remainder)) 8)) 8 mod 256 in
    match region with
    | 0 => (v, t, p)
    | 1 => (q, v, p)
    | 2 => (p, v, t)
    | 3 => (p, q, v)
    | 4 => (t, p, v)
    | _ => (v, p, q)
    end.

(** One byte as [%02X] prints it. *)
Definition hex_digit (d : Z) : Ascii.ascii :=
  Ascii.ascii_of_nat
    (Z.to_nat (if d <? 10 then 48 + d else 55 + d)).

Definition hex_byte (m : Z) : String.string :=
  String.String (hex_digit (m / 16))
    (String.String (hex_digit (m mod 16)) String.EmptyString).

(** The name [strncpy] leaves in [name] once the terminator is set. *)
Definition copy_name (s : String.string) : String.string :=
  String.substring 0 PET_NAME_MAX_LEN s.

(** [mac] holds the six bytes [WiFi.macAddress] returns, and
    [saved_name] the string stored under "name" in the "pet_id"
    namespace when that namespace can be opened.  [mac_hash] is the
    value of the [uint32_t]: with bytes below 256 it fits 32 bits. *)
Definition pet_identity_init (st : IdentityState) (mac : list Z)
    (saved_name : option String.string) : IdentityState :=
  if g_initialized st then st
  else
    let m i := mac !!! i in
    (* Format as hex string *)
    let hwid :=
      fold_right (fun i s => String.append (hex_byte (m i)) s)
        String.EmptyString (seq 0 6) in
    (* Generate unique hues from MAC address *)
    let mac_hash :=
      Z.lor (Z.lor (Z.lor (Z.shiftl (m 0%nat) 24) (Z.shiftl (m 1%nat) 16))
               (Z.shiftl (m 2%nat) 8))
        (m 3%nat) in
    let mac_hash := Z.lxor mac_hash (Z.lor (Z.shiftl (m 4%nat) 8) (m 5%nat)) in
    let primary_hue := Z.land mac_hash 0xFF in
    let secondary_hue := Z.land (Z.shiftr mac_hash 8) 0xFF in
    let pattern_seed := Z.land (Z.shiftr mac_hash 16) 0xFF in
    (* Make sure secondary hue is different enough from primary *)
    let hue_diff := Z.abs (secondary_hue - primary_hue) in
    let secondary_hue :=
      if (hue_diff <? 40) || (216 <? hue_diff)
      then (primary_hue + 85) mod 256
      else secondary_hue in
    (* Load name from NVS, or generate default name from pattern seed *)
    let default_name :=
      copy_name
        (nth (Z.to_nat (pattern_seed mod NUM_DEFAULT_NAMES)) DEFAULT_NAMES
           "") in
    let name :=
      match saved_name with
      | Some saved =>
          if (0 <? String.length saved)%nat then copy_name saved
          else default_name
      | None => default_name
      end in
    {| g_identity :=
         {| hwid := hwid; name := name; primary_hue := primary_hue;
            secondary_hue := secondary_hue; pattern_seed := pattern_seed |};
       g_initialized := true |}.

(** The two colours, primary first. *)
Definition pet_identity_get_colors (st : IdentityState)
    : (Z * Z * Z) * (Z * Z * Z) :=
  (* Convert HSV to RGB with good saturation and brightness *)
  (hsv_to_rgb (primary_hue (g_identity st)) 200 220,
   hsv_to_rgb (secondary_hue (g_identity st)) 180 200).

Definition pet_identity_get_pattern (st : IdentityState) : Z :=
  pattern_seed (g_identity st).

End PetIdentity.

(* ================================================================== *)
(** * Facts *)
(* ================================================================== *)

(** ** binary32: operations on bounded operands stay finite *)

Section F32Facts.

Local Open Scope Z_scope.

Lemma fexp_fx e : fexp prec emax e = fx e.
Proof. reflexivity. Qed.

Lemma digits2_pos_size p : digits2_pos p = Pos.size p.
Proof. induction p; simpl; congruence. Qed.

Lemma Zdigits2_log2 m : 0 < m -> Zdigits2 m = Z.log2 m + 1.
Proof.
  destruct m as [|p|p]; try lia. intros _.
  destruct p; simpl; rewrite ?digits2_pos_size, ?Pos2Z.inj_succ; lia.
Qed.

Lemma Zdigits2_bounds m : 0 < m -> 2 ^ (Zdigits2 m - 1) <= m < 2 ^ Zdigits2 m.
Proof.
  intros H. rewrite Zdigits2_log2 by lia.
  replace (Z.log2 m + 1 - 1) with (Z.log2 m) by lia.
  change (Z.log2 m + 1) with (Z.succ (Z.log2 m)).
  apply Z.log2_spec; lia.
Qed.

Lemma Zdigits2_nonneg m : 0 <= Zdigits2 m.
Proof. destruct m; simpl; lia. Qed.

Lemma Zdigits2_pos m : 0 < m -> 0 < Zdigits2 m.
Proof. destruct m; simpl; lia. Qed.

Lemma Zdigits2_lt_pow m k : 0 <= m < 2 ^ k -> 0 <= k -> Zdigits2 m <= k.
Proof.
  intros [H0 H1] Hk. destruct (Z.eq_dec m 0) as [->|Hm]; [simpl; lia|].
  rewrite Zdigits2_log2 by lia.
  assert (Z.log2 m < k) by (apply Z.log2_lt_pow2; lia). lia.
Qed.

Lemma Zdigits2_ge_pow m k : 2 ^ k <= m -> 0 <= k -> k + 1 <= Zdigits2 m.
Proof.
  intros H Hk. assert (0 < 2 ^ k) by (apply Z.pow_pos_nonneg; lia).
  rewrite Zdigits2_log2 by lia.
  assert (k <= Z.log2 m) by (apply Z.log2_le_pow2; lia). lia.
Qed.

Lemma Zdigits2_mono a b : 0 <= a <= b -> Zdigits2 a <= Zdigits2 b.
Proof.
  intros [Ha Hab]. destruct (Z.eq_dec a 0) as [->|Hn]; [apply Zdigits2_nonneg|].
  rewrite !Zdigits2_log2 by lia.
  assert (Z.log2 a <= Z.log2 b) by (apply Z.log2_le_mono; lia). lia.
Qed.

Lemma Zdigits2_succ m : 0 <= m -> Zdigits2 (m + 1) <= Zdigits2 m + 1.
Proof.
  intros H. destruct (Z.eq_dec m 0) as [->|Hn]; [simpl; lia|].
  apply Zdigits2_lt_pow; [|pose proof (Zdigits2_nonneg m); lia].
  pose proof (Zdigits2_bounds m ltac:(lia)) as [_ Hb].
  rewrite Z.pow_add_r by (pose proof (Zdigits2_nonneg m); lia). lia.
Qed.

Lemma Zdigits2_div_pow2 m n :
  0 <= m -> 0 <= n -> Zdigits2 (m / 2 ^ n) = Z.max 0 (Zdigits2 m - n).
Proof.
  intros Hm Hn. destruct (Z.eq_dec m 0) as [->|Hz].
  { rewrite Z.div_0_l by (apply Z.pow_nonzero; lia). simpl. lia. }
  pose proof (Zdigits2_bounds m ltac:(lia)) as [Hlo Hhi].
  pose proof (Zdigits2_pos m ltac:(lia)) as Hd.
  assert (0 < 2 ^ n) by (apply Z.pow_pos_nonneg; lia).
  destruct (Z_lt_le_dec n (Zdigits2 m)) as [Hlt|Hge].
  - assert (E : 2 ^ (Zdigits2 m - 1) = 2 ^ (Zdigits2 m - 1 - n) * 2 ^ n)
      by (rewrite <- Z.pow_add_r by lia; f_equal; lia).
    assert (E2 : 2 ^ Zdigits2 m = 2 ^ (Zdigits2 m - n) * 2 ^ n)
      by (rewrite <- Z.pow_add_r by lia; f_equal; lia).
    assert (2 ^ (Zdigits2 m - 1 - n) <= m / 2 ^ n)
      by (apply Z.div_le_lower_bound; lia).
    assert (m / 2 ^ n < 2 ^ (Zdigits2 m - n))
      by (apply Z.div_lt_upper_bound; lia).
    assert (Zdigits2 (m / 2 ^ n) <= Zdigits2 m - n)
      by (apply Zdigits2_lt_pow; [split; [apply Z.div_pos|]|]; lia).
    assert (Zdigits2 m - 1 - n + 1 <= Zdigits2 (m / 2 ^ n))
      by (apply Zdigits2_ge_pow; lia).
    lia.
  - assert (2 ^ Zdigits2 m <= 2 ^ n) by (apply Z.pow_le_mono_r; lia).
    rewrite Z.div_small by lia. simpl. lia.
Qed.

Lemma Zdigits2_mul_pow2 m n :
  0 < m -> 0 <= n -> Zdigits2 (m * 2 ^ n) = Zdigits2 m + n.
Proof.
  intros Hm Hn.
  pose proof (Zdigits2_bounds m ltac:(lia)) as [Hlo Hhi].
  pose proof (Zdigits2_pos m ltac:(lia)) as Hd.
  assert (0 < 2 ^ n) by (apply Z.pow_pos_nonneg; lia).
  assert (Zdigits2 (m * 2 ^ n) <= Zdigits2 m + n).
  { apply Zdigits2_lt_pow; [|lia]. rewrite Z.pow_add_r by lia. nia. }
  assert (Zdigits2 m - 1 + n + 1 <= Zdigits2 (m * 2 ^ n)).
  { apply Zdigits2_ge_pow; [|lia]. rewrite Z.pow_add_r by lia. nia. }
  lia.
Qed.

Lemma shr_1_m mrs : 0 <= shr_m mrs -> shr_m (shr_1 mrs) = shr_m mrs / 2.
Proof.
  destruct mrs as [m r s]; simpl. intros Hm.
  destruct m as [|[p|p|]|p]; simpl shr_m; try lia; try reflexivity.
  - apply Z.div_unique with 1; lia.
  - apply Z.div_unique with 0; lia.
Qed.

Lemma pow2_xO p : 2 ^ Zpos p~0 = 2 ^ Zpos p * 2 ^ Zpos p.
Proof. rewrite <- Z.pow_add_r by lia. f_equal. lia. Qed.

Lemma pow2_xI p : 2 ^ Zpos p~1 = 2 * (2 ^ Zpos p * 2 ^ Zpos p).
Proof.
  rewrite <- Z.pow_add_r by lia.
  replace (Zpos p~1) with (Z.succ (Zpos p + Zpos p)) by lia.
  rewrite Z.pow_succ_r by lia. reflexivity.
Qed.

Lemma iter_shr_1_m p : forall mrs,
  0 <= shr_m mrs -> shr_m (iter_pos shr_1 p mrs) = shr_m mrs / 2 ^ Zpos p.
Proof.
  induction p as [p IH|p IH|]; intros mrs Hm; simpl iter_pos.
  - assert (H1 : 0 <= shr_m (shr_1 mrs)) by (rewrite shr_1_m by lia; apply Z.div_pos; lia).
    assert (0 < 2 ^ Zpos p) by (apply Z.pow_pos_nonneg; lia).
    assert (H2 : 0 <= shr_m (iter_pos shr_1 p (shr_1 mrs)))
      by (rewrite IH by lia; apply Z.div_pos; lia).
    rewrite IH, IH, shr_1_m by lia.
    rewrite !Z.div_div by lia. rewrite pow2_xI. f_equal; lia.
  - assert (0 < 2 ^ Zpos p) by (apply Z.pow_pos_nonneg; lia).
    assert (H2 : 0 <= shr_m (iter_pos shr_1 p mrs))
      by (rewrite IH by lia; apply Z.div_pos; lia).
    rewrite IH, IH by lia.
    rewrite !Z.div_div by lia. rewrite pow2_xO. reflexivity.
  - rewrite shr_1_m by lia. reflexivity.
Qed.

Lemma shr_record_of_loc_m m l : shr_m (shr_record_of_loc m l) = m.
Proof. destruct l as [|[]]; reflexivity. Qed.

Lemma shr_fexp_spec m e l :
  0 <= m -> e <= fx (Zdigits2 m + e) ->
  exists mrs, shr_fexp prec emax m e l = (mrs, fx (Zdigits2 m + e))
    /\ shr_m mrs = m / 2 ^ (fx (Zdigits2 m + e) - e).
Proof.
  intros Hm He. unfold shr_fexp, shr. rewrite fexp_fx.
  destruct (fx (Zdigits2 m + e) - e) as [|p|p] eqn:E; try lia.
  - exists (shr_record_of_loc m l). split; [f_equal; lia|].
    rewrite shr_record_of_loc_m. rewrite Z.div_1_r. reflexivity.
  - eexists; split; [f_equal; lia|].
    rewrite iter_shr_1_m; rewrite shr_record_of_loc_m; auto.
Qed.

Lemma round_nearest_even_bounds m l :
  m <= round_nearest_even m l <= m + 1.
Proof.
  destruct l as [|[]]; simpl; try lia. destruct (Z.even m); lia.
Qed.


Lemma binary_round_aux_fin s m e l k :
  0 <= m -> e <= fx (Zdigits2 m + e) -> Zdigits2 m + e <= k -> -149 <= k <= 127 ->
  fin (k + 1) (binary_round_aux prec emax s m e l).
Proof.
  intros Hm He Hk Hr. unfold binary_round_aux.
  destruct (shr_fexp_spec m e l Hm He) as (mrs1 & E1 & M1). rewrite E1.
  set (e1 := fx (Zdigits2 m + e)) in *.
  assert (P1 : 0 < 2 ^ (e1 - e)) by (apply Z.pow_pos_nonneg; lia).
  assert (N1 : 0 <= shr_m mrs1) by (rewrite M1; apply Z.div_pos; lia).
  assert (D1 : Zdigits2 (shr_m mrs1) = Z.max 0 (Zdigits2 m - (e1 - e)))
    by (rewrite M1; apply Zdigits2_div_pow2; lia).
  pose proof (round_nearest_even_bounds (shr_m mrs1) (loc_of_shr_record mrs1)) as R.
  set (m2 := round_nearest_even (shr_m mrs1) (loc_of_shr_record mrs1)) in *.
  assert (D2 : Zdigits2 (shr_m mrs1) <= Zdigits2 m2 <= Zdigits2 (shr_m mrs1) + 1).
  { split; [apply Zdigits2_mono; lia|].
    transitivity (Zdigits2 (shr_m mrs1 + 1)); [apply Zdigits2_mono; lia|].
    apply Zdigits2_succ; lia. }
  assert (He2 : e1 <= fx (Zdigits2 m2 + e1)) by (unfold e1, fx in *; lia).
  destruct (shr_fexp_spec m2 e1 loc_Exact ltac:(lia) He2) as (mrs3 & E3 & M3).
  rewrite E3. set (e3 := fx (Zdigits2 m2 + e1)) in *.
  assert (P3 : 0 < 2 ^ (e3 - e1)) by (apply Z.pow_pos_nonneg; lia).
  assert (N3 : 0 <= shr_m mrs3) by (rewrite M3; apply Z.div_pos; lia).
  assert (D3 : Zdigits2 (shr_m mrs3) = Z.max 0 (Zdigits2 m2 - (e3 - e1)))
    by (rewrite M3; apply Zdigits2_div_pow2; lia).
  destruct (shr_m mrs3) as [|p|p] eqn:E; [exact I| |lia].
  assert (L : e3 <= 104) by (unfold e3, e1, fx in *; lia).
  change (emax - prec) with 104.
  apply Z.leb_le in L. rewrite L. unfold fin. split.
  - unfold bounded, canonical_mantissa. rewrite fexp_fx.
    change (emax - prec) with 104. rewrite L, andb_true_r.
    apply Z.eqb_eq. change (Zpos (digits2_pos p)) with (Zdigits2 (Zpos p)).
    unfold e3, e1, fx in *; lia.
  - unfold e3, e1, fx in *; lia.
Qed.

(** Without a bound on the operand the result may overflow to an
    infinity, but it is a number. *)
Lemma binary_round_aux_num s m e l :
  0 <= m -> e <= fx (Zdigits2 m + e) ->
  num (binary_round_aux prec emax s m e l).
Proof.
  intros Hm He. unfold binary_round_aux.
  destruct (shr_fexp_spec m e l Hm He) as (mrs1 & E1 & M1). rewrite E1.
  set (e1 := fx (Zdigits2 m + e)) in *.
  assert (P1 : 0 < 2 ^ (e1 - e)) by (apply Z.pow_pos_nonneg; lia).
  assert (N1 : 0 <= shr_m mrs1) by (rewrite M1; apply Z.div_pos; lia).
  assert (D1 : Zdigits2 (shr_m mrs1) = Z.max 0 (Zdigits2 m - (e1 - e)))
    by (rewrite M1; apply Zdigits2_div_pow2; lia).
  pose proof (round_nearest_even_bounds (shr_m mrs1) (loc_of_shr_record mrs1)) as R.
  set (m2 := round_nearest_even (shr_m mrs1) (loc_of_shr_record mrs1)) in *.
  assert (D2 : Zdigits2 (shr_m mrs1) <= Zdigits2 m2)
    by (apply Zdigits2_mono; lia).
  assert (He2 : e1 <= fx (Zdigits2 m2 + e1)) by (unfold e1, fx in *; lia).
  destruct (shr_fexp_spec m2 e1 loc_Exact ltac:(lia) He2) as (mrs3 & E3 & M3).
  rewrite E3. set (e3 := fx (Zdigits2 m2 + e1)) in *.
  assert (P3 : 0 < 2 ^ (e3 - e1)) by (apply Z.pow_pos_nonneg; lia).
  assert (N3 : 0 <= shr_m mrs3) by (rewrite M3; apply Z.div_pos; lia).
  assert (D3 : Zdigits2 (shr_m mrs3) = Z.max 0 (Zdigits2 m2 - (e3 - e1)))
    by (rewrite M3; apply Zdigits2_div_pow2; lia).
  destruct (shr_m mrs3) as [|p|p] eqn:E; [exact I| |lia].
  change (emax - prec) with 104.
  destruct (e3 <=? 104) eqn:L; [|exact I].
  unfold num, bounded, canonical_mantissa. rewrite fexp_fx.
  change (emax - prec) with 104. rewrite L, andb_true_r.
  apply Z.eqb_eq. change (Zpos (digits2_pos p)) with (Zdigits2 (Zpos p)).
  unfold e3, e1, fx in *; lia.
Qed.

Lemma fin_num k x : fin k x -> num x.
Proof. destruct x; unfold fin, num; tauto. Qed.

Lemma fin_mono a b x : fin a x -> a <= b -> fin b x.
Proof. destruct x; unfold fin; intuition lia. Qed.

Lemma bounded_canonical m e :
  bounded prec emax m e = true -> fx (Zdigits2 (Zpos m) + e) = e /\ e <= 104.
Proof.
  unfold bounded, canonical_mantissa. rewrite fexp_fx. intros H.
  apply andb_true_iff in H. destruct H as [H1 H2].
  apply Z.eqb_eq in H1. apply Z.leb_le in H2. split; [exact H1|exact H2].
Qed.

Lemma Zdigits2_mul a b :
  0 < a -> 0 < b ->
  Zdigits2 a + Zdigits2 b - 1 <= Zdigits2 (a * b) <= Zdigits2 a + Zdigits2 b.
Proof.
  intros Ha Hb.
  pose proof (Zdigits2_bounds a Ha) as [La Ua].
  pose proof (Zdigits2_bounds b Hb) as [Lb Ub].
  pose proof (Zdigits2_pos a Ha). pose proof (Zdigits2_pos b Hb).
  assert (0 < 2 ^ (Zdigits2 a - 1)) by (apply Z.pow_pos_nonneg; lia).
  assert (0 < 2 ^ (Zdigits2 b - 1)) by (apply Z.pow_pos_nonneg; lia).
  split.
  - assert (Zdigits2 a - 1 + (Zdigits2 b - 1) + 1 <= Zdigits2 (a * b)); [|lia].
    apply Zdigits2_ge_pow; [|lia]. rewrite Z.pow_add_r by lia. nia.
  - apply Zdigits2_lt_pow; [|lia]. rewrite Z.pow_add_r by lia. nia.
Qed.


Lemma side_spec lo hi : side lo hi = true -> -149 <= lo /\ hi <= 127.
Proof.
  unfold side. intros H. apply andb_true_iff in H. destruct H as [H1 H2].
  apply Z.leb_le in H1. apply Z.leb_le in H2. lia.
Qed.

Lemma fmul_fin a b x y :
  fin a x -> fin b y -> side (a + b) (a + b) = true ->
  fin (a + b + 1) (fmul x y).
Proof.
  intros Hx Hy Hs. apply side_spec in Hs.
  destruct x as [sx|sx| |sx mx ex], y as [sy|sy| |sy my ey];
    unfold fin in Hx, Hy; try contradiction; try exact I.
  destruct Hx as [Bx Kx], Hy as [By Ky].
  apply bounded_canonical in Bx, By. destruct Bx as [Cx Lx], By as [Cy Ly].
  unfold fmul, SFmul.
  pose proof (Zdigits2_mul (Zpos mx) (Zpos my) ltac:(lia) ltac:(lia)) as D.
  pose proof (Zdigits2_pos (Zpos mx) ltac:(lia)).
  pose proof (Zdigits2_pos (Zpos my) ltac:(lia)).
  rewrite <- Pos2Z.inj_mul in D.
  apply binary_round_aux_fin; unfold fx in *; lia.
Qed.

Lemma Zpos_iter_xO m d : Zpos (Pos.iter xO m d) = Zpos m * 2 ^ Zpos d.
Proof.
  induction d as [|d IH] using Pos.peano_ind.
  - simpl. lia.
  - rewrite Pos.iter_succ, Pos2Z.inj_xO, IH, Pos2Z.inj_succ, Z.pow_succ_r by lia. lia.
Qed.

Lemma shl_align_fst mx ex ez :
  ez <= ex -> Zpos (fst (shl_align mx ex ez)) = Zpos mx * 2 ^ (ex - ez).
Proof.
  intros H. unfold shl_align.
  destruct (ez - ex) as [|p|p] eqn:E; try lia; simpl fst.
  - replace (ex - ez) with 0 by lia. lia.
  - rewrite Zpos_iter_xO. f_equal. f_equal. lia.
Qed.

Lemma binary_round_fin s m e k :
  Zdigits2 (Zpos m) + e <= k -> side k k = true ->
  fin (k + 1) (binary_round prec emax s m e).
Proof.
  intros Hk Hs. apply side_spec in Hs.
  unfold binary_round, shl_align. rewrite fexp_fx.
  change (Zpos (digits2_pos m)) with (Zdigits2 (Zpos m)).
  pose proof (Zdigits2_pos (Zpos m) ltac:(lia)) as Hd.
  destruct (fx (Zdigits2 (Zpos m) + e) - e) as [|p|p] eqn:E.
  - apply binary_round_aux_fin; unfold fx in *; lia.
  - apply binary_round_aux_fin; unfold fx in *; lia.
  - assert (D : Zdigits2 (Zpos (Pos.iter xO m p)) = Zdigits2 (Zpos m) + Zpos p).
    { rewrite Zpos_iter_xO. apply Zdigits2_mul_pow2; lia. }
    apply binary_round_aux_fin; rewrite ?D; unfold fx in *; lia.
Qed.

Lemma binary_normalize_fin m e sz k :
  Zdigits2 m + e <= k -> side k k = true ->
  fin (k + 1) (binary_normalize prec emax m e sz).
Proof.
  intros Hk Hs. destruct m as [|p|p]; simpl binary_normalize.
  - exact I.
  - apply binary_round_fin; assumption.
  - apply binary_round_fin; assumption.
Qed.

Lemma binary_round_num s m e : num (binary_round prec emax s m e).
Proof.
  unfold binary_round, shl_align. rewrite fexp_fx.
  change (Zpos (digits2_pos m)) with (Zdigits2 (Zpos m)).
  pose proof (Zdigits2_pos (Zpos m) ltac:(lia)) as Hd.
  destruct (fx (Zdigits2 (Zpos m) + e) - e) as [|p|p] eqn:E.
  - apply binary_round_aux_num; unfold fx in *; lia.
  - apply binary_round_aux_num; unfold fx in *; lia.
  - assert (D : Zdigits2 (Zpos (Pos.iter xO m p)) = Zdigits2 (Zpos m) + Zpos p).
    { rewrite Zpos_iter_xO. apply Zdigits2_mul_pow2; lia. }
    apply binary_round_aux_num; rewrite ?D; unfold fx in *; lia.
Qed.

Lemma binary_normalize_num m e sz : num (binary_normalize prec emax m e sz).
Proof.
  destruct m as [|p|p]; simpl binary_normalize;
    [exact I|apply binary_round_num|apply binary_round_num].
Qed.

(** A number times a non-zero finite constant is a number. *)
Lemma fmul_num_r x c : num x -> nzb c = true -> num (fmul x c).
Proof.
  intros Hx Hc.
  destruct c as [sc|sc| |sc mc ec]; simpl nzb in Hc; try discriminate.
  destruct x as [sx|sx| |sx mx ex]; unfold num in Hx; try contradiction;
    try exact I.
  apply bounded_canonical in Hx, Hc. destruct Hx as [Cx Lx], Hc as [Cc Lc].
  unfold fmul, SFmul.
  pose proof (Zdigits2_mul (Zpos mx) (Zpos mc) ltac:(lia) ltac:(lia)) as D.
  pose proof (Zdigits2_pos (Zpos mx) ltac:(lia)).
  pose proof (Zdigits2_pos (Zpos mc) ltac:(lia)).
  rewrite <- Pos2Z.inj_mul in D.
  apply binary_round_aux_num; unfold fx in *; lia.
Qed.

Lemma fmul_num_l c x : nzb c = true -> num x -> num (fmul c x).
Proof.
  intros Hc Hx.
  destruct c as [sc|sc| |sc mc ec]; simpl nzb in Hc; try discriminate.
  destruct x as [sx|sx| |sx mx ex]; unfold num in Hx; try contradiction;
    try exact I.
  apply bounded_canonical in Hx, Hc. destruct Hx as [Cx Lx], Hc as [Cc Lc].
  unfold fmul, SFmul.
  pose proof (Zdigits2_mul (Zpos mc) (Zpos mx) ltac:(lia) ltac:(lia)) as D.
  pose proof (Zdigits2_pos (Zpos mx) ltac:(lia)).
  pose proof (Zdigits2_pos (Zpos mc) ltac:(lia)).
  rewrite <- Pos2Z.inj_mul in D.
  apply binary_round_aux_num; unfold fx in *; lia.
Qed.

(** A finite number plus or minus a number is a number. *)
Lemma fsub_fin_num a x y : fin a x -> num y -> num (fsub x y).
Proof.
  intros Hx Hy.
  destruct x as [sx|sx| |sx mx ex], y as [sy|sy| |sy my ey];
    unfold fin in Hx; unfold num in Hy; try contradiction;
    unfold fsub, SFsub; try exact I.
  - destruct sx, sy; exact I.
  - exact Hy.
  - apply Hx.
  - apply binary_normalize_num.
Qed.

Lemma fadd_num_fin b x y : num x -> fin b y -> num (fadd x y).
Proof.
  intros Hx Hy.
  destruct x as [sx|sx| |sx mx ex], y as [sy|sy| |sy my ey];
    unfold num in Hx; unfold fin in Hy; try contradiction;
    unfold fadd, SFadd; try exact I.
  - destruct sx, sy; exact I.
  - apply Hy.
  - exact Hx.
  - apply binary_normalize_num.
Qed.

Lemma Zdigits2_abs m : Zdigits2 m = Zdigits2 (Z.abs m).
Proof. destruct m; reflexivity. Qed.

Lemma add_aligned_digits sx mx ex sy my ey a b (opp : bool) :
  Zdigits2 (Zpos mx) + ex <= a -> Zdigits2 (Zpos my) + ey <= b ->
  let ez := Z.min ex ey in
  let vx := cond_Zopp sx (Zpos (fst (shl_align mx ex ez))) in
  let vy := cond_Zopp sy (Zpos (fst (shl_align my ey ez))) in
  Zdigits2 (if opp then vx - vy else vx + vy) + ez <= Z.max a b + 1.
Proof.
  intros Ha Hb ez vx vy.
  pose proof (shl_align_fst mx ex ez ltac:(unfold ez; lia)) as Ex.
  pose proof (shl_align_fst my ey ez ltac:(unfold ez; lia)) as Ey.
  pose proof (Zdigits2_bounds (Zpos mx) ltac:(lia)) as [_ Ux].
  pose proof (Zdigits2_bounds (Zpos my) ltac:(lia)) as [_ Uy].
  pose proof (Zdigits2_pos (Zpos mx) ltac:(lia)).
  pose proof (Zdigits2_pos (Zpos my) ltac:(lia)).
  set (K := Z.max (Zdigits2 (Zpos mx) + ex) (Zdigits2 (Zpos my) + ey) - ez).
  assert (PX : 0 < 2 ^ (ex - ez)) by (apply Z.pow_pos_nonneg; unfold ez; lia).
  assert (PY : 0 < 2 ^ (ey - ez)) by (apply Z.pow_pos_nonneg; unfold ez; lia).
  assert (BX : Zpos (fst (shl_align mx ex ez)) < 2 ^ K).
  { rewrite Ex. apply Z.lt_le_trans with (2 ^ Zdigits2 (Zpos mx) * 2 ^ (ex - ez)); [nia|].
    rewrite <- Z.pow_add_r by (unfold ez; lia).
    apply Z.pow_le_mono_r; unfold K, ez; lia. }
  assert (BY : Zpos (fst (shl_align my ey ez)) < 2 ^ K).
  { rewrite Ey. apply Z.lt_le_trans with (2 ^ Zdigits2 (Zpos my) * 2 ^ (ey - ez)); [nia|].
    rewrite <- Z.pow_add_r by (unfold ez; lia).
    apply Z.pow_le_mono_r; unfold K, ez; lia. }
  assert (HK : 0 <= K) by (unfold K, ez; lia).
  assert (Zdigits2 (if opp then vx - vy else vx + vy) <= K + 1); [|unfold K in *; lia].
  rewrite Zdigits2_abs. apply Zdigits2_lt_pow; [|lia].
  rewrite Z.pow_add_r by lia. change (2 ^ 1) with 2.
  unfold vx, vy, cond_Zopp. destruct opp, sx, sy; lia.
Qed.

Lemma fadd_fin a b x y :
  fin a x -> fin b y -> side (Z.max a b + 1) (Z.max a b + 1) = true ->
  fin (Z.max a b + 2) (fadd x y).
Proof.
  intros Hx Hy Hs.
  destruct x as [sx|sx| |sx mx ex], y as [sy|sy| |sy my ey];
    unfold fin in Hx, Hy; try contradiction.
  - destruct sx, sy; exact I.
  - unfold fadd, SFadd, fin. intuition lia.
  - unfold fadd, SFadd, fin. intuition lia.
  - destruct Hx as [Bx Kx], Hy as [By Ky]. unfold fadd, SFadd.
    replace (Z.max a b + 2) with (Z.max a b + 1 + 1) by lia.
    apply binary_normalize_fin; [|assumption].
    apply (add_aligned_digits sx mx ex sy my ey a b false); assumption.
Qed.

Lemma fsub_fin a b x y :
  fin a x -> fin b y -> side (Z.max a b + 1) (Z.max a b + 1) = true ->
  fin (Z.max a b + 2) (fsub x y).
Proof.
  intros Hx Hy Hs.
  destruct x as [sx|sx| |sx mx ex], y as [sy|sy| |sy my ey];
    unfold fin in Hx, Hy; try contradiction.
  - destruct sx, sy; exact I.
  - unfold fsub, SFsub, fin. intuition lia.
  - unfold fsub, SFsub, fin. intuition lia.
  - destruct Hx as [Bx Kx], Hy as [By Ky]. unfold fsub, SFsub.
    replace (Z.max a b + 2) with (Z.max a b + 1 + 1) by lia.
    apply binary_normalize_fin; [|assumption].
    apply (add_aligned_digits sx mx ex sy my ey a b true); assumption.
Qed.

Lemma fneg_fin k x : fin k x -> fin k (fneg x).
Proof. destruct x; simpl; auto. Qed.

Lemma of_Z_fin n : 0 <= n < 2 ^ 32 -> fin 33 (of_Z n).
Proof.
  intros H. unfold of_Z. change 33 with (32 + 1).
  apply binary_normalize_fin; [|reflexivity].
  assert (Zdigits2 n <= 32) by (apply Zdigits2_lt_pow; lia). lia.
Qed.




Lemma fin_eval x : finb x = true -> fin (mag x) x.
Proof.
  destruct x; simpl finb; intros H; try discriminate; unfold fin, mag.
  - exact I.
  - split; [exact H|lia].
Qed.

Lemma fdiv_fin a x y :
  fin a x -> nzb y = true ->
  side (a - mag y + 1) (a - mag y + 1) = true ->
  fin (a - mag y + 2) (fdiv x y).
Proof.
  intros Hx Hy Hs. apply side_spec in Hs.
  destruct y as [sy|sy| |sy my ey]; simpl nzb in Hy; try discriminate.
  unfold mag in *.
  destruct x as [sx|sx| |sx mx ex]; unfold fin in Hx; try contradiction.
  { exact I. }
  destruct Hx as [Bx Kx]. unfold fdiv, SFdiv, SFdiv_core_binary.
  rewrite fexp_fx.
  set (d1 := Zdigits2 (Zpos mx)) in *. set (d2 := Zdigits2 (Zpos my)) in *.
  set (e' := Z.min (fx (d1 + ex - (d2 + ey))) (ex - ey)).
  set (s := ex - ey - e').
  assert (Hs0 : 0 <= s) by (unfold s, e'; lia).
  set (m' := match s with
             | Zpos _ => Z.shiftl (Zpos mx) s
             | Z0 => Zpos mx
             | Zneg _ => 0
             end).
  assert (Em : m' = Zpos mx * 2 ^ s).
  { unfold m'. destruct s eqn:E; try lia.
    rewrite Z.shiftl_mul_pow2 by lia. reflexivity. }
  clearbody m'.
  destruct (Z.div_eucl m' (Zpos my)) as [q r] eqn:E.
  assert (Eq : q = m' / Zpos my) by (unfold Z.div; rewrite E; reflexivity).
  pose proof (Zdigits2_bounds (Zpos mx) ltac:(lia)) as [L1 U1].
  pose proof (Zdigits2_bounds (Zpos my) ltac:(lia)) as [L2 U2].
  pose proof (Zdigits2_pos (Zpos mx) ltac:(lia)) as P1.
  pose proof (Zdigits2_pos (Zpos my) ltac:(lia)) as P2.
  fold d1 in L1, U1, P1. fold d2 in L2, U2, P2.
  assert (PS : 0 < 2 ^ s) by (apply Z.pow_pos_nonneg; lia).
  assert (M1 : 2 ^ (d1 - 1 + s) <= m' < 2 ^ (d1 + s)).
  { rewrite Em, !Z.pow_add_r by lia. nia. }
  assert (Q0 : 0 <= q) by (rewrite Eq; apply Z.div_pos; lia).
  assert (QU : Zdigits2 q <= Z.max 0 (d1 + s - d2 + 1)).
  { destruct (Z_le_gt_dec 0 (d1 + s - d2 + 1)) as [Ht|Ht].
    - assert (q < 2 ^ (d1 + s - d2 + 1)).
      { rewrite Eq. apply Z.div_lt_upper_bound; [lia|].
        assert (E2 : 2 ^ (d1 + s) = 2 ^ (d2 - 1) * 2 ^ (d1 + s - d2 + 1))
          by (rewrite <- Z.pow_add_r by lia; f_equal; lia).
        assert (0 < 2 ^ (d1 + s - d2 + 1)) by (apply Z.pow_pos_nonneg; lia).
        nia. }
      assert (Zdigits2 q <= d1 + s - d2 + 1) by (apply Zdigits2_lt_pow; lia).
      lia.
    - assert (2 ^ (d1 + s) <= 2 ^ (d2 - 1)) by (apply Z.pow_le_mono_r; lia).
      assert (Hq0 : q = 0) by (rewrite Eq; apply Z.div_small; lia).
      rewrite Hq0. change (Zdigits2 0) with 0. lia. }
  assert (QL : d1 + s - d2 <= Zdigits2 q).
  { destruct (Z_le_gt_dec 0 (d1 + s - d2 - 1)) as [Ht|Ht].
    - assert (2 ^ (d1 + s - d2 - 1) <= q).
      { rewrite Eq. apply Z.div_le_lower_bound; [lia|].
        assert (E2 : 2 ^ (d1 - 1 + s) = 2 ^ d2 * 2 ^ (d1 + s - d2 - 1))
          by (rewrite <- Z.pow_add_r by lia; f_equal; lia).
        assert (0 < 2 ^ (d1 + s - d2 - 1)) by (apply Z.pow_pos_nonneg; lia).
        nia. }
      assert (d1 + s - d2 - 1 + 1 <= Zdigits2 q) by (apply Zdigits2_ge_pow; lia).
      lia.
    - pose proof (Zdigits2_nonneg q). lia. }
  replace (a - (d2 + ey) + 2) with (a - (d2 + ey) + 1 + 1) by lia.
  apply binary_round_aux_fin; unfold s, e', fx in *; lia.
Qed.



Lemma in01_fin x : in01 x -> fin 1 x.
Proof.
  intros (V & L & U). destruct x as [s|s| |s m e]; try exact I.
  - destruct s; discriminate.
  - discriminate.
  - destruct s; [discriminate|]. unfold fin. split; [exact V|].
    apply bounded_canonical in V. destruct V as [C _].
    unfold fle, SFleb, SFcompare in U.
    destruct (Z.compare_spec e (-23)); unfold fx in *; try lia; discriminate.
Qed.

Lemma fin_valid k x : fin k x -> valid x = true.
Proof. destruct x; unfold fin, valid; simpl; tauto. Qed.


Lemma fgt_false_fle m e ym ye :
  SFltb (S754_finite false ym ye) (S754_finite false m e) = false ->
  SFleb (S754_finite false m e) (S754_finite false ym ye) = true.
Proof.
  unfold SFltb, SFleb, SFcompare.
  change (Pos.compare_cont Eq ym m) with (Pos.compare ym m).
  change (Pos.compare_cont Eq m ym) with (Pos.compare m ym).
  rewrite (Z.compare_antisym ye e), (Pos.compare_antisym ym m).
  destruct (ye ?= e); cbn [CompOpp]; try discriminate; try reflexivity.
  destruct (ym ?= m)%positive; cbn [CompOpp]; try discriminate; reflexivity.
Qed.

Lemma clamp01_num x : num x -> in01 (CoreState.clamp01 x).
Proof.
  intros H. unfold CoreState.clamp01.
  destruct (flt x 0.0) eqn:E0; [repeat split|].
  destruct (fgt x 1.0) eqn:E1; [repeat split|].
  destruct x as [s|s| |s m e]; unfold num in H; try contradiction.
  - repeat split.
  - destruct s; discriminate.
  - destruct s; [discriminate|].
    split; [exact H|]. split; [reflexivity|].
    apply fgt_false_fle. exact E1.
Qed.

Lemma clamp01_in01 k x : fin k x -> in01 (CoreState.clamp01 x).
Proof.
  intros H. unfold CoreState.clamp01.
  destruct (flt x 0.0) eqn:E0; [repeat split|].
  destruct (fgt x 1.0) eqn:E1; [repeat split|].
  split; [eapply fin_valid; eassumption|].
  destruct x as [s|s| |s m e]; unfold fin in H; try contradiction.
  - split; reflexivity.
  - destruct s; [discriminate|]. split; [reflexivity|].
    apply fgt_false_fle. exact E1.
Qed.

End F32Facts.

(** A goal [fin ?k e] is settled along the syntax of [e]; the bound [?k]
    is computed on the way. *)
Ltac fin_solve :=
  lazymatch goal with
  | H : fin _ ?x |- fin _ ?x => exact H
  | H : in01 ?x |- fin _ ?x => exact (in01_fin x H)
  | |- fin _ (fmul _ _) =>
      eapply fmul_fin; [fin_solve | fin_solve | vm_compute; reflexivity]
  | |- fin _ (fadd _ _) =>
      eapply fadd_fin; [fin_solve | fin_solve | vm_compute; reflexivity]
  | |- fin _ (fsub _ _) =>
      eapply fsub_fin; [fin_solve | fin_solve | vm_compute; reflexivity]
  | |- fin _ (fdiv _ _) =>
      eapply fdiv_fin; [fin_solve | reflexivity | vm_compute; reflexivity]
  | |- fin _ (fneg _) => eapply fneg_fin; fin_solve
  | |- fin _ (CoreState.clamp01 _) =>
      eapply in01_fin, clamp01_in01; fin_solve
  | |- fin _ _ => eapply fin_eval; reflexivity
  end.

Ltac in01_solve :=
  lazymatch goal with
  | H : in01 ?x |- in01 ?x => exact H
  | |- in01 (CoreState.clamp01 _) => eapply clamp01_in01; fin_solve
  end.

(* ================================================================== *)
(** ** binary32: the order of the comparison operators *)
(* ================================================================== *)

Section F32OrderFacts.
Local Open Scope Z_scope.

Lemma fcompare_spec x y :
  is_nan x = false -> is_nan y = false ->
  exists c, SFcompare x y = Some c
    /\ (c = Lt <-> lex_lt x y) /\ (c = Gt <-> lex_lt y x).
Proof.
  intros Hx Hy.
  destruct x as [sx|sx| |sx mx ex], y as [sy|sy| |sy my ey];
    try discriminate; unfold SFcompare, lex_lt, cls, key_e, key_m;
    try (destruct sx); try (destruct sy);
    try (eexists; split; [reflexivity|]; split; split; intros H;
         first [discriminate | reflexivity | lia]).
  - change (Pos.compare_cont Eq mx my) with (Pos.compare mx my).
    eexists; split; [reflexivity|].
    destruct (Z.compare_spec ex ey); [|split; split; intros ?; first [discriminate|reflexivity|lia]..].
    destruct (Pos.compare_spec mx my); cbn [CompOpp];
      split; split; intros ?; first [discriminate|reflexivity|lia].
  - change (Pos.compare_cont Eq mx my) with (Pos.compare mx my).
    eexists; split; [reflexivity|].
    destruct (Z.compare_spec ex ey); [|split; split; intros ?; first [discriminate|reflexivity|lia]..].
    destruct (Pos.compare_spec mx my);
      split; split; intros ?; first [discriminate|reflexivity|lia].
Qed.

Lemma flt_spec x y :
  SFltb x y = true <-> is_nan x = false /\ is_nan y = false /\ lex_lt x y.
Proof.
  split.
  - intros H.
    assert (Hx : is_nan x = false) by (destruct x; try reflexivity; discriminate).
    assert (Hy : is_nan y = false)
      by (destruct y; try reflexivity; destruct x; discriminate).
    split; [exact Hx|]. split; [exact Hy|].
    destruct (fcompare_spec x y Hx Hy) as (c & Hc & H1 & _).
    unfold SFltb in H. rewrite Hc in H. apply H1.
    destruct c; try discriminate. reflexivity.
  - intros (Hx & Hy & H).
    destruct (fcompare_spec x y Hx Hy) as (c & Hc & H1 & _).
    unfold SFltb. rewrite Hc. apply H1 in H. rewrite H. reflexivity.
Qed.

Lemma fle_spec x y :
  SFleb x y = true <-> is_nan x = false /\ is_nan y = false /\ ~ lex_lt y x.
Proof.
  split.
  - intros H.
    assert (Hx : is_nan x = false) by (destruct x; try reflexivity; discriminate).
    assert (Hy : is_nan y = false)
      by (destruct y; try reflexivity; destruct x; discriminate).
    split; [exact Hx|]. split; [exact Hy|].
    destruct (fcompare_spec x y Hx Hy) as (c & Hc & _ & H2).
    unfold SFleb in H. rewrite Hc in H. intros Hlt. apply H2 in Hlt.
    rewrite Hlt in H. discriminate.
  - intros (Hx & Hy & H).
    destruct (fcompare_spec x y Hx Hy) as (c & Hc & _ & H2).
    unfold SFleb. rewrite Hc. destruct c; try reflexivity.
    exfalso. apply H, H2. reflexivity.
Qed.

Lemma flt_false x y :
  is_nan x = false -> is_nan y = false ->
  SFltb x y = false -> ~ lex_lt x y.
Proof.
  intros Hx Hy H Hlt.
  assert (SFltb x y = true) by (apply flt_spec; auto).
  congruence.
Qed.

Lemma lex_lt_trans x y z : lex_lt x y -> lex_lt y z -> lex_lt x z.
Proof. unfold lex_lt. lia. Qed.

Lemma lex_lt_irrefl x : ~ lex_lt x x.
Proof. unfold lex_lt. lia. Qed.

End F32OrderFacts.

(* ================================================================== *)
(** ** binary32: what rounding does to the value *)
(* ================================================================== *)

Section F32RoundFacts.
Local Open Scope Z_scope.

(** What [binary_round_aux] computes: the mantissa is cut to the format's
    exponent, moved by at most one unit by the rounding, and cut again
    should that have added a digit. *)
Lemma binary_round_aux_spec s m e l :
  0 <= m -> e <= fx (Zdigits2 m + e) ->
  exists m2,
    m / 2 ^ (fx (Zdigits2 m + e) - e) <= m2
      <= m / 2 ^ (fx (Zdigits2 m + e) - e) + 1
    /\ fx (Zdigits2 m + e) <= fx (Zdigits2 m2 + fx (Zdigits2 m + e))
    /\ binary_round_aux prec emax s m e l
       = match m2 / 2 ^ (fx (Zdigits2 m2 + fx (Zdigits2 m + e))
                         - fx (Zdigits2 m + e)) with
         | 0 => S754_zero s
         | Zpos p =>
             if fx (Zdigits2 m2 + fx (Zdigits2 m + e)) <=? 104
             then S754_finite s p (fx (Zdigits2 m2 + fx (Zdigits2 m + e)))
             else S754_infinity s
         | Zneg _ => S754_nan
         end.
Proof.
  intros Hm He. unfold binary_round_aux.
  destruct (shr_fexp_spec m e l Hm He) as (mrs1 & E1 & M1). rewrite E1.
  set (e1 := fx (Zdigits2 m + e)) in *.
  assert (P1 : 0 < 2 ^ (e1 - e)) by (apply Z.pow_pos_nonneg; lia).
  assert (N1 : 0 <= shr_m mrs1) by (rewrite M1; apply Z.div_pos; lia).
  pose proof (round_nearest_even_bounds (shr_m mrs1) (loc_of_shr_record mrs1)) as R.
  set (m2 := round_nearest_even (shr_m mrs1) (loc_of_shr_record mrs1)) in *.
  assert (D1 : Zdigits2 (shr_m mrs1) = Z.max 0 (Zdigits2 m - (e1 - e)))
    by (rewrite M1; apply Zdigits2_div_pow2; lia).
  assert (D2 : Zdigits2 (shr_m mrs1) <= Zdigits2 m2)
    by (apply Zdigits2_mono; lia).
  assert (He2 : e1 <= fx (Zdigits2 m2 + e1)) by (unfold e1, fx in *; lia).
  destruct (shr_fexp_spec m2 e1 loc_Exact ltac:(lia) He2) as (mrs3 & E3 & M3).
  exists m2. rewrite <- M1. split; [exact R|].
  split; [exact He2|].
  rewrite E3, M3. reflexivity.
Qed.

(** A float that is zero or has the sign [s] and lies below the
    positive magnitude [(X - c) * 2^ex]. *)
Lemma binary_round_aux_below s m e l X ex c :
  0 < m -> e <= fx (Zdigits2 m + e) ->
  bounded prec emax X ex = true -> e <= ex -> 0 <= c ->
  m < (Zpos X - c) * 2 ^ (ex - e) ->
  binary_round_aux prec emax s m e l = S754_zero s
  \/ exists p e3,
       binary_round_aux prec emax s m e l = S754_finite s p e3
       /\ (e3 < ex \/ (e3 = ex /\ Zpos p <= Zpos X - c)).
Proof.
  intros Hm He HX Hex Hc Hlt.
  apply bounded_canonical in HX. destruct HX as [CX LX].
  destruct (binary_round_aux_spec s m e l ltac:(lia) He)
    as (m2 & R & He3 & ->).
  set (e1 := fx (Zdigits2 m + e)) in *.
  set (e3 := fx (Zdigits2 m2 + e1)) in *.
  assert (P0 : 0 < 2 ^ (ex - e)) by (apply Z.pow_pos_nonneg; lia).
  assert (XC : 0 < Zpos X - c) by nia.
  (* the operand has no more digits than the bound *)
  assert (Dm : Zdigits2 m + e <= Zdigits2 (Zpos X) + ex).
  { assert (Zdigits2 m <= Zdigits2 (Zpos X * 2 ^ (ex - e)))
      by (apply Zdigits2_mono; nia).
    rewrite Zdigits2_mul_pow2 in H by lia. lia. }
  assert (E1 : e1 <= ex) by (unfold e1, fx in *; lia).
  assert (P1 : 0 < 2 ^ (e1 - e)) by (apply Z.pow_pos_nonneg; lia).
  assert (P2 : 0 < 2 ^ (ex - e1)) by (apply Z.pow_pos_nonneg; lia).
  assert (PE : 2 ^ (ex - e) = 2 ^ (e1 - e) * 2 ^ (ex - e1))
    by (rewrite <- Z.pow_add_r by lia; f_equal; lia).
  assert (Q : m / 2 ^ (e1 - e) < (Zpos X - c) * 2 ^ (ex - e1)).
  { apply Z.div_lt_upper_bound; [lia|]. rewrite PE in Hlt. lia. }
  assert (N1 : 0 <= m / 2 ^ (e1 - e)) by (apply Z.div_pos; lia).
  assert (M2 : 0 <= m2 <= (Zpos X - c) * 2 ^ (ex - e1)) by lia.
  assert (D2 : Zdigits2 m2 + e1 <= Zdigits2 (Zpos X) + ex).
  { assert (Zdigits2 m2 <= Zdigits2 (Zpos X * 2 ^ (ex - e1)))
      by (apply Zdigits2_mono; nia).
    rewrite Zdigits2_mul_pow2 in H by lia. lia. }
  assert (E3 : e3 <= ex) by (unfold e3, fx in *; lia).
  assert (P3 : 0 < 2 ^ (e3 - e1)) by (apply Z.pow_pos_nonneg; lia).
  destruct (m2 / 2 ^ (e3 - e1)) as [|p|p] eqn:E.
  - left. reflexivity.
  - right. assert (L : (e3 <=? 104) = true) by (apply Z.leb_le; lia).
    rewrite L. exists p, e3. split; [reflexivity|].
    destruct (Z.eq_dec e3 ex) as [Heq|Hne]; [right|left; lia].
    split; [exact Heq|]. rewrite <- E, Heq.
    apply Z.div_le_upper_bound; lia.
  - exfalso. assert (0 <= m2 / 2 ^ (e3 - e1)) by (apply Z.div_pos; lia). lia.
Qed.

(** Rounding keeps the sign. *)
Lemma binary_round_aux_cls s m e l :
  0 <= m -> e <= fx (Zdigits2 m + e) ->
  is_nan (binary_round_aux prec emax s m e l) = false
  /\ (if s then cls (binary_round_aux prec emax s m e l) <= 0
      else 0 <= cls (binary_round_aux prec emax s m e l)).
Proof.
  intros Hm He.
  destruct (binary_round_aux_spec s m e l Hm He) as (m2 & R & He3 & ->).
  set (e1 := fx (Zdigits2 m + e)) in *.
  set (e3 := fx (Zdigits2 m2 + e1)) in *.
  assert (P1 : 0 < 2 ^ (e1 - e)) by (apply Z.pow_pos_nonneg; lia).
  assert (N1 : 0 <= m / 2 ^ (e1 - e)) by (apply Z.div_pos; lia).
  assert (P3 : 0 < 2 ^ (e3 - e1)) by (apply Z.pow_pos_nonneg; lia).
  assert (N3 : 0 <= m2 / 2 ^ (e3 - e1)) by (apply Z.div_pos; lia).
  destruct (m2 / 2 ^ (e3 - e1)) as [|p|p]; [| |lia].
  - destruct s; split; cbn; first [reflexivity|lia].
  - destruct (e3 <=? 104), s; split; cbn; first [reflexivity|lia].
Qed.

(** A rounded operand of at least [k] digits, above the subnormal
    range, is not zero and has at least [k] digits. *)
Lemma binary_round_aux_mag s m e l k :
  0 < m -> e <= fx (Zdigits2 m + e) ->
  -148 <= k <= Zdigits2 m + e ->
  match binary_round_aux prec emax s m e l with
  | S754_finite _ p e3 => k <= Zdigits2 (Zpos p) + e3
  | S754_infinity _ => True
  | _ => False
  end.
Proof.
  intros Hm He Hk.
  destruct (binary_round_aux_spec s m e l ltac:(lia) He)
    as (m2 & R & He3 & ->).
  set (e1 := fx (Zdigits2 m + e)) in *.
  set (e3 := fx (Zdigits2 m2 + e1)) in *.
  pose proof (Zdigits2_pos m Hm) as Dm.
  assert (P1 : 0 < 2 ^ (e1 - e)) by (apply Z.pow_pos_nonneg; lia).
  assert (N1 : 0 <= m / 2 ^ (e1 - e)) by (apply Z.div_pos; lia).
  assert (D1 : Zdigits2 (m / 2 ^ (e1 - e)) = Z.max 0 (Zdigits2 m - (e1 - e)))
    by (apply Zdigits2_div_pow2; lia).
  assert (D2 : Zdigits2 (m / 2 ^ (e1 - e)) <= Zdigits2 m2)
    by (apply Zdigits2_mono; lia).
  assert (P3 : 0 < 2 ^ (e3 - e1)) by (apply Z.pow_pos_nonneg; lia).
  assert (D3 : Zdigits2 (m2 / 2 ^ (e3 - e1))
               = Z.max 0 (Zdigits2 m2 - (e3 - e1)))
    by (apply Zdigits2_div_pow2; lia).
  assert (K : k <= Zdigits2 (m2 / 2 ^ (e3 - e1)) + e3
              /\ 0 < Zdigits2 (m2 / 2 ^ (e3 - e1)))
    by (unfold e3, e1, fx in *; lia).
  assert (N3 : 0 <= m2 / 2 ^ (e3 - e1)) by (apply Z.div_pos; lia).
  revert K N3. destruct (m2 / 2 ^ (e3 - e1)) as [|p|p]; intros K N3.
  - cbn in K. lia.
  - destruct (e3 <=? 104); [lia|exact I].
  - lia.
Qed.

(** A positive operand within the normal range rounds to a positive
    number of no fewer digits. *)
Lemma binary_round_aux_pos_mag m e l lo hi :
  0 < m -> e <= fx (Zdigits2 m + e) ->
  -148 <= lo <= Zdigits2 m + e -> Zdigits2 m + e <= hi <= 127 ->
  pos_mag lo (hi + 1) (binary_round_aux prec emax false m e l).
Proof.
  intros Hm He Hlo Hhi.
  pose proof (binary_round_aux_fin false m e l hi ltac:(lia) He ltac:(lia)
                ltac:(lia)) as F.
  pose proof (binary_round_aux_mag false m e l lo Hm He Hlo) as G.
  pose proof (binary_round_aux_cls false m e l ltac:(lia) He) as [_ C].
  destruct (binary_round_aux prec emax false m e l) as [s|s| |s p e3];
    try contradiction.
  destruct s; [cbn in C; lia|].
  unfold fin in F. unfold pos_mag. intuition lia.
Qed.

Lemma binary_round_shift s m e :
  exists mz ez,
    binary_round prec emax s m e
    = binary_round_aux prec emax s (Zpos mz) ez loc_Exact
    /\ ez <= e /\ Zpos mz = Zpos m * 2 ^ (e - ez)
    /\ ez <= fx (Zdigits2 (Zpos mz) + ez).
Proof.
  unfold binary_round, shl_align. rewrite fexp_fx.
  change (Zpos (digits2_pos m)) with (Zdigits2 (Zpos m)).
  pose proof (Zdigits2_pos (Zpos m) ltac:(lia)) as Hd.
  destruct (fx (Zdigits2 (Zpos m) + e) - e) as [|p|p] eqn:E.
  - exists m, e. split; [reflexivity|]. rewrite Z.sub_diag. lia.
  - exists m, e. split; [reflexivity|]. rewrite Z.sub_diag. lia.
  - exists (Pos.iter xO m p), (fx (Zdigits2 (Zpos m) + e)).
    split; [reflexivity|].
    assert (D : Zdigits2 (Zpos (Pos.iter xO m p)) = Zdigits2 (Zpos m) + Zpos p).
    { rewrite Zpos_iter_xO. apply Zdigits2_mul_pow2; lia. }
    rewrite D, Zpos_iter_xO.
    replace (e - fx (Zdigits2 (Zpos m) + e)) with (Zpos p) by lia.
    split; [lia|]. split; [reflexivity|].
    replace (Zdigits2 (Zpos m) + Zpos p + fx (Zdigits2 (Zpos m) + e))
      with (Zdigits2 (Zpos m) + e) by lia.
    lia.
Qed.

Lemma of_Z_pos_mag n : 0 < n < 2 ^ 32 -> pos_mag 1 33 (of_Z n).
Proof.
  intros H. unfold of_Z. destruct n as [|p|p]; try lia.
  cbn [binary_normalize].
  destruct (binary_round_shift false p 0) as (mz & ez & -> & Hez & Hmz & Hc).
  assert (P : 0 < 2 ^ (0 - ez)) by (apply Z.pow_pos_nonneg; lia).
  assert (D : Zdigits2 (Zpos mz) + ez = Zdigits2 (Zpos p)).
  { rewrite Hmz, Zdigits2_mul_pow2 by lia. lia. }
  pose proof (Zdigits2_pos (Zpos p) ltac:(lia)).
  assert (Zdigits2 (Zpos p) <= 32) by (apply Zdigits2_lt_pow; lia).
  change 33 with (32 + 1).
  apply binary_round_aux_pos_mag; lia.
Qed.

Lemma fmul_pos_mag a b c d x y :
  pos_mag a b x -> pos_mag c d y ->
  -148 <= a + c - 1 -> b + d <= 127 ->
  pos_mag (a + c - 1) (b + d + 1) (fmul x y).
Proof.
  intros Hx Hy Hlo Hhi.
  destruct x as [sx|sx| |[|] mx ex]; try contradiction.
  destruct y as [sy|sy| |[|] my ey]; try contradiction.
  destruct Hx as [Bx Kx], Hy as [By Ky].
  apply bounded_canonical in Bx, By. destruct Bx as [Cx Lx], By as [Cy Ly].
  unfold fmul, SFmul. cbn [xorb].
  pose proof (Zdigits2_mul (Zpos mx) (Zpos my) ltac:(lia) ltac:(lia)) as D.
  pose proof (Zdigits2_pos (Zpos mx) ltac:(lia)).
  pose proof (Zdigits2_pos (Zpos my) ltac:(lia)).
  rewrite <- Pos2Z.inj_mul in D.
  apply binary_round_aux_pos_mag; unfold fx in *; lia.
Qed.

(** Subtracting a positive number from a positive number never gives
    more, and gives less as soon as the number subtracted exceeds the
    last digit of the other. *)
Lemma fsub_pos_below X ex Y ey :
  bounded prec emax X ex = true ->
  is_nan (fsub (S754_finite false X ex) (S754_finite false Y ey)) = false
  /\ ~ lex_lt (S754_finite false X ex)
         (fsub (S754_finite false X ex) (S754_finite false Y ey))
  /\ (ex + 2 <= Zdigits2 (Zpos Y) + ey ->
      lex_lt (fsub (S754_finite false X ex) (S754_finite false Y ey))
        (S754_finite false X ex)).
Proof.
  intros HX. unfold fsub, SFsub. cbn [cond_Zopp].
  set (ez := Z.min ex ey).
  pose proof (shl_align_fst X ex ez ltac:(unfold ez; lia)) as Ex.
  pose proof (shl_align_fst Y ey ez ltac:(unfold ez; lia)) as Ey.
  rewrite Ex, Ey.
  assert (PX : 0 < 2 ^ (ex - ez)) by (apply Z.pow_pos_nonneg; unfold ez; lia).
  assert (PY : 0 < 2 ^ (ey - ez)) by (apply Z.pow_pos_nonneg; unfold ez; lia).
  destruct (Zpos X * 2 ^ (ex - ez) - Zpos Y * 2 ^ (ey - ez)) as [|q|q] eqn:E;
    cbn [binary_normalize].
  - unfold lex_lt; cbn. split; [reflexivity|]. split; lia.
  - destruct (binary_round_shift false q ez)
      as (mz & e' & -> & He' & Hmz & Hc).
    assert (P' : 0 < 2 ^ (ez - e')) by (apply Z.pow_pos_nonneg; lia).
    assert (PE : 2 ^ (ex - e') = 2 ^ (ex - ez) * 2 ^ (ez - e'))
      by (rewrite <- Z.pow_add_r by (unfold ez in *; lia); f_equal; lia).
    assert (S1 : forall c, 0 <= c ->
              Zpos q < (Zpos X - c) * 2 ^ (ex - ez) ->
              let r := binary_round_aux prec emax false (Zpos mz) e' loc_Exact in
              is_nan r = false
              /\ (cls r = 0 \/ (cls r = 1 /\ (key_e r < ex
                   \/ (key_e r = ex /\ key_m r <= Zpos X - c))))).
    { intros c Hc0 Hq r.
      assert (A1 : e' <= ex) by (unfold ez in *; lia).
      assert (A2 : Zpos mz < (Zpos X - c) * 2 ^ (ex - e'))
        by (rewrite Hmz, PE; nia).
      destruct (binary_round_aux_below false (Zpos mz) e' loc_Exact X ex c
                  ltac:(lia) Hc HX A1 Hc0 A2)
        as [R|(p & e3 & R & Hr)].
      - unfold r. rewrite R. cbn. split; [reflexivity|]. left. reflexivity.
      - unfold r. rewrite R. cbn. split; [reflexivity|]. right. lia. }
    assert (Q0 : Zpos q < (Zpos X - 0) * 2 ^ (ex - ez)) by nia.
    destruct (S1 0 ltac:(lia) Q0) as [N0 R0].
    split; [exact N0|]. split.
    + unfold lex_lt. cbn [cls key_e key_m]. lia.
    + intros Hd.
      assert (Q1 : Zpos q < (Zpos X - 1) * 2 ^ (ex - ez)).
      { pose proof (Zdigits2_bounds (Zpos Y) ltac:(lia)) as [LY _].
        pose proof (Zdigits2_pos (Zpos Y) ltac:(lia)).
        assert (2 * 2 ^ (ex - ez)
                <= 2 ^ (Zdigits2 (Zpos Y) - 1) * 2 ^ (ey - ez)).
        { rewrite <- Z.pow_add_r by (unfold ez in *; lia).
          rewrite <- (Z.pow_succ_r 2 (ex - ez)) by (unfold ez in *; lia).
          apply Z.pow_le_mono_r; unfold ez in *; lia. }
        nia. }
      destruct (S1 1 ltac:(lia) Q1) as [_ R1].
      unfold lex_lt. cbn [cls key_e key_m]. lia.
  - destruct (binary_round_shift true q ez)
      as (mz & e' & -> & He' & Hmz & Hc).
    destruct (binary_round_aux_cls true (Zpos mz) e' loc_Exact
                ltac:(lia) Hc) as [N C].
    split; [exact N|]. unfold lex_lt. cbn [cls key_e key_m] in *. lia.
Qed.

End F32RoundFacts.

Section DecayFacts.
Import CoreState.
Local Open Scope Z_scope.

Lemma in01_shape x :
  in01 x ->
  (exists s, x = S754_zero s)
  \/ (exists m e, x = S754_finite false m e
        /\ bounded prec emax m e = true /\ e <= -23).
Proof.
  intros H. pose proof (in01_fin x H) as F. destruct H as (V & H0 & H1).
  destruct x as [s|s| |s m e]; try contradiction.
  - left. exists s. reflexivity.
  - destruct s; [discriminate|]. right. exists m, e.
    split; [reflexivity|]. destruct F as [B K]. split; [exact B|].
    apply bounded_canonical in B. unfold fx in B. lia.
Qed.

(** Lowering a score of [0,1] by a non-negative amount and clamping
    never raises it. *)
Lemma decay_not_above x d :
  in01 x -> fle 0.0%f32 d = true ->
  fle (clamp01 (fsub x d)) x = true.
Proof.
  intros Hx Hd.
  destruct (in01_shape x Hx) as [[s ->]|(X & ex & -> & BX & EX)].
  - destruct d as [sd|sd| |sd md ed]; try discriminate;
      destruct s, sd; try discriminate; reflexivity.
  - destruct Hx as (_ & _ & H1).
    apply fle_spec in H1. destruct H1 as (_ & _ & H1).
    assert (V : is_nan (fsub (S754_finite false X ex) d) = false
                /\ ~ lex_lt (S754_finite false X ex)
                       (fsub (S754_finite false X ex) d)).
    { destruct d as [sd|sd| |sd md ed]; try discriminate.
      - split; [reflexivity|]. apply lex_lt_irrefl.
      - destruct sd; [discriminate|]. split; [reflexivity|].
        unfold lex_lt; cbn; lia.
      - destruct sd; [discriminate|].
        destruct (fsub_pos_below X ex md ed BX) as (N & L & _).
        split; assumption. }
    destruct V as [N L].
    set (v := fsub (S754_finite false X ex) d) in *.
    unfold clamp01, flt, fgt.
    destruct (SFltb v 0.0%f32) eqn:E0; [reflexivity|].
    destruct (SFltb 1.0%f32 v) eqn:E1.
    + apply flt_spec in E1. destruct E1 as (_ & _ & E1).
      exfalso. apply H1. revert E1 L. unfold lex_lt. lia.
    + apply fle_spec. split; [exact N|]. split; [reflexivity|exact L].
Qed.

(** It lowers a positive score as soon as the amount is [2^-22] or
    more. *)
Lemma decay_below x d lo hi :
  in01 x -> flt 0.0%f32 x = true -> pos_mag lo hi d -> -21 <= lo ->
  flt (clamp01 (fsub x d)) x = true.
Proof.
  intros Hx Hp Hd Hlo.
  destruct (in01_shape x Hx) as [[s ->]|(X & ex & -> & BX & EX)];
    [destruct s; discriminate|].
  destruct Hx as (_ & _ & H1).
  apply fle_spec in H1. destruct H1 as (_ & _ & H1).
  destruct d as [sd|sd| |[|] md ed]; try contradiction.
  destruct Hd as [Bd Kd].
  destruct (fsub_pos_below X ex md ed BX) as (N & _ & L).
  specialize (L ltac:(lia)).
  set (v := fsub (S754_finite false X ex) (S754_finite false md ed)) in *.
  unfold clamp01, flt, fgt.
  destruct (SFltb v 0.0%f32) eqn:E0; [reflexivity|].
  destruct (SFltb 1.0%f32 v) eqn:E1.
  - apply flt_spec in E1. destruct E1 as (_ & _ & E1).
    exfalso. apply H1. revert E1 L. unfold lex_lt. lia.
  - apply flt_spec. split; [exact N|]. split; [reflexivity|exact L].
Qed.

(** The amount [core_state_update_stats] subtracts. *)
Lemma decay_amount gap :
  0 < gap < 60000 -> pos_mag (-10) 24 (fmul 0.0005%f32 (of_Z gap)).
Proof.
  intros H.
  change (-10) with (-10 + 1 - 1). change 24 with (-10 + 33 + 1).
  apply fmul_pos_mag; try lia.
  - split; [reflexivity|]. vm_compute. split; discriminate.
  - apply of_Z_pos_mag. lia.
Qed.

End DecayFacts.

(* ================================================================== *)
(** ** The needs simulator *)
(* ================================================================== *)

Section CoreStateFacts.

Import CoreState.
Local Open Scope f32_scope.

Lemma dt_fin (delta_ms : Z) :
  (0 <= delta_ms < 2 ^ 32)%Z -> fin 25 (of_Z delta_ms / 1000.0).
Proof.
  intros H.
  exact (fdiv_fin 33 (of_Z delta_ms) 1000.0 (of_Z_fin delta_ms H) eq_refl eq_refl).
Qed.

Lemma core_state_update_in01 state delta_ms current_action :
  needs_in01 state -> (0 <= delta_ms < 2 ^ 32)%Z ->
  needs_in01
    (core_state_update state core_state_config_init delta_ms current_action).
Proof.
  intros (Hh & He & Ha & Ht & Hs) Hd.
  pose proof (dt_fin delta_ms Hd) as Hdt.
  unfold core_state_update, needs_in01.
  cbn [CoreState.hunger CoreState.energy CoreState.affection_need
       CoreState.trust CoreState.stress core_state_config_init
       hunger_rate energy_decay_rate energy_regen_rate affection_decay_rate
       stress_decay_rate trust_decay_rate].
  set (dt := of_Z delta_ms / 1000.0) in *.
  assert (H1 : in01 (clamp01 (CoreState.hunger state + 0.001 * dt)))
    by in01_solve.
  set (hunger' := clamp01 (CoreState.hunger state + 0.001 * dt)) in *.
  assert (H2 : in01 (if action_eqb current_action ACTION_SLEEP
                     then clamp01 (CoreState.energy state + 0.002 * dt)
                     else clamp01 (CoreState.energy state - 0.0008 * dt)))
    by (destruct (action_eqb current_action ACTION_SLEEP); in01_solve).
  set (energy' := if action_eqb current_action ACTION_SLEEP
                  then clamp01 (CoreState.energy state + 0.002 * dt)
                  else clamp01 (CoreState.energy state - 0.0008 * dt)) in *.
  assert (H3 : in01 (clamp01 (CoreState.affection_need state + 0.0005 * dt)))
    by in01_solve.
  set (affection' := clamp01 (CoreState.affection_need state + 0.0005 * dt)) in *.
  split; [exact H1|]. split; [exact H2|]. split; [exact H3|]. split.
  - in01_solve.
  - destruct (hunger' >? 0.7), (energy' <? 0.2), (affection' >? 0.8);
      in01_solve.
Qed.

Lemma in01_num x : in01 x -> num x.
Proof. intros H. exact (fin_num 1 x (in01_fin x H)). Qed.

(** The effectiveness [1 - spam_score * 0.7] is a number whenever the
    spam score is one. *)
Lemma effectiveness_num spam : num spam -> num (1.0 - spam * 0.7).
Proof.
  intros Hp. apply (fsub_fin_num (mag 1.0)).
  - apply fin_eval. reflexivity.
  - apply fmul_num_r; [exact Hp|reflexivity].
Qed.

Lemma reduced_in01 x c eff :
  in01 x -> nzb c = true -> num eff -> in01 (clamp01 (x - c * eff)).
Proof.
  intros Hx Hc He. apply clamp01_num.
  apply (fsub_fin_num 1); [exact (in01_fin x Hx)|].
  apply fmul_num_l; assumption.
Qed.

Lemma spam_raised_in01 spam : num spam -> in01 (clamp01 (spam + 0.15)).
Proof.
  intros Hp. apply clamp01_num.
  apply (fadd_num_fin (mag 0.15)); [exact Hp|].
  apply fin_eval. reflexivity.
Qed.

Lemma core_state_feed_in01 state stats :
  needs_in01 state -> num (spam_score stats) ->
  needs_in01 (fst (core_state_feed state core_state_config_init stats))
  /\ in01 (spam_score (snd (core_state_feed state core_state_config_init stats))).
Proof.
  intros (Hh & He & Ha & Ht & Hs) Hp.
  unfold core_state_feed, needs_in01, set_spam_score.
  cbn [fst snd CoreState.hunger CoreState.energy CoreState.affection_need
       CoreState.trust CoreState.stress spam_score core_state_config_init
       spam_penalty feed_hunger_reduction feed_stress_reduction].
  pose proof (effectiveness_num _ Hp) as Hf.
  set (eff := 1.0 - spam_score stats * 0.7) in *. clearbody eff.
  assert (H1 : in01 (clamp01 (CoreState.stress state - 0.05 * eff)))
    by (apply reduced_in01; [exact Hs|reflexivity|exact Hf]).
  set (stress1 := clamp01 (CoreState.stress state - 0.05 * eff)) in *.
  split; [|apply spam_raised_in01; exact Hp].
  split; [apply reduced_in01; [exact Hh|reflexivity|exact Hf]|].
  split; [exact He|]. split; [exact Ha|]. split.
  - destruct ((CoreState.hunger state >? 0.5) && (eff >? 0.5)); in01_solve.
  - destruct (CoreState.hunger state <? 0.2); in01_solve.
Qed.

Lemma core_state_pet_in01 state stats :
  needs_in01 state -> num (spam_score stats) ->
  needs_in01 (fst (core_state_pet state core_state_config_init stats))
  /\ in01 (spam_score (snd (core_state_pet state core_state_config_init stats))).
Proof.
  intros (Hh & He & Ha & Ht & Hs) Hp.
  unfold core_state_pet, needs_in01, set_spam_score.
  cbn [fst snd CoreState.hunger CoreState.energy CoreState.affection_need
       CoreState.trust CoreState.stress spam_score core_state_config_init
       spam_penalty pet_affection_reduction pet_stress_reduction].
  pose proof (effectiveness_num _ Hp) as Hf.
  set (eff := 1.0 - spam_score stats * 0.7) in *. clearbody eff.
  assert (H1 : in01 (clamp01 (CoreState.stress state - 0.1 * eff)))
    by (apply reduced_in01; [exact Hs|reflexivity|exact Hf]).
  set (stress1 := clamp01 (CoreState.stress state - 0.1 * eff)) in *.
  split; [|apply spam_raised_in01; exact Hp].
  split; [exact Hh|]. split; [exact He|].
  split; [apply reduced_in01; [exact Ha|reflexivity|exact Hf]|]. split.
  - destruct ((CoreState.affection_need state >? 0.5) && (eff >? 0.5));
      in01_solve.
  - destruct (CoreState.affection_need state <? 0.15); in01_solve.
Qed.

(** The invariant carried along a call sequence. *)
Lemma apply_call_in01 s c :
  needs_in01 (fst s) -> num (spam_score (snd s)) -> call_ok c ->
  needs_in01 (fst (apply_call core_state_config_init s c))
  /\ num (spam_score (snd (apply_call core_state_config_init s c))).
Proof.
  intros Hn Hp Hc. destruct s as [state stats], c as [delta_ms a| |];
    cbn [apply_call fst snd] in *.
  - split; [apply core_state_update_in01; assumption|exact Hp].
  - destruct (core_state_feed_in01 state stats Hn Hp) as [H1 H2].
    split; [exact H1|apply in01_num; exact H2].
  - destruct (core_state_pet_in01 state stats Hn Hp) as [H1 H2].
    split; [exact H1|apply in01_num; exact H2].
Qed.

Lemma run_calls_in01 calls : forall s,
  needs_in01 (fst s) -> num (spam_score (snd s)) -> Forall call_ok calls ->
  needs_in01 (fst (run_calls core_state_config_init calls s))
  /\ num (spam_score (snd (run_calls core_state_config_init calls s))).
Proof.
  induction calls as [|c calls IH]; intros s Hn Hp Hc; cbn [run_calls fold_left].
  - split; assumption.
  - inversion Hc as [|? ? Hc1 Hc2]; subst.
    destruct (apply_call_in01 s c Hn Hp Hc1) as [Hn' Hp'].
    apply (IH _ Hn' Hp' Hc2).
Qed.

(** C1. Starting from needs in [0,1], with the default configuration,
    every field of the needs state lies in [0,1] after each call of any
    sequence of ticks (with a 32-bit millisecond delta and any current
    action), feeds and pets: the state after the first [n] calls
    satisfies the invariant for every [n].  The interaction statistics
    the feeds and pets work on may hold any number as spam score, NaN
    being the one float excluded. *)
Theorem needs_stay_in_unit_interval :
  forall (calls : list call) (state : PetState) (stats : InteractionStats)
         (n : nat),
    needs_in01 state -> num (spam_score stats) -> Forall call_ok calls ->
    needs_in01
      (fst (run_calls core_state_config_init (take n calls) (state, stats))).
Proof.
  intros calls state stats n Hn Hp Hc.
  apply (run_calls_in01 (take n calls) (state, stats) Hn Hp).
  apply Forall_take. exact Hc.
Qed.

Lemma needs_stay_in_unit_interval_witness :
  needs_in01
    (fst (run_calls core_state_config_init
            (take 4 [Tick 2000 ACTION_IDLE; Feed; Pet; Tick 4294967295 ACTION_SLEEP])
            (core_state_init, core_state_stats_init))).
Proof.
  apply needs_stay_in_unit_interval.
  - repeat split; reflexivity.
  - exact I.
  - repeat constructor; cbn; lia.
Defined.

(** C7, as stated, fails: the gap is not the time since the last update.
    With a spam score of 1.0 and [last_interaction_ms] at 0, an update
    at 500 ms leaves 0.75, and the next update, 500 ms later at 1000 ms,
    leaves 0.25: it takes 0.0005 * 1000 off the score already lowered,
    where a decay over the 500 ms since the last update would leave
    0.5. *)
Lemma decay_is_not_since_last_update :
  let s0 := set_spam_score core_state_stats_init 1.0 in
  let s1 := core_state_update_stats s0 500 in
  let s2 := core_state_update_stats s1 1000 in
  spam_score s1 = 0.75 /\ spam_score s2 = 0.25
  /\ spam_score s2 <> clamp01 (spam_score s1 - 0.0005 * of_Z (1000 - 500)).
Proof.
  cbv zeta. split; [reflexivity|]. split; [reflexivity|].
  vm_compute. discriminate.
Qed.

(** C7, amended. [core_state_update_stats] measures the gap from the
    stats' [last_interaction_ms] (modulo 2^32), which it leaves as it
    is, like every field but the spam score.  A gap of 60 seconds or
    more changes nothing, and neither does a gap of zero.  For a gap
    strictly between, the new spam score is the old one lowered by
    0.0005 per millisecond of the gap and clamped to [0,1]; a score in
    [0,1] stays in [0,1], is never raised, and is lowered if it was
    positive. *)
Theorem spam_decay_window :
  forall (stats : InteractionStats) (current_ms : Z),
    let gap := u32 (current_ms - last_interaction_ms stats) in
    let stats' := core_state_update_stats stats current_ms in
    (last_interaction_ms stats' = last_interaction_ms stats
     /\ feed_count_1m stats' = feed_count_1m stats
     /\ feed_count_5m stats' = feed_count_5m stats
     /\ pet_count_1m stats' = pet_count_1m stats
     /\ pet_count_5m stats' = pet_count_5m stats
     /\ ignore_start_ms stats' = ignore_start_ms stats)
    /\ ((gap = 0 \/ 60000 <= gap)%Z -> stats' = stats)
    /\ ((0 < gap < 60000)%Z ->
        spam_score stats' = clamp01 (spam_score stats - 0.0005 * of_Z gap)
        /\ (in01 (spam_score stats) ->
            in01 (spam_score stats')
            /\ (spam_score stats' <=? spam_score stats) = true
            /\ ((0.0 <? spam_score stats) = true ->
                (spam_score stats' <? spam_score stats) = true))).
Proof.
  intros stats current_ms gap stats'. unfold stats', core_state_update_stats.
  fold gap. split; [|split].
  - destruct ((0 <? gap)%Z && (gap <? 60000)%Z); repeat split; reflexivity.
  - intros [H|H].
    + rewrite H. reflexivity.
    + destruct (0 <? gap)%Z, (gap <? 60000)%Z eqn:E; try reflexivity.
      apply Z.ltb_lt in E. lia.
  - intros [H1 H2].
    apply Z.ltb_lt in H1 as E1. apply Z.ltb_lt in H2 as E2.
    rewrite E1, E2. cbn [andb set_spam_score spam_score].
    split; [reflexivity|]. intros Hp.
    pose proof (decay_amount gap (conj H1 H2)) as Hd.
    split; [|split].
    + assert (Hg : fin 33 (of_Z gap)) by (apply of_Z_fin; lia).
      in01_solve.
    + apply decay_not_above; [exact Hp|].
      destruct (0.0005 * of_Z gap) as [s|s| |[|] m e]; try contradiction.
      reflexivity.
    + intros Hpos. apply (decay_below _ _ (-10) 24); [exact Hp|exact Hpos| |lia].
      exact Hd.
Qed.

Lemma spam_decay_window_witness :
  let stats := set_spam_score core_state_stats_init 1.0 in
  let stats' := core_state_update_stats stats 100 in
  last_interaction_ms stats' = 0%Z
  /\ spam_score stats' = clamp01 (1.0 - 0.0005 * of_Z 100)
  /\ in01 (spam_score stats')
  /\ (spam_score stats' <? 1.0) = true.
Proof.
  intros stats stats'.
  destruct (spam_decay_window stats 100) as ((F & _) & _ & H).
  destruct (H ltac:(vm_compute; split; reflexivity)) as (E & M).
  destruct (M ltac:(repeat split; reflexivity)) as (I01 & _ & S).
  split; [exact F|]. split; [exact E|]. split; [exact I01|].
  apply S. reflexivity.
Defined.

Lemma spam_after_feeds_spec config n : forall s,
  spam_score (snd (feed_n config n s)) = spam_after_feeds n (spam_score (snd s)).
Proof.
  induction n as [|n IH]; intros s; [reflexivity|].
  change (feed_n config (S n) s)
    with (core_state_feed (fst (feed_n config n s)) config
            (snd (feed_n config n s))).
  change (spam_after_feeds (S n) (spam_score (snd s)))
    with (clamp01 (spam_after_feeds n (spam_score (snd s)) + 0.15)).
  rewrite <- IH. reflexivity.
Qed.

(** C8, as stated, fails: three feeds from a zero spam score leave it at
    0.15f + 0.15f + 0.15f, about 0.45, not at 1.0. *)
Lemma three_feeds_do_not_saturate :
  spam_score (snd (feed_n core_state_config_init 3
                     (core_state_init, core_state_stats_init)))
  <> 1.0.
Proof. vm_compute. discriminate. Qed.

(** C8, amended. Starting from a zero spam score, each feed raises the
    score by 0.15, clamped to [0,1]: three feeds give 0.15f+0.15f+0.15f
    (about 0.45, below 0.5), six feeds still leave it below 1, and from
    the seventh feed on it is 1.0; at the saturated score 1.0 a feed
    still lowers hunger by 0.4f * (1 - 1 * 0.7f), about 0.12 and above
    0.1, so the reduction does not approach zero. *)
Theorem feed_spam_saturation :
  forall (state : PetState) (stats : InteractionStats),
    let start := (state, set_spam_score stats 0.0) in
    let spam n := spam_score (snd (feed_n core_state_config_init n start)) in
    spam 3%nat = 0.15 + 0.15 + 0.15
    /\ (spam 3%nat <? 0.5) = true
    /\ (spam 6%nat <? 1.0) = true
    /\ (forall n, (7 <= n)%nat -> spam n = 1.0)
    /\ (forall st, spam_score st = 1.0 ->
          CoreState.hunger (fst (core_state_feed state core_state_config_init st))
          = clamp01 (CoreState.hunger state - 0.4 * (1.0 - 1.0 * 0.7))
          /\ (0.4 * (1.0 - 1.0 * 0.7) >? 0.1) = true).
Proof.
  intros state stats start spam.
  assert (E : forall n, spam n = spam_after_feeds n 0.0).
  { intros n. unfold spam. rewrite spam_after_feeds_spec. reflexivity. }
  split; [rewrite E; reflexivity|].
  split; [rewrite E; reflexivity|].
  split; [rewrite E; reflexivity|].
  split.
  - intros n Hn. rewrite E.
    replace n with ((n - 7) + 7)%nat by lia.
    generalize (n - 7)%nat as k. intros k.
    induction k as [|k IH]; [reflexivity|].
    change (spam_after_feeds (S k + 7) 0.0)
      with (clamp01 (spam_after_feeds (k + 7) 0.0 + 0.15)).
    rewrite IH. reflexivity.
  - intros st Hst. split; [|reflexivity].
    unfold core_state_feed. cbn [fst CoreState.hunger]. rewrite Hst.
    reflexivity.
Qed.

End CoreStateFacts.

(* ================================================================== *)
(** ** The online learner *)
(* ================================================================== *)

Section OnlineLearnFacts.

Import OnlineLearn.

(** C9. With an empty experience queue [online_learn_apply] reports no
    change and returns the learner state as it was: the bias vector is
    untouched, the decay factor included. *)
Theorem online_learn_apply_empty :
  forall st : LearnState,
    g_buffer_count st = 0%Z ->
    online_learn_apply st = (false, st)
    /\ g_action_biases (snd (online_learn_apply st)) = g_action_biases st.
Proof.
  intros st H. unfold online_learn_apply. rewrite H.
  cbn [Z.eqb]. rewrite orb_true_r. split; reflexivity.
Qed.

Lemma online_learn_apply_empty_witness :
  online_learn_apply (online_learn_init learn_static_init None)
  = (false, online_learn_init learn_static_init None)
  /\ g_action_biases
       (snd (online_learn_apply (online_learn_init learn_static_init None)))
     = g_action_biases (online_learn_init learn_static_init None).
Proof.
  apply online_learn_apply_empty. reflexivity.
Defined.

(** C10. With the experience queue at its capacity of 16,
    [online_learn_reward] with a valid action returns the learner state
    as it was: queue, count, biases and reward counter are unchanged. *)
Theorem online_learn_reward_full :
  forall (st : LearnState) (reward_action : Z) (f : Logger.Features),
    g_buffer_count st = MAX_BUFFER_SIZE ->
    (0 <= reward_action < ACTION_COUNT)%Z ->
    online_learn_reward st reward_action f = st.
Proof.
  intros st a f H Ha. unfold online_learn_reward. rewrite H.
  destruct (negb (g_initialized st)); [reflexivity|].
  destruct (ACTION_COUNT <=? a)%Z; reflexivity.
Qed.

Lemma online_learn_reward_full_witness :
  online_learn_reward full_learner 5 Logger.zero_features = full_learner.
Proof.
  apply online_learn_reward_full; [reflexivity|].
  unfold ACTION_COUNT. lia.
Defined.

End OnlineLearnFacts.

(* ================================================================== *)
(** ** The decision engine *)
(* ================================================================== *)

Section BrainFacts.

Import CoreState Brain.
Local Open Scope f32_scope.

Lemma action_id_if_valence (c : bool) o v :
  action_id (if c then set_valence o v else o) = action_id o.
Proof. destruct c; reflexivity. Qed.

Lemma action_id_if_arousal (c : bool) o v :
  action_id (if c then set_arousal o v else o) = action_id o.
Proof. destruct c; reflexivity. Qed.

Lemma brain_fallback_ladder f output :
  action_id (brain_fallback (Some f) output) = ladder_action f.
Proof.
  unfold brain_fallback. cbv zeta.
  rewrite !action_id_if_arousal, !action_id_if_valence.
  cbn [action_id set_valence]. unfold ladder_action.
  destruct (Logger.energy f <? 0.2); [reflexivity|].
  destruct (Logger.hunger f >? 0.7); [reflexivity|].
  destruct (Logger.affection_need f >? 0.6); [reflexivity|].
  destruct (Logger.stress f >? 0.6); [reflexivity|].
  destruct ((Logger.hunger f <? 0.3) && (Logger.energy f >? 0.5)
            && (Logger.affection_need f <? 0.3)).
  - destruct (Logger.dt_seconds_norm f >? 0.5); reflexivity.
  - destruct ((Logger.energy f >? 0.6) && (Logger.stress f <? 0.3));
      reflexivity.
Qed.

(** C2. For every feature vector the fallback engine selects the action
    of the priority ladder (sleep, ask-food, ask-pet, annoyed, sad or
    happy, play, idle, in this order of tests); in particular energy 0.1
    together with hunger 0.9 gives sleep. *)
Theorem fallback_priority_ladder :
  forall (f : Logger.Features) (output : BrainOutput),
    action_id (brain_fallback (Some f) output) = ladder_action f
    /\ (Logger.energy f = 0.1 -> Logger.hunger f = 0.9 ->
        action_id (brain_fallback (Some f) output) = ACTION_SLEEP).
Proof.
  intros f output. split; [apply brain_fallback_ladder|].
  intros He Hh. rewrite brain_fallback_ladder. unfold ladder_action.
  rewrite He. reflexivity.
Qed.

Lemma fallback_priority_ladder_witness :
  action_id
    (brain_fallback (Some tired_and_hungry)
       {| action_id := ACTION_IDLE; valence := 0.0; arousal := 0.3 |})
  = ACTION_SLEEP.
Proof.
  apply (proj2 (fallback_priority_ladder tired_and_hungry
                  {| action_id := ACTION_IDLE; valence := 0.0;
                     arousal := 0.3 |})); reflexivity.
Defined.

Lemma fold_left_pointwise {A B} (f g : A -> B -> A) (l : list B) :
  (forall a b, f a b = g a b) -> forall a, fold_left f l a = fold_left g l a.
Proof.
  intros H. induction l as [|b l IH]; intros a; [reflexivity|].
  cbn [fold_left]. rewrite H. apply IH.
Qed.

(** The engine consults [expf] only through its values. *)
Lemma softmax_pointwise e1 e2 input size :
  (forall x, e1 x = e2 x) -> softmax e1 input size = softmax e2 input size.
Proof.
  intros H. unfold softmax.
  set (max_val := fold_left _ (seq 1 (size - 1)) (input !!! 0%nat)).
  rewrite (fold_left_pointwise
             (fun '(input, sum) i =>
                let input := <[i := e1 (input !!! i - max_val)]> input in
                (input, sum + input !!! i))
             (fun '(input, sum) i =>
                let input := <[i := e2 (input !!! i - max_val)]> input in
                (input, sum + input !!! i))).
  - reflexivity.
  - intros [inp sum] i. cbv zeta. rewrite H. reflexivity.
Qed.

Lemma brain_layers_pointwise e1 e2 tanhf weights input :
  (forall x, e1 x = e2 x) ->
  brain_layers e1 tanhf weights input = brain_layers e2 tanhf weights input.
Proof.
  intros H. unfold brain_layers, sigmoid. cbv zeta. rewrite H. reflexivity.
Qed.

Lemma brain_infer_pointwise e1 e2 tanhf st learn f output :
  (forall x, e1 x = e2 x) ->
  brain_infer e1 tanhf st learn f output
  = brain_infer e2 tanhf st learn f output.
Proof.
  intros H. destruct f as [f|]; [|reflexivity].
  unfold brain_infer, brain_infer_raw. cbv zeta.
  rewrite (brain_layers_pointwise e1 e2) by exact H.
  rewrite (softmax_pointwise e1 e2) by exact H. reflexivity.
Qed.

Lemma brain_infer_as_documented_pointwise e1 e2 tanhf st learn f :
  (forall x, e1 x = e2 x) ->
  brain_infer_as_documented e1 tanhf st learn f
  = brain_infer_as_documented e2 tanhf st learn f.
Proof.
  intros H. unfold brain_infer_as_documented. cbv zeta.
  rewrite (brain_layers_pointwise e1 e2) by exact H.
  rewrite (softmax_pointwise e1 e2) by exact H. reflexivity.
Qed.

(** C3 (the code departs from it). [brain_infer] adds the learned bias
    to the outputs of [brain_infer_raw], which are already softmax
    probabilities.  Take the model [skewed_brain] (logit 200 for idle, 0
    elsewhere) and the learner [happy_trained], which sixteen rewards of
    the happy action and one apply produce (bias about 1.6 for happy,
    about -0.16 elsewhere).  With any [expf] that is 1 at zero and 0
    below -150, the code selects happy (0 + 1.6 against 1 - 0.16),
    whereas bias before softmax, as documented, selects idle
    (200 - 0.16 against 0 + 1.6). *)
Theorem bias_is_added_after_softmax :
  forall expf tanhf : float32 -> float32,
    expf 0.0 = 1.0 ->
    (forall x, (x <? - 150.0) = true -> expf x = 0.0) ->
    action_id
      (brain_infer expf tanhf skewed_brain happy_trained
         (Some Logger.zero_features)
         {| action_id := ACTION_IDLE; valence := 0.0; arousal := 0.3 |})
    = ACTION_HAPPY
    /\ action_id
         (brain_infer_as_documented expf tanhf skewed_brain happy_trained
            Logger.zero_features)
       = ACTION_IDLE.
Proof.
  intros expf tanhf H0 Hu.
  set (e' := fun x : float32 =>
               if x <? - 150.0 then 0.0
               else match x with S754_zero false => 1.0 | _ => expf x end).
  assert (He : forall x, expf x = e' x).
  { intros x. unfold e'. destruct (x <? - 150.0) eqn:E; [apply Hu; exact E|].
    destruct x as [[|]| | |]; try reflexivity. exact H0. }
  rewrite (brain_infer_pointwise expf e') by exact He.
  rewrite (brain_infer_as_documented_pointwise expf e') by exact He.
  split; lazy; reflexivity.
Qed.

Lemma bias_is_added_after_softmax_witness :
  action_id
    (brain_infer expf_table (fun x => x) skewed_brain happy_trained
       (Some Logger.zero_features)
       {| action_id := ACTION_IDLE; valence := 0.0; arousal := 0.3 |})
  = ACTION_HAPPY
  /\ action_id
       (brain_infer_as_documented expf_table (fun x => x) skewed_brain
          happy_trained Logger.zero_features)
     = ACTION_IDLE.
Proof.
  apply bias_is_added_after_softmax.
  - reflexivity.
  - intros x Hx. unfold expf_table. rewrite Hx. reflexivity.
Defined.

End BrainFacts.

(* ================================================================== *)
(** ** The event journal *)
(* ================================================================== *)

Ltac mod_lia := zify; Z.div_mod_to_equations; lia.

Section LoggerFacts.

Import Logger.

Lemma log_calls_snoc cs c st :
  log_calls (cs ++ [c]) st = log_call (log_calls cs st) c.
Proof. unfold log_calls. rewrite fold_left_app. reflexivity. Qed.

Lemma fill_entry_full entry c :
  fill_entry entry (lc_millis c) (lc_event c) (Some (lc_features c))
    (Some (lc_brain c)) (Some (lc_state c)) = record_of c.
Proof. reflexivity. Qed.

(** After [n] appends the head is at [n mod 100], the count is
    [min n 100], and each of the last 100 events sits in the slot of its
    number modulo 100. *)
Lemma log_calls_invariant cs :
  let st := log_calls cs (logger_init logger_static_init) in
  g_initialized st = true
  /\ length (g_buffer st) = 100%nat
  /\ g_head st = (Z.of_nat (length cs) mod 100)%Z
  /\ g_count st = Z.min (Z.of_nat (length cs)) 100
  /\ forall k c, cs !! k = Some c -> (length cs <= k + 100)%nat ->
       g_buffer st !! Z.to_nat (Z.of_nat k mod 100) = Some (record_of c).
Proof.
  induction cs as [|c cs IH] using rev_ind; cbv zeta.
  - repeat split; try reflexivity. intros k c H. discriminate.
  - rewrite log_calls_snoc, length_app. cbn [length].
    cbv zeta in IH. destruct IH as (Hi & Hl & Hh & Hc & Hb).
    set (st := log_calls cs (logger_init logger_static_init)) in *.
    set (n := length cs) in *.
    unfold log_call, logger_log_event. rewrite Hi. cbn [negb].
    rewrite fill_entry_full.
    cbn [g_initialized g_buffer g_head g_count].
    rewrite Hh, Hc. unfold LOG_MAX_EVENTS.
    split; [reflexivity|]. split; [rewrite length_insert; exact Hl|].
    split; [mod_lia|]. split.
    + destruct (Z.ltb_spec (Z.min (Z.of_nat n) 100) 100); lia.
    + intros k c' Hk Hn.
      destruct (decide (k = n)) as [->|Hne].
      * rewrite lookup_app_r in Hk by (unfold n; lia).
        replace (n - length cs)%nat with 0%nat in Hk by (unfold n; lia).
        injection Hk as <-.
        apply list_lookup_insert_eq. rewrite Hl. mod_lia.
      * assert (Hlt : (k < n)%nat).
        { apply lookup_lt_Some in Hk. rewrite length_app in Hk.
          cbn [length] in Hk. unfold n. lia. }
        rewrite lookup_app_l in Hk by (unfold n in Hlt; exact Hlt).
        rewrite list_lookup_insert_ne by mod_lia.
        apply Hb; [exact Hk|lia].
Qed.

Lemma logger_get_event_spec cs (i : Z) :
  let st := log_calls cs (logger_init logger_static_init) in
  (0 <= i < logger_get_count st)%Z ->
  exists c,
    cs !! (length cs - Z.to_nat (logger_get_count st) + Z.to_nat i)%nat = Some c
    /\ logger_get_event st i = Some (record_of c).
Proof.
  cbv zeta. intros Hi.
  destruct (log_calls_invariant cs) as (Hin & Hl & Hh & Hc & Hb).
  set (st := log_calls cs (logger_init logger_static_init)) in *.
  unfold logger_get_count in *. rewrite Hc in *.
  set (n := length cs) in *.
  set (k := (n - Z.to_nat (Z.min (Z.of_nat n) 100) + Z.to_nat i)%nat).
  assert (Hk : (k < n)%nat) by (unfold k; lia).
  destruct (lookup_lt_is_Some_2 cs k Hk) as [c Hck].
  exists c. split; [exact Hck|].
  unfold logger_get_event. rewrite Hin, Hc, Hh. cbn [negb orb].
  destruct (Z.leb_spec (Z.min (Z.of_nat n) 100) i); [lia|].
  unfold LOG_MAX_EVENTS. f_equal.
  apply list_lookup_total_correct.
  specialize (Hb k c Hck ltac:(unfold k; lia)).
  rewrite <- Hb. f_equal.
  destruct (Z.eqb_spec (Z.min (Z.of_nat n) 100) 100); unfold k; mod_lia.
Qed.

(** C6. The journal never holds more than 100 records; after [n]
    appends it holds [min n 100], and index [i] returns the record
    written by append number [n - count + i] (counting from 0), that is
    oldest first, the older ones having been overwritten.  After 150
    appends it holds exactly 100 records and index 0 returns the record
    of the 51st append. *)
Theorem journal_ring_buffer :
  forall cs : list LogCall,
    let st := log_calls cs (logger_init logger_static_init) in
    (logger_get_count st <= LOG_MAX_EVENTS)%Z
    /\ logger_get_count st = Z.min (Z.of_nat (length cs)) LOG_MAX_EVENTS
    /\ (forall i, (0 <= i < logger_get_count st)%Z ->
          exists c,
            cs !! (length cs - Z.to_nat (logger_get_count st) + Z.to_nat i)%nat
              = Some c
            /\ logger_get_event st i = Some (record_of c))
    /\ (length cs = 150%nat ->
          logger_get_count st = 100%Z
          /\ exists c, cs !! 50%nat = Some c
                       /\ logger_get_event st 0 = Some (record_of c)).
Proof.
  intros cs st.
  destruct (log_calls_invariant cs) as (_ & _ & _ & Hc & _). fold st in Hc.
  unfold logger_get_count, LOG_MAX_EVENTS. rewrite Hc.
  split; [lia|]. split; [reflexivity|]. split.
  - intros i Hi.
    destruct (logger_get_event_spec cs i) as (c & H1 & H2).
    { fold st. unfold logger_get_count. rewrite Hc. exact Hi. }
    fold st in H1, H2. unfold logger_get_count in H1. rewrite Hc in H1.
    exists c. split; assumption.
  - intros Hn. rewrite Hn. split; [reflexivity|].
    destruct (logger_get_event_spec cs 0) as (c & H1 & H2).
    { fold st. unfold logger_get_count. rewrite Hc, Hn. lia. }
    fold st in H1, H2. unfold logger_get_count in H1.
    rewrite Hc, Hn in H1. exists c. split; assumption.
Qed.

Lemma journal_ring_buffer_witness :
  logger_get_count (log_calls sample_calls (logger_init logger_static_init))
  = 100%Z
  /\ logger_get_event
       (log_calls sample_calls (logger_init logger_static_init)) 0
     = Some (record_of (sample_call 51)).
Proof.
  destruct (journal_ring_buffer sample_calls) as (_ & _ & _ & H).
  destruct (H eq_refl) as (Hc & c & Hl & Hg).
  split; [exact Hc|].
  vm_compute in Hl. injection Hl as <-. exact Hg.
Defined.

End LoggerFacts.

(* ================================================================== *)
(** ** Loading a model *)
(* ================================================================== *)

Section LoadFacts.

Import Brain Main.

Lemma lookup_map_seq {A} (f : nat -> A) (n i : nat) : forall s,
  (i < n)%nat -> map f (seq s n) !! i = Some (f (s + i)%nat).
Proof.
  revert i. induction n as [|n IH]; intros i s Hi; [lia|].
  destruct i as [|i]; cbn [seq map].
  - cbn. f_equal. f_equal. lia.
  - change ((f s :: map f (seq (S s) n)) !! S i)
      with (map f (seq (S s) n) !! i).
    rewrite (IH i (S s)) by lia. f_equal. f_equal. lia.
Qed.

Lemma lookup_total_map_seq {A} `{Inhabited A} (f : nat -> A) (n i : nat) :
  (i < n)%nat -> map f (seq 0 n) !!! i = f i.
Proof.
  intros Hi. apply list_lookup_total_correct.
  rewrite lookup_map_seq by exact Hi. reflexivity.
Qed.

Lemma load_matrix_entry data idx rows cols i j :
  (i < rows)%nat -> (j < cols)%nat ->
  (load_matrix data idx rows cols !!! i) !!! j
  = fdata data (idx + i * cols + j).
Proof.
  intros Hi Hj. unfold load_matrix.
  rewrite lookup_total_map_seq by exact Hi.
  rewrite lookup_total_map_seq by exact Hj. reflexivity.
Qed.

Lemma load_vector_entry data idx len j :
  (j < len)%nat -> load_vector data idx len !!! j = fdata data (idx + j).
Proof.
  intros Hj. unfold load_vector.
  rewrite lookup_total_map_seq by exact Hj. reflexivity.
Qed.

(** C4. The serialized model takes 1516 bytes (a 4-byte version and 378
    floats).  A shorter buffer, one of 1515 bytes in particular, is
    refused: [brain_load_weights] returns false with the weights, the
    version and the loaded flag as they were, and the upload hook leaves
    the engine, fallback flag included, as it was.  A buffer of at least
    1516 bytes is accepted: every entry of both matrices and both bias
    vectors is read from the buffer in row-major order, the version is
    its first word, and the upload hook switches the fallback flag
    off. *)
Theorem brain_load_weights_size_check :
  forall (eng : Engine) (data : list Byte.byte),
    (expected_size + 4 = 1516)%Z
    /\ ((length data < 1516)%nat ->
        brain_load_weights (brain eng) data = (false, brain eng)
        /\ on_model_uploaded eng data true = eng)
    /\ (length data = 1515%nat ->
        brain_load_weights (brain eng) data = (false, brain eng)
        /\ on_model_uploaded eng data true = eng)
    /\ ((1516 <= length data)%nat ->
        let st' := snd (brain_load_weights (brain eng) data) in
        fst (brain_load_weights (brain eng) data) = true
        /\ g_custom_model_loaded st' = true
        /\ g_model_version st' = word_at data 0
        /\ (forall i j, (i < 12)%nat -> (j < 16)%nat ->
              (w1 (g_weights st') !!! i) !!! j = fdata data (i * 16 + j))
        /\ (forall j, (j < 16)%nat ->
              b1 (g_weights st') !!! j = fdata data (192 + j))
        /\ (forall i j, (i < 16)%nat -> (j < 10)%nat ->
              (w2 (g_weights st') !!! i) !!! j = fdata data (208 + i * 10 + j))
        /\ (forall j, (j < 10)%nat ->
              b2 (g_weights st') !!! j = fdata data (368 + j))
        /\ on_model_uploaded eng data true
           = {| brain := st'; g_use_fallback_brain := false |}).
Proof.
  intros eng data.
  assert (Short : (length data < 1516)%nat ->
            brain_load_weights (brain eng) data = (false, brain eng)
            /\ on_model_uploaded eng data true = eng).
  { intros Hlen.
    assert (E : brain_load_weights (brain eng) data = (false, brain eng)).
    { unfold brain_load_weights.
      change (expected_size + 4)%Z with 1516%Z.
      destruct (Z.ltb_spec (Z.of_nat (length data)) 1516); [reflexivity|lia]. }
    split; [exact E|].
    unfold on_model_uploaded. rewrite E. destruct eng; reflexivity. }
  split; [reflexivity|]. split; [exact Short|].
  split; [intros Hlen; apply Short; lia|].
  intros Hlen. cbv zeta.
  assert (E : brain_load_weights (brain eng) data
              = (true,
                 {| g_weights :=
                      {| w1 := load_matrix data 0 12 16;
                         b1 := load_vector data 192 16;
                         w2 := load_matrix data 208 16 10;
                         b2 := load_vector data 368 10 |};
                    g_custom_model_loaded := true;
                    g_model_version := word_at data 0 |})).
  { unfold brain_load_weights.
    change (expected_size + 4)%Z with 1516%Z.
    destruct (Z.ltb_spec (Z.of_nat (length data)) 1516); [lia|reflexivity]. }
  unfold on_model_uploaded. rewrite E.
  cbn [fst snd g_weights g_custom_model_loaded g_model_version w1 b1 w2 b2].
  repeat split.
  - intros i j Hi Hj. rewrite load_matrix_entry by assumption. reflexivity.
  - intros j Hj. apply load_vector_entry. exact Hj.
  - intros i j Hi Hj. rewrite load_matrix_entry by assumption. reflexivity.
  - intros j Hj. apply load_vector_entry. exact Hj.
Qed.

Lemma brain_load_weights_size_check_witness :
  let eng := {| brain := skewed_brain; g_use_fallback_brain := true |} in
  let st' := snd (brain_load_weights skewed_brain sample_model) in
  (brain_load_weights skewed_brain (repeat Byte.x00 1515)
   = (false, skewed_brain)
   /\ on_model_uploaded eng (repeat Byte.x00 1515) true = eng)
  /\ length sample_model = 1516%nat
  /\ fst (brain_load_weights skewed_brain sample_model) = true
  /\ g_custom_model_loaded st' = true
  /\ g_model_version st' = 7%Z
  /\ (w1 (g_weights st') !!! 0%nat) !!! 1%nat = of_bits (0x3F800000 + 1)
  /\ (w1 (g_weights st') !!! 11%nat) !!! 15%nat = of_bits (0x3F800000 + 191)
  /\ b1 (g_weights st') !!! 0%nat = of_bits (0x3F800000 + 192)
  /\ (w2 (g_weights st') !!! 1%nat) !!! 0%nat = of_bits (0x3F800000 + 218)
  /\ b2 (g_weights st') !!! 9%nat = of_bits (0x3F800000 + 377)
  /\ on_model_uploaded eng sample_model true
     = {| brain := st'; g_use_fallback_brain := false |}.
Proof.
  intros eng st'.
  destruct (brain_load_weights_size_check eng sample_model)
    as (_ & _ & _ & Long).
  destruct (Long ltac:(vm_compute; lia))
    as (Hok & Hl & Hv & Hw1 & Hb1 & Hw2 & Hb2 & Hup).
  cbv zeta in Hl, Hv, Hw1, Hb1, Hw2, Hb2, Hup.
  subst st'. unfold eng in Hok, Hl, Hv, Hw1, Hb1, Hw2, Hb2, Hup.
  cbn [brain] in Hok, Hl, Hv, Hw1, Hb1, Hw2, Hb2, Hup.
  split.
  - refine (proj1 (proj2 (proj2 (brain_load_weights_size_check eng
              (repeat Byte.x00 1515)))) _).
    reflexivity.
  - split; [reflexivity|]. split; [exact Hok|]. split; [exact Hl|].
    split; [rewrite Hv; reflexivity|].
    split; [rewrite Hw1 by lia; reflexivity|].
    split; [rewrite Hw1 by lia; reflexivity|].
    split; [rewrite Hb1 by lia; reflexivity|].
    split; [rewrite Hw2 by lia; reflexivity|].
    split; [rewrite Hb2 by lia; reflexivity|].
    exact Hup.
Defined.

End LoadFacts.

(* ================================================================== *)
(** ** The gesture recognizer *)
(* ================================================================== *)

Section ButtonsFacts.

Import Buttons.
Local Open Scope Z_scope.

(** *** One button *)

Lemma debounce_fields config s raw t :
  let s1 := fst (debounce config s raw t) in
  current_state s1 = current_state s
  /\ press_start_ms s1 = press_start_ms s
  /\ press_count s1 = press_count s
  /\ pending_event s1 = pending_event s
  /\ release_time_ms s1 = release_time_ms s.
Proof.
  unfold debounce. destruct (negb (Bool.eqb raw (last_raw_state s)));
    cbn; repeat split; reflexivity.
Qed.

Lemma resolve_level config s debounced t :
  current_state (fst (resolve config s debounced t)) = debounced.
Proof.
  unfold resolve. destruct s as [c lr lc ps pc pe rt]. cbn.
  destruct c, debounced; cbn;
    repeat match goal with
           | |- context [if ?b then _ else _] => destruct b; cbn
           end; reflexivity.
Qed.

Lemma update_button_level config s raw t :
  level_of (update_button config s raw t) = snd (debounce config s raw t).
Proof.
  unfold level_of, update_button.
  destruct (debounce config s raw t) as [s1 d]. apply resolve_level.
Qed.

(** What a poll does to the gesture fields, by the level it leaves. *)
Ltac open_step s Hl s1 :=
  unfold level_of, update_button in *;
  match goal with
  | |- context [debounce ?c s ?r ?t] =>
      let F := fresh "F" in
      let d := fresh "d" in
      pose proof (debounce_fields c s r t) as F;
      destruct (debounce c s r t) as [s1 d];
      cbn [fst snd] in F;
      rewrite resolve_level in Hl; subst d;
      destruct F as (? & ? & ? & ? & ?)
  end.

Lemma step_rest config s raw t :
  at_rest s ->
  level_of (update_button config s raw t) = false ->
  at_rest (fst (update_button config s raw t))
  /\ snd (update_button config s raw t) = [].
Proof.
  intros (Hc & Hn & Hp) Hl. open_step s Hl s1.
  rewrite Hc, Hn, Hp in *.
  destruct s1 as [c lr lc ps pc pe rt]. cbn in *. subst.
  unfold resolve, at_rest. cbn. repeat split; reflexivity.
Qed.

Lemma step_press config s raw t :
  at_rest s ->
  level_of (update_button config s raw t) = true ->
  held 1 false t (fst (update_button config s raw t))
  /\ snd (update_button config s raw t) = [].
Proof.
  intros (Hc & Hn & Hp) Hl. open_step s Hl s1.
  rewrite Hc, Hn, Hp in *.
  destruct s1 as [c lr lc ps pc pe rt]. cbn in *. subst.
  unfold resolve, held. cbn. repeat split; reflexivity.
Qed.

Lemma step_hold config s raw t count pending start :
  held count pending start s ->
  level_of (update_button config s raw t) = true ->
  held count pending start (fst (update_button config s raw t))
  /\ snd (update_button config s raw t) = [].
Proof.
  intros (Hc & Hn & Hp & Hs) Hl. open_step s Hl s1.
  rewrite Hc, Hn, Hp, Hs in *.
  destruct s1 as [c lr lc ps pc pe rt]. cbn in *. subst.
  unfold resolve, held. cbn. rewrite andb_false_r. cbn.
  repeat split; reflexivity.
Qed.

Lemma u32_diag t : u32 (t - t) = 0.
Proof. rewrite Z.sub_diag. reflexivity. Qed.

Lemma step_release_short config s raw t start :
  held 1 false start s ->
  level_of (update_button config s raw t) = false ->
  u32 (t - start) < long_press_ms config ->
  0 < double_press_ms config ->
  waiting t (fst (update_button config s raw t))
  /\ snd (update_button config s raw t) = [].
Proof.
  intros (Hc & Hn & Hp & Hs) Hl Hlong Hdbl. open_step s Hl s1.
  rewrite Hc, Hn, Hp, Hs in *.
  destruct s1 as [c lr lc ps pc pe rt]. cbn in *. subst.
  unfold resolve, waiting. cbn.
  apply Z.leb_gt in Hlong. rewrite Hlong. cbn.
  rewrite u32_diag. apply Z.leb_gt in Hdbl. rewrite Hdbl. cbn.
  repeat split; reflexivity.
Qed.

Lemma step_wait config s raw t release :
  waiting release s ->
  level_of (update_button config s raw t) = false ->
  u32 (t - release) < double_press_ms config ->
  waiting release (fst (update_button config s raw t))
  /\ snd (update_button config s raw t) = [].
Proof.
  intros (Hc & Hn & Hp & Hs) Hl Hdbl. open_step s Hl s1.
  rewrite Hc, Hn, Hp, Hs in *.
  destruct s1 as [c lr lc ps pc pe rt]. cbn in *. subst.
  unfold resolve, waiting. cbn.
  apply Z.leb_gt in Hdbl. rewrite Hdbl. cbn.
  repeat split; reflexivity.
Qed.

Lemma step_press_again config s raw t release :
  waiting release s ->
  level_of (update_button config s raw t) = true ->
  held 2 true t (fst (update_button config s raw t))
  /\ snd (update_button config s raw t) = [].
Proof.
  intros (Hc & Hn & Hp & Hs) Hl. open_step s Hl s1.
  rewrite Hc, Hn, Hp, Hs in *.
  destruct s1 as [c lr lc ps pc pe rt]. cbn in *. subst.
  unfold resolve, held. cbn. repeat split; reflexivity.
Qed.

Lemma step_release_double config s raw t start :
  held 2 true start s ->
  level_of (update_button config s raw t) = false ->
  u32 (t - start) < long_press_ms config ->
  at_rest (fst (update_button config s raw t))
  /\ snd (update_button config s raw t) = [GESTURE_DOUBLE].
Proof.
  intros (Hc & Hn & Hp & Hs) Hl Hlong. open_step s Hl s1.
  rewrite Hc, Hn, Hp, Hs in *.
  destruct s1 as [c lr lc ps pc pe rt]. cbn in *. subst.
  unfold resolve, at_rest. cbn.
  apply Z.leb_gt in Hlong. rewrite Hlong. cbn.
  repeat split; reflexivity.
Qed.

(** *** Runs of one button *)

Lemma button_run_app config polls1 polls2 : forall s,
  button_run config s (polls1 ++ polls2)
  = button_run config s polls1
    ++ button_run config (button_final config s polls1) polls2.
Proof.
  induction polls1 as [|[t raw] polls1 IH]; intros s; [reflexivity|].
  cbn [app button_run button_final fold_left]. rewrite IH. reflexivity.
Qed.

Lemma button_run_length config polls : forall s,
  length (button_run config s polls) = length polls.
Proof.
  induction polls as [|[t raw] polls IH]; intros s; [reflexivity|].
  cbn [button_run length]. rewrite IH. reflexivity.
Qed.

(** Splitting the levels of a run along its polls. *)
Lemma levels_app_inv config s polls1 polls2 l1 l2 :
  map level_of (button_run config s (polls1 ++ polls2)) = l1 ++ l2 ->
  length l1 = length polls1 ->
  map level_of (button_run config s polls1) = l1
  /\ map level_of
       (button_run config (button_final config s polls1) polls2) = l2.
Proof.
  intros H Hlen. rewrite button_run_app, map_app in H.
  apply app_inj_1 in H; [exact H|].
  rewrite length_map, button_run_length. symmetry. exact Hlen.
Qed.

Lemma levels_cons_inv config s t raw polls l ls :
  map level_of (button_run config s ((t, raw) :: polls)) = l :: ls ->
  level_of (update_button config s raw t) = l
  /\ map level_of
       (button_run config (fst (update_button config s raw t)) polls) = ls.
Proof.
  cbn [button_run map]. intros H. injection H as H1 H2. split; assumption.
Qed.

(** A stretch of polls that leaves the level as it is changes nothing
    and emits nothing, in each of the three phases. *)
Lemma stretch_rest config polls : forall s,
  at_rest s ->
  map level_of (button_run config s polls) = repeat false (length polls) ->
  at_rest (button_final config s polls)
  /\ concat (map snd (button_run config s polls)) = [].
Proof.
  induction polls as [|[t raw] polls IH]; intros s Hs Hl.
  - split; [exact Hs|reflexivity].
  - cbn [length repeat] in Hl. apply levels_cons_inv in Hl.
    destruct Hl as [Hl1 Hl2].
    destruct (step_rest config s raw t Hs Hl1) as [Hs' Hg].
    destruct (IH _ Hs' Hl2) as [Hf Hc].
    cbn [button_final fold_left button_run map concat].
    split; [exact Hf|]. rewrite Hg, Hc. reflexivity.
Qed.

Lemma stretch_held config count pending start polls : forall s,
  held count pending start s ->
  map level_of (button_run config s polls) = repeat true (length polls) ->
  held count pending start (button_final config s polls)
  /\ concat (map snd (button_run config s polls)) = [].
Proof.
  induction polls as [|[t raw] polls IH]; intros s Hs Hl.
  - split; [exact Hs|reflexivity].
  - cbn [length repeat] in Hl. apply levels_cons_inv in Hl.
    destruct Hl as [Hl1 Hl2].
    destruct (step_hold config s raw t _ _ _ Hs Hl1) as [Hs' Hg].
    destruct (IH _ Hs' Hl2) as [Hf Hc].
    cbn [button_final fold_left button_run map concat].
    split; [exact Hf|]. rewrite Hg, Hc. reflexivity.
Qed.

Lemma stretch_wait config release polls : forall s,
  waiting release s ->
  map level_of (button_run config s polls) = repeat false (length polls) ->
  Forall (fun p => u32 (fst p - release) < double_press_ms config) polls ->
  waiting release (button_final config s polls)
  /\ concat (map snd (button_run config s polls)) = [].
Proof.
  induction polls as [|[t raw] polls IH]; intros s Hs Hl Ht.
  - split; [exact Hs|reflexivity].
  - cbn [length repeat] in Hl. apply levels_cons_inv in Hl.
    destruct Hl as [Hl1 Hl2].
    inversion Ht as [|? ? Ht1 Ht2]; subst. cbn [fst] in Ht1.
    destruct (step_wait config s raw t _ Hs Hl1 Ht1) as [Hs' Hg].
    destruct (IH _ Hs' Hl2 Ht2) as [Hf Hc].
    cbn [button_final fold_left button_run map concat].
    split; [exact Hf|]. rewrite Hg, Hc. reflexivity.
Qed.

Lemma button_final_app config polls1 polls2 s :
  button_final config s (polls1 ++ polls2)
  = button_final config (button_final config s polls1) polls2.
Proof. unfold button_final. apply fold_left_app. Qed.

Lemma button_final_cons config t raw polls s :
  button_final config s ((t, raw) :: polls)
  = button_final config (fst (update_button config s raw t)) polls.
Proof. reflexivity. Qed.

(** The double press, for one button: one double gesture at the second
    release, the button back at rest, and nothing more while it stays
    released. *)
Lemma double_press_button config s rest0 held1 wait held2 idle
    t1 x1 t2 x2 t3 x3 t4 x4 :
  let polls :=
    rest0 ++ (t1, x1) :: held1 ++ (t2, x2) :: wait
          ++ (t3, x3) :: held2 ++ (t4, x4) :: idle in
  at_rest s ->
  map level_of (button_run config s polls)
  = repeat false (length rest0) ++ true :: repeat true (length held1)
    ++ false :: repeat false (length wait)
    ++ true :: repeat true (length held2)
    ++ false :: repeat false (length idle) ->
  u32 (t2 - t1) < long_press_ms config ->
  0 < double_press_ms config ->
  Forall (fun p => u32 (fst p - t2) < double_press_ms config) wait ->
  u32 (t4 - t3) < long_press_ms config ->
  concat (map snd (button_run config s polls)) = [GESTURE_DOUBLE]
  /\ at_rest (button_final config s polls).
Proof.
  intros polls Hs Hl H21 Hd Hw H43. unfold polls in *. clear polls.
  (* at rest *)
  apply levels_app_inv in Hl; [|apply repeat_length].
  destruct Hl as [L0 Hl].
  destruct (stretch_rest config rest0 s Hs L0) as [S0 G0].
  set (s0 := button_final config s rest0) in *.
  (* first press *)
  apply levels_cons_inv in Hl. destruct Hl as [L1 Hl].
  destruct (step_press config s0 x1 t1 S0 L1) as [S1 G1].
  set (s1 := fst (update_button config s0 x1 t1)) in *.
  apply levels_app_inv in Hl; [|apply repeat_length].
  destruct Hl as [L2 Hl].
  destruct (stretch_held config _ _ _ held1 s1 S1 L2) as [S2 G2].
  set (s2 := button_final config s1 held1) in *.
  (* first release *)
  apply levels_cons_inv in Hl. destruct Hl as [L3 Hl].
  destruct (step_release_short config s2 x2 t2 t1 S2 L3 H21 Hd) as [S3 G3].
  set (s3 := fst (update_button config s2 x2 t2)) in *.
  apply levels_app_inv in Hl; [|apply repeat_length].
  destruct Hl as [L4 Hl].
  destruct (stretch_wait config t2 wait s3 S3 L4 Hw) as [S4 G4].
  set (s4 := button_final config s3 wait) in *.
  (* second press *)
  apply levels_cons_inv in Hl. destruct Hl as [L5 Hl].
  destruct (step_press_again config s4 x3 t3 t2 S4 L5) as [S5 G5].
  set (s5 := fst (update_button config s4 x3 t3)) in *.
  apply levels_app_inv in Hl; [|apply repeat_length].
  destruct Hl as [L6 Hl].
  destruct (stretch_held config _ _ _ held2 s5 S5 L6) as [S6 G6].
  set (s6 := button_final config s5 held2) in *.
  (* second release *)
  apply levels_cons_inv in Hl. destruct Hl as [L7 Hl].
  destruct (step_release_double config s6 x4 t4 t3 S6 L7 H43) as [S7 G7].
  set (s7 := fst (update_button config s6 x4 t4)) in *.
  (* released from then on *)
  destruct (stretch_rest config idle s7 S7 Hl) as [S8 G8].
  split.
  - (* the gestures of the whole run *)
    rewrite button_run_app, map_app, concat_app, G0. fold s0.
    cbn [button_run map concat app]. fold s1. rewrite G1.
    rewrite button_run_app, map_app, concat_app, G2. fold s2.
    cbn [button_run map concat app]. fold s3. rewrite G3.
    rewrite button_run_app, map_app, concat_app, G4. fold s4.
    cbn [button_run map concat app]. fold s5. rewrite G5.
    rewrite button_run_app, map_app, concat_app, G6. fold s6.
    cbn [button_run map concat app]. fold s7. rewrite G7, G8. reflexivity.
  - (* the state it ends in *)
    rewrite button_final_app. fold s0.
    rewrite button_final_cons. fold s1.
    rewrite button_final_app. fold s2.
    rewrite button_final_cons. fold s3.
    rewrite button_final_app. fold s4.
    rewrite button_final_cons. fold s5.
    rewrite button_final_app. fold s6.
    rewrite button_final_cons. fold s7. exact S8.
Qed.

(** *** Both buttons *)

Lemma fold_emit_fields b t gestures : forall g,
  g_state (fold_left (fun g k => emit_event g b k t) gestures g) = g_state g
  /\ g_config (fold_left (fun g k => emit_event g b k t) gestures g)
     = g_config g.
Proof.
  induction gestures as [|k gestures IH]; intros g; cbn [fold_left].
  - split; reflexivity.
  - destruct (IH (emit_event g b k t)) as [H1 H2]. rewrite H1, H2.
    unfold emit_event. destruct (g_callback g); split; reflexivity.
Qed.

(** One call of [buttons_update] runs the loop body once per button, on
    that button's own state. *)
Lemma buttons_update_spec g raw t s0 s1 :
  g_state g = [s0; s1] ->
  let r0 := update_button (g_config g) s0 (raw BUTTON_FEED) t in
  let r1 := update_button (g_config g) s1 (raw BUTTON_PET) t in
  exists generated g',
    buttons_update g raw t
    = (generated, g',
       map (event_of BUTTON_FEED t) (snd r0)
       ++ map (event_of BUTTON_PET t) (snd r1))
    /\ g_config g' = g_config g
    /\ g_state g' = [fst r0; fst r1].
Proof.
  intros Hg r0 r1. unfold buttons_update. cbn [fold_left button_index].
  rewrite Hg. change ([s0; s1] !!! 0%nat) with s0. fold r0.
  destruct r0 as [s0' gs0] eqn:E0.
  set (g1 := fold_left _ gs0 (set_button g 0 s0')).
  destruct (fold_emit_fields BUTTON_FEED t gs0 (set_button g 0 s0'))
    as [H1 H2].
  fold g1 in H1, H2. cbn [set_button g_state g_config] in H1, H2.
  rewrite Hg in H1. change (<[0%nat := s0']> [s0; s1]) with [s0'; s1] in H1.
  rewrite H1, H2. cbn [button_index].
  change ([s0'; s1] !!! 1%nat) with s1. fold r1.
  destruct r1 as [s1' gs1] eqn:E1.
  set (g2 := fold_left _ gs1 (set_button g1 1 s1')).
  destruct (fold_emit_fields BUTTON_PET t gs1 (set_button g1 1 s1'))
    as [H3 H4].
  fold g2 in H3, H4. cbn [set_button g_state g_config] in H3, H4.
  rewrite H1 in H3. change (<[1%nat := s1']> [s0'; s1]) with [s0'; s1'] in H3.
  eexists _, g2. split; [reflexivity|]. cbn [fst snd].
  split; [rewrite H4; exact H2|exact H3].
Qed.

Lemma filter_events_same b t gs :
  map gesture
    (filter (fun ev => ButtonId_eqb (button ev) b = true)
       (map (event_of b t) gs)) = gs.
Proof.
  induction gs as [|k gs IH]; [reflexivity|].
  cbn [map]. rewrite filter_cons_True by (destruct b; reflexivity).
  cbn [map gesture event_of]. rewrite IH. reflexivity.
Qed.

Lemma filter_events_other b b' t gs :
  ButtonId_eqb b' b = false ->
  filter (fun ev => ButtonId_eqb (button ev) b = true)
    (map (event_of b' t) gs) = [].
Proof.
  intros H. induction gs as [|k gs IH]; [reflexivity|].
  cbn [map]. rewrite filter_cons_False; [exact IH|].
  cbn [button event_of]. rewrite H. discriminate.
Qed.

(** A run of [buttons_update] calls is, for each button, the run of the
    loop body on that button's view of the polls. *)
Lemma run_updates_view b polls : forall g s0 s1,
  g_state g = [s0; s1] ->
  levels b g polls
  = map level_of
      (button_run (g_config g) (g_state g !!! button_index b)
         (button_view b polls))
  /\ gestures_of b (snd (run_updates g polls))
     = concat (map snd
         (button_run (g_config g) (g_state g !!! button_index b)
            (button_view b polls)))
  /\ g_state (fst (run_updates g polls)) !!! button_index b
     = button_final (g_config g) (g_state g !!! button_index b)
         (button_view b polls).
Proof.
  induction polls as [|p polls IH]; intros g s0 s1 Hg;
    [split; [|split]; reflexivity|].
  cbn [levels run_updates button_view map button_run].
  rewrite button_final_cons.
  destruct (buttons_update_spec g (raw_level p) (now p) s0 s1 Hg)
    as (generated & g' & E & Hc & Hs).
  rewrite E.
  destruct (IH g' _ _ Hs) as (IHl & IHg & IHf).
  destruct (run_updates g' polls) as [g'' later] eqn:R.
  cbn [fst snd] in IHg, IHf |- *. rewrite IHl, IHf.
  rewrite Hc, Hs in IHg |- *.
  rewrite Hg. unfold gestures_of in *. cbn [concat].
  rewrite filter_app, map_app, IHg, filter_app, map_app.
  unfold buttons_is_pressed. rewrite Hs.
  destruct b; cbn [button_index].
  - change ([s0; s1] !!! 0%nat) with s0.
    set (r0 := update_button (g_config g) s0 (raw_level p BUTTON_FEED) (now p)).
    set (r1 := update_button (g_config g) s1 (raw_level p BUTTON_PET) (now p)).
    change ([r0.1; r1.1] !!! 0%nat) with (fst r0).
    rewrite filter_events_same, filter_events_other by reflexivity.
    cbn [map]. rewrite app_nil_r. split; [|split]; reflexivity.
  - change ([s0; s1] !!! 1%nat) with s1.
    set (r0 := update_button (g_config g) s0 (raw_level p BUTTON_FEED) (now p)).
    set (r1 := update_button (g_config g) s1 (raw_level p BUTTON_PET) (now p)).
    change ([r0.1; r1.1] !!! 1%nat) with (fst r1).
    rewrite filter_events_same, filter_events_other by reflexivity.
    cbn [map app]. split; [|split]; reflexivity.
Qed.

(** *** The clock *)

Lemma sorted_between (l1 l2 l3 : list Z) (x y : Z) :
  StronglySorted Z.lt (l1 ++ x :: l2 ++ y :: l3) ->
  x < y /\ Forall (fun c => x < c < y) l2.
Proof.
  intros H. apply StronglySorted_app_1_r in H.
  apply StronglySorted_inv in H. destruct H as [H1 H2].
  apply Forall_app in H2. destruct H2 as [H2 H3].
  apply Forall_cons in H3. destruct H3 as [H3 _].
  split; [exact H3|].
  apply Forall_forall. intros c Hc. split.
  - rewrite Forall_forall in H2. apply H2. exact Hc.
  - apply (StronglySorted_app_1_elem_of _ _ _ c y H1 Hc).
    apply list_elem_of_here.
Qed.

Lemma u32_small z : 0 <= z < 2 ^ 32 -> u32 z = z.
Proof. intros H. unfold u32. apply Z.mod_small. exact H. Qed.

(** C5, amended. A button at rest (released, no press sequence under
    way) is pressed and released before the long-press threshold,
    pressed again with the second press detected no later than the
    double-press window after that release, released again before the
    long-press threshold, and then left released for any number of
    further polls (the clock running strictly forward within 32 bits).
    Then the whole run emits, for that button, exactly one gesture, a
    double, and leaves the button at rest: no short gesture for either
    press, neither during the sequence nor afterwards.  Press and
    release are the debounced edges, that is the changes of the level
    [levels] reports. *)
Theorem double_press_gesture :
  forall (g : ButtonsState) (b : ButtonId)
         (rest0 held1 wait held2 idle : list poll) (p1 r1 p2 r2 : poll),
    let polls :=
      rest0 ++ p1 :: held1 ++ r1 :: wait ++ p2 :: held2 ++ r2 :: idle in
    length (g_state g) = 2%nat ->
    at_rest (g_state g !!! button_index b) ->
    Forall (fun p => 0 <= now p < 2 ^ 32) polls ->
    StronglySorted Z.lt (map now polls) ->
    levels b g polls
    = repeat false (length rest0) ++ true :: repeat true (length held1)
      ++ false :: repeat false (length wait)
      ++ true :: repeat true (length held2)
      ++ false :: repeat false (length idle) ->
    now r1 - now p1 < long_press_ms (g_config g) ->
    now p2 - now r1 <= double_press_ms (g_config g) ->
    now r2 - now p2 < long_press_ms (g_config g) ->
    gestures_of b (snd (run_updates g polls)) = [GESTURE_DOUBLE]
    /\ at_rest (g_state (fst (run_updates g polls)) !!! button_index b).
Proof.
  intros g b rest0 held1 wait held2 idle p1 r1 p2 r2 polls
         Hlen Hrest Hrange Hsorted Hlevels H21 H32 H43.
  destruct (g_state g) as [|s0 [|s1 [|]]] eqn:Hg; try discriminate Hlen.
  destruct (run_updates_view b polls g s0 s1 Hg) as (HL & HG & HF).
  rewrite HG, HF. rewrite HL in Hlevels. rewrite Hg in *. clear HL HG HF.
  (* the clock readings at the four edges *)
  unfold polls in Hsorted.
  repeat (rewrite map_app in Hsorted; cbn [map] in Hsorted).
  assert (T1 : now p1 < now r1
               /\ Forall (fun c => now p1 < c < now r1) (map now held1)).
  { exact (sorted_between (map now rest0) (map now held1)
             (map now wait ++ now p2 :: map now held2
              ++ now r2 :: map now idle)
             _ _ Hsorted). }
  assert (T2 : now r1 < now p2
               /\ Forall (fun c => now r1 < c < now p2) (map now wait)).
  { apply (sorted_between (map now rest0 ++ now p1 :: map now held1)
             (map now wait) (map now held2 ++ now r2 :: map now idle)).
    rewrite <- app_assoc. cbn [app]. exact Hsorted. }
  assert (T3 : now p2 < now r2
               /\ Forall (fun c => now p2 < c < now r2) (map now held2)).
  { apply (sorted_between
             (map now rest0 ++ now p1 :: map now held1
              ++ now r1 :: map now wait)
             (map now held2) (map now idle)).
    rewrite <- app_assoc. cbn [app]. rewrite <- app_assoc. cbn [app].
    exact Hsorted. }
  destruct T1 as [T1 _], T2 as [T2 T2w], T3 as [T3 _].
  (* the clock stays within 32 bits *)
  unfold polls in Hrange.
  apply Forall_app in Hrange. destruct Hrange as [_ Hrange].
  apply Forall_cons in Hrange. destruct Hrange as [R1 Hrange].
  apply Forall_app in Hrange. destruct Hrange as [_ Hrange].
  apply Forall_cons in Hrange. destruct Hrange as [R2 Hrange].
  apply Forall_app in Hrange. destruct Hrange as [Rw Hrange].
  apply Forall_cons in Hrange. destruct Hrange as [R3 Hrange].
  apply Forall_app in Hrange. destruct Hrange as [_ Hrange].
  apply Forall_cons in Hrange. destruct Hrange as [R4 _].
  (* one button *)
  unfold polls, button_view in *.
  rewrite !map_app in *. cbn [map] in *.
  rewrite !map_app in *. cbn [map] in *.
  rewrite !map_app in *. cbn [map] in *.
  rewrite !map_app in *. cbn [map] in *.
  rewrite <- (length_map (fun p => (now p, raw_level p b)) rest0) in Hlevels.
  rewrite <- (length_map (fun p => (now p, raw_level p b)) held1) in Hlevels.
  rewrite <- (length_map (fun p => (now p, raw_level p b)) wait) in Hlevels.
  rewrite <- (length_map (fun p => (now p, raw_level p b)) held2) in Hlevels.
  rewrite <- (length_map (fun p => (now p, raw_level p b)) idle) in Hlevels.
  apply (double_press_button (g_config g) _ _ _ _ _ _ _ _ _ _ _ _ _ _
           Hrest Hlevels).
  - rewrite u32_small by lia. exact H21.
  - lia.
  - apply Forall_map. cbn [fst].
    apply Forall_map in T2w.
    rewrite Forall_forall in T2w, Rw |- *.
    intros c Hc. specialize (T2w c Hc). specialize (Rw c Hc). cbn beta in *.
    rewrite u32_small by lia. lia.
  - rewrite u32_small by lia. exact H43.
Qed.

Lemma double_press_gesture_witness :
  let polls :=
    sample_rest0 ++ sample_p1 :: sample_held1 ++ sample_r1
    :: sample_wait ++ sample_p2 :: sample_held2 ++ sample_r2 :: sample_idle in
  gestures_of BUTTON_FEED (snd (run_updates fresh_buttons polls))
  = [GESTURE_DOUBLE]
  /\ at_rest (g_state (fst (run_updates fresh_buttons polls))
              !!! button_index BUTTON_FEED).
Proof.
  apply double_press_gesture.
  - reflexivity.
  - repeat split; reflexivity.
  - repeat constructor; cbn; lia.
  - repeat constructor; cbn; lia.
  - reflexivity.
  - cbn. lia.
  - cbn. lia.
  - cbn. lia.
Defined.

(** C5, as stated, fails: with a first press of 120 ms, a second press
    detected 120 ms after the release, and that second press held for
    620 ms, the run emits one long gesture and no double. *)
Lemma long_second_press_is_not_double :
  let polls :=
    sample_rest0 ++ sample_p1 :: sample_held1 ++ sample_r1
    :: sample_wait ++ sample_p2 :: sample_held2_long ++ [sample_r2_long] in
  at_rest (g_state fresh_buttons !!! button_index BUTTON_FEED)
  /\ levels BUTTON_FEED fresh_buttons polls
     = repeat false (length sample_rest0)
       ++ true :: repeat true (length sample_held1)
       ++ false :: repeat false (length sample_wait)
       ++ true :: repeat true (length sample_held2_long) ++ [false]
  /\ now sample_r1 - now sample_p1 < long_press_ms (g_config fresh_buttons)
  /\ now sample_p2 - now sample_r1 <= double_press_ms (g_config fresh_buttons)
  /\ gestures_of BUTTON_FEED (snd (run_updates fresh_buttons polls))
     = [GESTURE_LONG].
Proof.
  cbv zeta. split; [repeat split; reflexivity|].
  split; [reflexivity|]. split; [cbn; lia|]. split; [cbn; lia|].
  reflexivity.
Qed.

End ButtonsFacts.

(* ================================================================== *)
(** ** The fallback decision: the emotions it reports *)
(* ================================================================== *)

Section BrainRangeFacts.
Import CoreState Brain.
Local Open Scope f32_scope.

Lemma num_not_nan x : num x -> is_nan x = false.
Proof. destruct x; try reflexivity. contradiction. Qed.

Lemma fsub_num_fin b x y : num x -> fin b y -> num (fsub x y).
Proof.
  intros Hx Hy.
  destruct x as [sx|sx| |sx mx ex], y as [sy|sy| |sy my ey];
    unfold num in Hx; unfold fin in Hy; try contradiction;
    unfold fsub, SFsub; try exact I.
  - destruct sx, sy; exact I.
  - apply Hy.
  - exact Hx.
  - apply binary_normalize_num.
Qed.

Lemma fadd_fin_num a x y : fin a x -> num y -> num (fadd x y).
Proof.
  intros Hx Hy.
  destruct x as [sx|sx| |sx mx ex], y as [sy|sy| |sy my ey];
    unfold fin in Hx; unfold num in Hy; try contradiction;
    unfold fadd, SFadd; try exact I.
  - destruct sx, sy; exact I.
  - exact Hy.
  - apply Hx.
  - apply binary_normalize_num.
Qed.

(** Clamping a number between two bounds leaves it between them. *)
Lemma clamp_between lo hi v :
  is_nan v = false -> (lo <=? hi) = true ->
  let v1 := if v <? lo then lo else v in
  let v2 := if v1 >? hi then hi else v1 in
  (lo <=? v2) = true /\ (v2 <=? hi) = true.
Proof.
  intros Hv Hlh. cbv zeta. unfold flt, fgt, fle in *.
  pose proof Hlh as Hlh'. apply fle_spec in Hlh' as (Hl & Hh & Hn).
  destruct (SFltb v lo) eqn:E1.
  - destruct (SFltb hi lo) eqn:E2.
    + split; [exact Hlh|]. apply fle_spec. repeat split; auto. apply lex_lt_irrefl.
    + split; [|exact Hlh]. apply fle_spec. repeat split; auto. apply lex_lt_irrefl.
  - pose proof (flt_false _ _ Hv Hl E1) as N1.
    destruct (SFltb hi v) eqn:E2.
    + split; [exact Hlh|]. apply fle_spec. repeat split; auto. apply lex_lt_irrefl.
    + pose proof (flt_false _ _ Hh Hv E2) as N2.
      split; apply fle_spec; repeat split; auto.
Qed.

(** The four clamping tests that end [brain_fallback]. *)
Lemma emotion_clamp_range (o : BrainOutput) :
  is_nan (valence o) = false -> is_nan (arousal o) = false ->
  let output := o in
  let output :=
    if valence output <? -1.0 then set_valence output (-1.0) else output in
  let output :=
    if valence output >? 1.0 then set_valence output 1.0 else output in
  let output :=
    if arousal output <? 0.0 then set_arousal output 0.0 else output in
  let output :=
    if arousal output >? 1.0 then set_arousal output 1.0 else output in
  (-1.0 <=? valence output) = true /\ (valence output <=? 1.0) = true
  /\ (0.0 <=? arousal output) = true /\ (arousal output <=? 1.0) = true.
Proof.
  intros Hv Ha.
  pose proof (clamp_between (-1.0) 1.0 (valence o) Hv eq_refl) as Cv.
  pose proof (clamp_between 0.0 1.0 (arousal o) Ha eq_refl) as Ca.
  cbv zeta in Cv, Ca. cbv zeta.
  destruct o as [a v r]. cbn [valence arousal] in *.
  destruct Cv as [Cv1 Cv2], Ca as [Ca1 Ca2].
  destruct (v <? -1.0); unfold set_valence; cbn [valence arousal action_id].
  - destruct (-1.0 >? 1.0); cbn [valence arousal action_id];
      (destruct (r <? 0.0); unfold set_arousal; cbn [valence arousal action_id];
       [destruct (0.0 >? 1.0)|destruct (r >? 1.0)];
       cbn [valence arousal action_id]; repeat split; assumption).
  - destruct (v >? 1.0); cbn [valence arousal action_id];
      (destruct (r <? 0.0); unfold set_arousal; cbn [valence arousal action_id];
       [destruct (0.0 >? 1.0)|destruct (r >? 1.0)];
       cbn [valence arousal action_id]; repeat split; assumption).
Qed.

Lemma adjusted_valence_num v0 trust :
  finb v0 = true -> num trust -> num (v0 + (trust - 0.5) * 0.3).
Proof.
  intros H0 Ht. apply (fadd_fin_num (mag v0)); [apply fin_eval; exact H0|].
  apply fmul_num_r; [|reflexivity].
  apply (fsub_num_fin (mag 0.5)); [exact Ht|apply fin_eval; reflexivity].
Qed.

(** X1. Whatever rung of the ladder [brain_fallback] takes, the valence
    it reports lies in [-1,1] and the arousal in [0,1], as long as the
    trust and hunger features are numbers (finite or infinite, not
    NaN): the trust adjustment cannot carry the valence out of the
    range, the final clamps see to that. *)
Theorem fallback_emotions_in_range :
  forall (f : Logger.Features) (output : BrainOutput),
    num (Logger.trust f) -> num (Logger.hunger f) ->
    let o := brain_fallback (Some f) output in
    (-1.0 <=? valence o) = true /\ (valence o <=? 1.0) = true
    /\ (0.0 <=? arousal o) = true /\ (arousal o <=? 1.0) = true.
Proof.
  intros f output Ht Hh o. subst o. unfold brain_fallback. cbv zeta.
  set (adj := (Logger.trust f - 0.5) * 0.3).
  assert (G : forall a v0 r0, finb v0 = true -> num r0 ->
            let o := set_valence
                       {| action_id := a; valence := v0; arousal := r0 |}
                       (v0 + adj) in
            is_nan (valence o) = false /\ is_nan (arousal o) = false).
  { intros a v0 r0 H0 Hr. cbn [set_valence valence arousal]. split.
    - apply num_not_nan, adjusted_valence_num; assumption.
    - apply num_not_nan. exact Hr. }
  match goal with
  | |- context [set_valence ?o (valence ?o + adj)] =>
      set (ladder := o);
      assert (L : is_nan (valence (set_valence ladder (valence ladder + adj)))
                  = false
                  /\ is_nan (arousal (set_valence ladder (valence ladder + adj)))
                     = false)
  end.
  { subst ladder.
    destruct (Logger.energy f <? 0.2); [apply G; reflexivity|].
    destruct (Logger.hunger f >? 0.7).
    { apply G; [reflexivity|].
      apply (fadd_fin_num (mag 0.5)); [apply fin_eval; reflexivity|].
      apply fmul_num_r; [exact Hh|reflexivity]. }
    destruct (Logger.affection_need f >? 0.6); [apply G; reflexivity|].
    destruct (Logger.stress f >? 0.6); [apply G; reflexivity|].
    destruct ((Logger.hunger f <? 0.3) && (Logger.energy f >? 0.5)
              && (Logger.affection_need f <? 0.3)).
    - destruct (Logger.dt_seconds_norm f >? 0.5); apply G; reflexivity.
    - destruct ((Logger.energy f >? 0.6) && (Logger.stress f <? 0.3));
        apply G; reflexivity. }
  destruct L as [L1 L2].
  exact (emotion_clamp_range _ L1 L2).
Qed.

Lemma fallback_emotions_in_range_witness :
  let o := brain_fallback (Some tired_and_hungry)
             {| action_id := ACTION_IDLE; valence := 0.0; arousal := 0.3 |} in
  (-1.0 <=? valence o) = true /\ (valence o <=? 1.0) = true
  /\ (0.0 <=? arousal o) = true /\ (arousal o <=? 1.0) = true.
Proof.
  apply fallback_emotions_in_range; reflexivity.
Defined.

End BrainRangeFacts.

(* ================================================================== *)
(** ** The learned decision: the scan for the best score *)
(* ================================================================== *)

Section ScanFacts.
Import CoreState Brain.
Local Open Scope f32_scope.

Lemma fgt_trans x y z : (x >? y) = true -> (y >? z) = true -> (x >? z) = true.
Proof.
  unfold fgt. rewrite !flt_spec. intros (Hy & Hx & H1) (Hz & _ & H2).
  repeat split; auto. eapply lex_lt_trans; eassumption.
Qed.

Lemma fle_flt_trans x y z :
  is_nan x = false -> (x >? y) = false -> (y <? z) = true -> (x <? z) = true.
Proof.
  unfold fgt, flt. intros Hx H1 H2.
  apply flt_spec in H2 as (Hy & Hz & H2).
  pose proof (flt_false _ _ Hy Hx H1) as N.
  apply flt_spec. repeat split; auto.
  unfold lex_lt in *. lia.
Qed.

Lemma fgt_irrefl x : (x >? x) = false.
Proof.
  unfold fgt. destruct (SFltb x x) eqn:E; [|reflexivity].
  apply flt_spec in E as (_ & _ & E). destruct (lex_lt_irrefl _ E).
Qed.

(** The forward scan over the first [n + 1] entries. *)
Lemma scan_spec (raw : list float32) (n : nat) :
  let r := fold_left
             (fun '(best_action, best_prob) i =>
                if raw !!! i >? best_prob then (i, raw !!! i)
                else (best_action, best_prob))
             (seq 1 n) (0%nat, raw !!! 0%nat) in
  snd r = raw !!! fst r
  /\ (fst r <= n)%nat
  /\ (forall i, (i <= n)%nat -> (raw !!! i >? snd r) = false)
  /\ ((forall i, (i <= n)%nat -> is_nan (raw !!! i) = false) ->
      forall i, (i < fst r)%nat -> (raw !!! i <? snd r) = true).
Proof.
  induction n as [|n IH]; cbv zeta.
  - cbn [seq fold_left fst snd]. split; [reflexivity|]. split; [lia|]. split.
    + intros i Hi. replace i with 0%nat by lia. apply fgt_irrefl.
    + intros _ i Hi. lia.
  - rewrite seq_S, fold_left_app. cbn [fold_left].
    cbv zeta in IH.
    destruct (fold_left _ (seq 1 n) (0%nat, raw !!! 0%nat)) as [b p] eqn:E.
    cbn [fst snd] in IH. destruct IH as (Hp & Hb & Hmax & Hfirst).
    replace (1 + n)%nat with (S n) by lia.
    destruct (raw !!! S n >? p) eqn:G; cbn [fst snd].
    + split; [reflexivity|]. split; [lia|]. split.
      * intros i Hi. destruct (decide (i = S n)) as [->|Hne].
        -- apply fgt_irrefl.
        -- destruct (raw !!! i >? raw !!! S n) eqn:E'; [|reflexivity].
           rewrite <- (Hmax i ltac:(lia)). symmetry.
           eapply fgt_trans; eassumption.
      * intros Hn i Hi.
        apply (fle_flt_trans _ p).
        -- apply Hn. lia.
        -- apply Hmax. lia.
        -- exact G.
    + split; [exact Hp|]. split; [lia|]. split.
      * intros i Hi. destruct (decide (i = S n)) as [->|Hne]; [exact G|].
        apply Hmax. lia.
      * intros Hn i Hi. apply Hfirst; [|exact Hi].
        intros j Hj. apply Hn. lia.
Qed.

(** X2. In the learned path [brain_infer] returns the action of an
    index [best] below 8 whose score (softmax output plus learned bias)
    no other score exceeds; when no score is NaN, every score before
    [best] is strictly smaller, so the first maximum is the one
    selected. *)
Theorem brain_infer_selects_first_maximum :
  forall (expf tanhf : float32 -> float32) (st : BrainState)
         (learn : OnlineLearn.LearnState) (f : Logger.Features)
         (output : BrainOutput),
    let scores :=
      add_biases learn
        (brain_infer_raw expf tanhf (g_weights st) (features_input f)) in
    exists best : nat,
      (best < BRAIN_ACTION_COUNT)%nat
      /\ action_id (brain_infer expf tanhf st learn (Some f) output)
         = action_of_index best
      /\ (forall i, (i < BRAIN_ACTION_COUNT)%nat ->
            (scores !!! i >? scores !!! best) = false)
      /\ ((forall i, (i < BRAIN_ACTION_COUNT)%nat ->
             is_nan (scores !!! i) = false) ->
          forall i, (i < best)%nat -> (scores !!! i <? scores !!! best) = true).
Proof.
  intros expf tanhf st learn f output scores.
  unfold brain_infer. cbv zeta. fold scores. cbn [action_id].
  unfold find_best, BRAIN_ACTION_COUNT.
  change (8 - 1)%nat with 7%nat.
  pose proof (scan_spec scores 7) as H. cbv zeta in H.
  destruct (fold_left _ (seq 1 7) (0%nat, scores !!! 0%nat)) as [b p].
  cbn [fst snd] in *. destruct H as (Hp & Hb & Hmax & Hfirst).
  exists b. split; [lia|]. split; [reflexivity|]. subst p. split.
  - intros i Hi. apply Hmax. lia.
  - intros Hn i Hi. apply Hfirst; [|exact Hi]. intros j Hj. apply Hn. lia.
Qed.

End ScanFacts.

(* ================================================================== *)
(** ** The online learner: rewards and their application *)
(* ================================================================== *)

Section LearnFacts.
Import CoreState OnlineLearn.
Local Open Scope f32_scope.

Lemma bias_clamp_range b :
  (-2.0 <=? fmaxf (-2.0) (fminf 2.0 b)) = true
  /\ (fmaxf (-2.0) (fminf 2.0 b) <=? 2.0) = true.
Proof.
  unfold fminf. change (is_nan 2.0) with false. cbv iota.
  destruct (is_nan b) eqn:Hb.
  - split; reflexivity.
  - destruct (b <? 2.0) eqn:E.
    + unfold fmaxf. change (is_nan (-2.0)) with false. cbv iota. rewrite Hb.
      destruct (-2.0 <? b) eqn:E2.
      * unfold flt, fle in *. apply flt_spec in E as (_ & _ & E).
        apply flt_spec in E2 as (_ & _ & E2).
        split; apply fle_spec; repeat split; auto; unfold lex_lt in *; lia.
      * split; reflexivity.
    + split; reflexivity.
Qed.

Lemma learn_from_length biases exp :
  length (learn_from biases exp) = length biases.
Proof.
  unfold learn_from. cbv zeta.
  set (b0 := <[_ := _]> biases).
  assert (H0 : length b0 = length biases) by apply length_insert.
  clearbody b0. revert b0 H0.
  induction (seq 0 (Z.to_nat ACTION_COUNT)) as [|i l IH]; intros b0 H0;
    cbn [fold_left]; [exact H0|].
  apply IH. destruct (negb _); [rewrite length_insert|]; exact H0.
Qed.

Lemma learn_fold_length (buffer : list Experience) (l : list nat) :
  forall biases,
    length (fold_left (fun bs e => learn_from bs (buffer !!! e)) l biases)
    = length biases.
Proof.
  induction l as [|e l IH]; intros biases; cbn [fold_left]; [reflexivity|].
  rewrite IH. apply learn_from_length.
Qed.

(** X3. On an initialised learner with a non-empty queue,
    [online_learn_apply] returns true, empties the queue, leaves the
    reward count alone and keeps eight biases, each within [-2,2]
    whatever the biases were before (a NaN bias comes out of the clamp
    as 2.0); a second apply right after returns false and changes
    nothing. *)
Theorem online_learn_apply_bounds :
  forall st : LearnState,
    g_initialized st = true -> (0 < g_buffer_count st)%Z ->
    let r := online_learn_apply st in
    fst r = true
    /\ g_buffer_count (snd r) = 0%Z
    /\ g_total_rewards (snd r) = g_total_rewards st
    /\ length (g_action_biases (snd r)) = length (g_action_biases st)
    /\ Forall (fun b => (-2.0 <=? b) = true /\ (b <=? 2.0) = true)
         (g_action_biases (snd r))
    /\ online_learn_apply (snd r) = (false, snd r).
Proof.
  intros st Hi Hc r.
  assert (E : r = (true,
                   {| g_action_biases :=
                        map (fun b => fmaxf (-2.0) (fminf 2.0 b))
                          (fold_left
                             (fun bs e => learn_from bs (g_buffer st !!! e))
                             (seq 0 (Z.to_nat (g_buffer_count st)))
                             (map (fun b => b * DECAY_RATE) (g_action_biases st)));
                      g_buffer := g_buffer st;
                      g_buffer_count := 0;
                      g_total_rewards := g_total_rewards st;
                      g_initialized := g_initialized st |})).
  { subst r. unfold online_learn_apply. rewrite Hi. cbn [negb orb].
    destruct (Z.eqb_spec (g_buffer_count st) 0) as [E|_]; [lia|reflexivity]. }
  rewrite E. cbn [fst snd g_buffer_count g_total_rewards g_action_biases].
  split; [reflexivity|]. split; [reflexivity|]. split; [reflexivity|]. split.
  { rewrite length_map, learn_fold_length. apply length_map. }
  split.
  { apply Forall_map, Forall_forall. intros b _. apply bias_clamp_range. }
  unfold online_learn_apply. cbn [g_initialized g_buffer_count Z.eqb].
  rewrite orb_true_r. reflexivity.
Qed.

Lemma online_learn_apply_bounds_witness :
  let r := online_learn_apply full_learner in
  fst r = true
  /\ g_buffer_count (snd r) = 0%Z
  /\ g_total_rewards (snd r) = g_total_rewards full_learner
  /\ length (g_action_biases (snd r)) = length (g_action_biases full_learner)
  /\ Forall (fun b => (-2.0 <=? b) = true /\ (b <=? 2.0) = true)
       (g_action_biases (snd r))
  /\ online_learn_apply (snd r) = (false, snd r).
Proof.
  apply online_learn_apply_bounds; reflexivity.
Defined.

(** X4. A run of [online_learn_reward] calls with valid actions, on an
    initialised learner whose queue holds [g_buffer_count] entries:
    the calls are accepted until the queue of 16 is full and dropped
    from then on.  The queue length and the reward counter (modulo
    2^32) grow by the number accepted, the biases are not touched, the
    [i]-th accepted call is stored at position [g_buffer_count + i] with
    its twelve features, its action and reward 1.0, and the entries
    queued before stay. *)
Theorem online_learn_reward_sequence (st : LearnState)
    (calls : list (Z * Logger.Features)) :
  g_initialized st = true -> length (g_buffer st) = 16%nat ->
  (0 <= g_buffer_count st <= 16)%Z ->
  Forall (fun c => (0 <= fst c < ACTION_COUNT)%Z) calls ->
  let st' :=
    fold_left (fun st c => online_learn_reward st (fst c) (snd c)) calls st in
  let accepted :=
    Z.min (Z.of_nat (length calls)) (MAX_BUFFER_SIZE - g_buffer_count st) in
  g_initialized st' = true
  /\ length (g_buffer st') = 16%nat
  /\ g_buffer_count st' = (g_buffer_count st + accepted)%Z
  /\ u32 (g_total_rewards st') = u32 (g_total_rewards st + accepted)
  /\ ((0 <= g_total_rewards st < 2 ^ 32)%Z ->
      (0 <= g_total_rewards st' < 2 ^ 32)%Z)
  /\ g_action_biases st' = g_action_biases st
  /\ (forall i c, calls !! i = Some c -> (Z.of_nat i < accepted)%Z ->
        g_buffer st' !! Z.to_nat (g_buffer_count st + Z.of_nat i)
        = Some {| features := features_array (snd c); action := fst c;
                  reward := 1.0 |})
  /\ (forall j, (j < Z.to_nat (g_buffer_count st))%nat ->
        g_buffer st' !! j = g_buffer st !! j).
Proof.
  intros Hi Hl Hc. unfold MAX_BUFFER_SIZE, ACTION_COUNT.
  induction calls as [|c calls IH] using rev_ind; intros Hv; cbv zeta.
  - cbn [fold_left length]. replace (Z.min _ _) with 0%Z by lia.
    rewrite !Z.add_0_r.
    split; [exact Hi|]. split; [exact Hl|]. split; [reflexivity|].
    split; [reflexivity|]. split; [auto|]. split; [reflexivity|].
    split; [|reflexivity]. intros i c E. discriminate.
  - apply Forall_app in Hv as [Hv Hv1]. apply Forall_cons in Hv1 as [Hv1 _].
    specialize (IH Hv). cbv zeta in IH.
    rewrite fold_left_app, length_app. cbn [fold_left length].
    set (st1 := fold_left _ calls st) in *.
    set (n := length calls) in *.
    destruct IH as (Hi1 & Hl1 & Hc1 & Ht1 & Hr1 & Hb1 & He1 & Hk1).
    unfold online_learn_reward. rewrite Hi1. cbn [negb].
    unfold ACTION_COUNT, MAX_BUFFER_SIZE.
    destruct (Z.leb_spec 8 (fst c)); [lia|].
    destruct (Z.ltb_spec (g_buffer_count st1) 16) as [Hlt|Hge];
      cbn [g_initialized g_buffer g_buffer_count g_total_rewards g_action_biases].
    + split; [reflexivity|]. split; [rewrite length_insert; exact Hl1|].
      split; [lia|]. split.
      { unfold u32 in *. rewrite Z.mod_mod by lia.
        rewrite <- Z.add_mod_idemp_l, Ht1, Z.add_mod_idemp_l by lia.
        f_equal. lia. }
      split; [intros _; unfold u32; apply Z.mod_pos_bound; lia|].
      split; [exact Hb1|]. split.
      * intros i c' Hk Ha.
        destruct (decide (i = n)) as [->|Hne].
        -- rewrite lookup_app_r in Hk by (unfold n; lia).
           replace (n - length calls)%nat with 0%nat in Hk by (unfold n; lia).
           injection Hk as <-.
           replace (Z.to_nat (g_buffer_count st1))
             with (Z.to_nat (g_buffer_count st + Z.of_nat n)) by lia.
           apply list_lookup_insert_eq. lia.
        -- assert (Hlt' : (i < n)%nat).
           { apply lookup_lt_Some in Hk. rewrite length_app in Hk.
             cbn [length] in Hk. unfold n. lia. }
           rewrite lookup_app_l in Hk by (unfold n in Hlt'; exact Hlt').
           rewrite list_lookup_insert_ne by lia.
           apply He1; [exact Hk|lia].
      * intros j Hj. rewrite list_lookup_insert_ne by lia. apply Hk1. exact Hj.
    + split; [exact Hi1|]. split; [exact Hl1|]. split; [lia|]. split.
      { rewrite Ht1. f_equal. lia. }
      split; [exact Hr1|].
      split; [exact Hb1|]. split; [|exact Hk1].
      intros i c' Hk Ha.
      assert (Hlt' : (i < n)%nat) by lia.
      rewrite lookup_app_l in Hk by (unfold n in Hlt'; exact Hlt').
      apply He1; [exact Hk|lia].
Qed.

Lemma online_learn_reward_sequence_witness :
  let st := online_learn_init learn_static_init None in
  let st' :=
    online_learn_reward
      (online_learn_reward st 5 Logger.zero_features) 3 Logger.zero_features in
  g_buffer_count st' = 2%Z
  /\ g_action_biases st' = g_action_biases st
  /\ g_buffer st' !! 1%nat
     = Some {| features := features_array Logger.zero_features;
               action := 3%Z; reward := 1.0 |}.
Proof.
  intros st st'.
  pose proof (online_learn_reward_sequence st
                [(5%Z, Logger.zero_features); (3%Z, Logger.zero_features)]
                eq_refl eq_refl ltac:(vm_compute; split; discriminate)
                ltac:(repeat (constructor;
                                [unfold ACTION_COUNT; cbn; lia|]);
                      constructor)) as H.
  cbv zeta in H. destruct H as (_ & _ & Hc & _ & _ & Hb & He & _).
  split; [exact Hc|]. split; [exact Hb|].
  exact (He 1%nat (3%Z, Logger.zero_features) eq_refl eq_refl).
Defined.

End LearnFacts.

(* ================================================================== *)
(** ** Trust: what raises it and what does not *)
(* ================================================================== *)

Section TrustFacts.
Import CoreState.
Local Open Scope f32_scope.

(** X5. [calculate_trust_change] is positive for a timely response,
    negative for a late response to a request, zero when the response
    was neither asked for nor timely, and always within [-0.01, 0.03],
    whatever the trust level (the halving near the ends of the scale
    keeps the sign). *)
Theorem trust_change_sign_and_range :
  forall (state : PetState) (was_requested was_timely : bool),
    let change := calculate_trust_change state was_requested was_timely in
    (was_timely = true -> (change >? 0.0) = true)
    /\ (was_requested = true -> was_timely = false -> (change <? 0.0) = true)
    /\ (was_requested = false -> was_timely = false -> change = 0.0)
    /\ (-0.01 <=? change) = true /\ (change <=? 0.03) = true.
Proof.
  intros state req timely. unfold calculate_trust_change. cbv zeta.
  destruct req, timely, (trust state >? 0.8), (trust state <? 0.2);
    vm_compute; repeat split; intros; first [discriminate | reflexivity].
Qed.




End TrustFacts.

(* ================================================================== *)
(** ** The checksum of a model image *)
(* ================================================================== *)

Section CrcFacts.
Import Storage.
Local Open Scope Z_scope.

Lemma land_1_cases x : Z.land x 1 = 0 \/ Z.land x 1 = 1.
Proof.
  change (Z.land x 1) with (Z.land x (Z.ones 1)). rewrite Z.land_ones by lia.
  change (2 ^ 1) with 2. pose proof (Z.mod_pos_bound x 2 ltac:(lia)). lia.
Qed.

Lemma lxor_swap a b c d :
  Z.lxor (Z.lxor a b) (Z.lxor c d) = Z.lxor (Z.lxor a c) (Z.lxor b d).
Proof.
  apply Z.bits_inj'. intros n Hn. rewrite !Z.lxor_spec.
  destruct (Z.testbit a n), (Z.testbit b n), (Z.testbit c n), (Z.testbit d n);
    reflexivity.
Qed.

Lemma land_lxor_distr a b c :
  Z.land (Z.lxor a b) c = Z.lxor (Z.land a c) (Z.land b c).
Proof.
  apply Z.bits_inj'. intros n Hn. rewrite !Z.lxor_spec, !Z.land_spec, Z.lxor_spec.
  destruct (Z.testbit a n), (Z.testbit b n), (Z.testbit c n); reflexivity.
Qed.

(** A round is linear over exclusive or. *)
Lemma crc_round_lxor a b :
  crc_round (Z.lxor a b) = Z.lxor (crc_round a) (crc_round b).
Proof.
  unfold crc_round. rewrite Z.shiftr_lxor, lxor_swap. f_equal.
  rewrite land_lxor_distr.
  destruct (land_1_cases a) as [-> | ->], (land_1_cases b) as [-> | ->];
    reflexivity.
Qed.

Lemma crc_rounds_lxor k a b :
  Nat.iter k crc_round (Z.lxor a b)
  = Z.lxor (Nat.iter k crc_round a) (Nat.iter k crc_round b).
Proof.
  induction k as [|k IH]; [reflexivity|].
  rewrite !Nat.iter_succ, IH. apply crc_round_lxor.
Qed.

Lemma crc_round_shifted h k :
  0 <= k -> crc_round (Z.shiftl h (k + 1)) = Z.shiftl h k.
Proof.
  intros Hk. unfold crc_round.
  assert (E : Z.land (Z.shiftl h (k + 1)) 1 = 0).
  { change (Z.land (Z.shiftl h (k + 1)) 1)
      with (Z.land (Z.shiftl h (k + 1)) (Z.ones 1)).
    rewrite Z.land_ones by lia.
    rewrite Z.shiftl_mul_pow2 by lia.
    rewrite Z.pow_add_r by lia. change (2 ^ 1) with 2.
    rewrite Z.mul_assoc. apply Z.mod_mul. lia. }
  rewrite E. cbn [Z.eqb]. rewrite Z.lxor_0_r.
  rewrite Z.shiftr_shiftl_l by lia. f_equal. lia.
Qed.

Lemma crc_rounds_shifted h (k : nat) :
  Nat.iter k crc_round (Z.shiftl h (Z.of_nat k)) = h.
Proof.
  induction k as [|k IH]; [apply Z.shiftl_0_r|].
  rewrite Nat.iter_succ_r.
  replace (Z.of_nat (S k)) with (Z.of_nat k + 1) by lia.
  rewrite crc_round_shifted by lia. exact IH.
Qed.

Lemma split_low_byte x :
  x = Z.lxor (Z.land x 255) (Z.shiftl (Z.shiftr x 8) 8).
Proof.
  apply Z.bits_inj'. intros n Hn.
  rewrite Z.lxor_spec, Z.land_spec. change 255 with (Z.ones 8).
  destruct (Z.ltb_spec n 8).
  - rewrite Z.ones_spec_low by lia. rewrite Z.shiftl_spec_low by lia.
    rewrite andb_true_r, xorb_false_r. reflexivity.
  - rewrite Z.ones_spec_high by lia. rewrite Z.shiftl_spec by lia.
    rewrite Z.shiftr_spec by lia. rewrite andb_false_r, xorb_false_l.
    f_equal. lia.
Qed.

(** Eight rounds on [x]: eight rounds on its low byte, combined with the
    rest of [x]. *)
Lemma crc_rounds_low_byte x :
  Nat.iter 8 crc_round x
  = Z.lxor (Nat.iter 8 crc_round (Z.land x 255)) (Z.shiftr x 8).
Proof.
  rewrite (split_low_byte x) at 1. rewrite crc_rounds_lxor.
  f_equal. apply (crc_rounds_shifted (Z.shiftr x 8) 8).
Qed.

Lemma init_table_entries st :
  crc_reachable st ->
  crc32_table (init_crc32_table st)
  = map (fun i => Nat.iter 8 crc_round (Z.of_nat i)) (seq 0 256).
Proof.
  intros [-> | ->]; vm_compute; reflexivity.
Qed.

Lemma byte_value_range b : 0 <= byte_value b < 256.
Proof.
  unfold byte_value. pose proof (Byte.to_N_bounded b). lia.
Qed.

Lemma land_255_range x : 0 <= Z.land x 255 < 256.
Proof.
  change 255 with (Z.ones 8). rewrite Z.land_ones by lia.
  apply Z.mod_pos_bound. lia.
Qed.

(** One byte step of [storage_calc_crc32] is eight rounds on
    [crc ^ data[i]]. *)
Lemma crc_byte_step st crc b :
  crc_reachable st -> 0 <= b < 256 ->
  Z.lxor (crc32_table (init_crc32_table st)
            !!! Z.to_nat (Z.land (Z.lxor crc b) 0xFF))
    (Z.shiftr crc 8)
  = Nat.iter 8 crc_round (Z.lxor crc b).
Proof.
  intros Hst Hb. rewrite init_table_entries by exact Hst.
  pose proof (land_255_range (Z.lxor crc b)) as Hl.
  rewrite lookup_total_map_seq by lia.
  rewrite Z2Nat.id by lia.
  rewrite (crc_rounds_low_byte (Z.lxor crc b)). f_equal.
  rewrite Z.shiftr_lxor.
  replace (Z.shiftr b 8) with 0; [symmetry; apply Z.lxor_0_r|].
  rewrite Z.shiftr_div_pow2 by lia. symmetry. apply Z.div_small. lia.
Qed.

Lemma crc_round_range x : 0 <= x < 2 ^ 32 -> 0 <= crc_round x < 2 ^ 32.
Proof.
  intros Hx. unfold crc_round.
  assert (Hs : 0 <= Z.shiftr x 1 < 2 ^ 31).
  { rewrite Z.shiftr_div_pow2 by lia. change (2 ^ 1) with 2.
    split; [apply Z.div_pos; lia|]. apply Z.div_lt_upper_bound; lia. }
  assert (Hc : 0 <= (if Z.land x 1 =? 0 then 0 else 0xEDB88320) < 2 ^ 32)
    by (destruct (Z.land x 1 =? 0); lia).
  set (c := if Z.land x 1 =? 0 then 0 else 0xEDB88320) in *.
  assert (H0 : 0 <= Z.lxor (Z.shiftr x 1) c) by (apply Z.lxor_nonneg; lia).
  split; [exact H0|].
  destruct (Z.eq_dec (Z.lxor (Z.shiftr x 1) c) 0) as [->|Hne]; [lia|].
  apply Z.log2_lt_pow2; [lia|].
  pose proof (Z.log2_lxor (Z.shiftr x 1) c ltac:(lia) ltac:(lia)) as Hl.
  assert (Z.log2 (Z.shiftr x 1) < 32).
  { destruct (Z.eq_dec (Z.shiftr x 1) 0) as [->|]; [cbn; lia|].
    apply Z.log2_lt_pow2; lia. }
  assert (Z.log2 c < 32).
  { destruct (Z.eq_dec c 0) as [->|]; [cbn; lia|].
    apply Z.log2_lt_pow2; lia. }
  lia.
Qed.

Lemma lxor_range a b :
  0 <= a < 2 ^ 32 -> 0 <= b < 2 ^ 32 -> 0 <= Z.lxor a b < 2 ^ 32.
Proof.
  intros Ha Hb.
  assert (H0 : 0 <= Z.lxor a b) by (apply Z.lxor_nonneg; lia).
  split; [exact H0|].
  destruct (Z.eq_dec (Z.lxor a b) 0) as [->|Hne]; [lia|].
  apply Z.log2_lt_pow2; [lia|].
  pose proof (Z.log2_lxor a b ltac:(lia) ltac:(lia)) as Hl.
  assert (Z.log2 a < 32).
  { destruct (Z.eq_dec a 0) as [->|]; [cbn; lia|]. apply Z.log2_lt_pow2; lia. }
  assert (Z.log2 b < 32).
  { destruct (Z.eq_dec b 0) as [->|]; [cbn; lia|]. apply Z.log2_lt_pow2; lia. }
  lia.
Qed.

Lemma lxor_cancel_r a b c : Z.lxor a c = Z.lxor b c -> a = b.
Proof.
  intros H.
  assert (E : forall z, z = Z.lxor (Z.lxor z c) c).
  { intros z. rewrite Z.lxor_assoc, Z.lxor_nilpotent, Z.lxor_0_r. reflexivity. }
  rewrite (E a), H, <- E. reflexivity.
Qed.

Lemma lxor_cancel_l a b c : Z.lxor c a = Z.lxor c b -> a = b.
Proof. rewrite !(Z.lxor_comm c). apply lxor_cancel_r. Qed.

(** On 32-bit values a round loses nothing: the bit shifted out decides
    the top bit of the result. *)
Lemma crc_round_inj x y :
  0 <= x < 2 ^ 32 -> 0 <= y < 2 ^ 32 -> crc_round x = crc_round y -> x = y.
Proof.
  intros Hx Hy H.
  assert (T : forall z, 0 <= z < 2 ^ 32 ->
            Z.testbit (crc_round z) 31 = negb (Z.land z 1 =? 0)).
  { intros z Hz. unfold crc_round. rewrite Z.lxor_spec.
    rewrite Z.shiftr_spec by lia.
    assert (Z.testbit z (31 + 1) = false) as ->.
    { destruct (Z.eq_dec z 0) as [->|]; [reflexivity|].
      apply Z.bits_above_log2; [lia|]. apply Z.log2_lt_pow2; lia. }
    destruct (Z.land z 1 =? 0); reflexivity. }
  assert (P : (Z.land x 1 =? 0) = (Z.land y 1 =? 0)).
  { pose proof (T x Hx) as Tx. pose proof (T y Hy) as Ty.
    rewrite H in Tx. rewrite Tx in Ty.
    destruct (Z.land x 1 =? 0), (Z.land y 1 =? 0); try reflexivity;
      discriminate. }
  unfold crc_round in H. rewrite P in H. apply lxor_cancel_r in H.
  rewrite !Z.shiftr_div_pow2 in H by lia. change (2 ^ 1) with 2 in H.
  assert (Q : x mod 2 = y mod 2).
  { change (Z.land x 1) with (Z.land x (Z.ones 1)) in P.
    change (Z.land y 1) with (Z.land y (Z.ones 1)) in P.
    rewrite !Z.land_ones in P by lia. change (2 ^ 1) with 2 in P.
    pose proof (Z.mod_pos_bound x 2 ltac:(lia)).
    pose proof (Z.mod_pos_bound y 2 ltac:(lia)).
    destruct (Z.eqb_spec (x mod 2) 0), (Z.eqb_spec (y mod 2) 0);
      try discriminate; lia. }
  rewrite (Z.div_mod x 2), (Z.div_mod y 2) by lia. rewrite H, Q. reflexivity.
Qed.

Lemma crc_rounds_range k x :
  0 <= x < 2 ^ 32 -> 0 <= Nat.iter k crc_round x < 2 ^ 32.
Proof.
  intros Hx. induction k as [|k IH]; [exact Hx|].
  rewrite Nat.iter_succ. apply crc_round_range. exact IH.
Qed.

Lemma crc_rounds_inj k x y :
  0 <= x < 2 ^ 32 -> 0 <= y < 2 ^ 32 ->
  Nat.iter k crc_round x = Nat.iter k crc_round y -> x = y.
Proof.
  intros Hx Hy. induction k as [|k IH]; [auto|].
  rewrite !Nat.iter_succ. intros H. apply IH.
  apply crc_round_inj; [apply crc_rounds_range; exact Hx
                       |apply crc_rounds_range; exact Hy|exact H].
Qed.

Lemma fold_left_cons_eq {A B} (f : A -> B -> A) b l a :
  fold_left f (b :: l) a = fold_left f l (f a b).
Proof. reflexivity. Qed.

Lemma crc_byte_range crc b :
  0 <= crc < 2 ^ 32 -> 0 <= b < 256 ->
  0 <= Nat.iter 8 crc_round (Z.lxor crc b) < 2 ^ 32.
Proof.
  intros Hc Hb. apply crc_rounds_range, lxor_range; lia.
Qed.

Lemma crc_byte_inj_l c1 c2 b :
  0 <= c1 < 2 ^ 32 -> 0 <= c2 < 2 ^ 32 -> 0 <= b < 256 ->
  Nat.iter 8 crc_round (Z.lxor c1 b) = Nat.iter 8 crc_round (Z.lxor c2 b) ->
  c1 = c2.
Proof.
  intros H1 H2 Hb H.
  apply crc_rounds_inj in H; try (apply lxor_range; lia).
  apply lxor_cancel_r in H. exact H.
Qed.

Lemma crc_byte_inj_r c b1 b2 :
  0 <= c < 2 ^ 32 -> 0 <= b1 < 256 -> 0 <= b2 < 256 ->
  Nat.iter 8 crc_round (Z.lxor c b1) = Nat.iter 8 crc_round (Z.lxor c b2) ->
  b1 = b2.
Proof.
  intros Hc H1 H2 H.
  apply crc_rounds_inj in H; try (apply lxor_range; lia).
  apply lxor_cancel_l in H. exact H.
Qed.

(** The running value while [storage_calc_crc32] walks the buffer. *)
Lemma crc_fold_step st (data : list Byte.byte) : forall crc,
  crc_reachable st ->
  fold_left
    (fun crc b =>
       Z.lxor
         (crc32_table (init_crc32_table st)
            !!! Z.to_nat (Z.land (Z.lxor crc (byte_value b)) 0xFF))
         (Z.shiftr crc 8))
    data crc
  = fold_left (fun crc b => Nat.iter 8 crc_round (Z.lxor crc (byte_value b)))
      data crc.
Proof.
  intros crc Hst. revert crc.
  induction data as [|b data IH]; intros crc; [reflexivity|].
  rewrite !fold_left_cons_eq. cbv beta.
  rewrite (crc_byte_step st crc (byte_value b) Hst (byte_value_range b)).
  apply IH.
Qed.

Lemma crc_fold_range (data : list Byte.byte) : forall crc,
  0 <= crc < 2 ^ 32 ->
  0 <= fold_left (fun crc b => Nat.iter 8 crc_round (Z.lxor crc (byte_value b)))
         data crc < 2 ^ 32.
Proof.
  induction data as [|b data IH]; intros crc Hc; [exact Hc|].
  rewrite fold_left_cons_eq. cbv beta.
  apply IH, crc_byte_range; [exact Hc|apply byte_value_range].
Qed.

Lemma crc_fold_inj (data : list Byte.byte) : forall c1 c2,
  0 <= c1 < 2 ^ 32 -> 0 <= c2 < 2 ^ 32 ->
  fold_left (fun crc b => Nat.iter 8 crc_round (Z.lxor crc (byte_value b)))
    data c1
  = fold_left (fun crc b => Nat.iter 8 crc_round (Z.lxor crc (byte_value b)))
      data c2 ->
  c1 = c2.
Proof.
  induction data as [|b data IH]; intros c1 c2 H1 H2 H; [exact H|].
  rewrite !fold_left_cons_eq in H. cbv beta in H.
  pose proof (byte_value_range b) as Hb.
  apply IH in H; try (apply crc_byte_range; assumption).
  apply crc_byte_inj_l in H; assumption.
Qed.

Lemma byte_value_inj b b' : byte_value b = byte_value b' -> b = b'.
Proof.
  unfold byte_value. intros H. apply N2Z.inj in H.
  pose proof (Byte.of_to_N b) as E. rewrite H, Byte.of_to_N in E.
  injection E as E. symmetry. exact E.
Qed.

Lemma storage_calc_crc32_rounds st data :
  crc_reachable st ->
  fst (storage_calc_crc32 st data)
  = Z.lxor
      (fold_left
         (fun crc b => Nat.iter 8 crc_round (Z.lxor crc (byte_value b)))
         data 0xFFFFFFFF)
      0xFFFFFFFF.
Proof.
  intros Hst. unfold storage_calc_crc32.
  rewrite <- (crc_fold_step st data _ Hst). reflexivity.
Qed.



(** X8. Changing one byte of a buffer, anywhere, changes its checksum:
    [storage_calc_crc32] never maps two buffers that differ in exactly
    one position to the same value. *)
Theorem crc32_detects_single_byte_change :
  forall (st : CrcTable) (pre post : list Byte.byte) (b b' : Byte.byte),
    crc_reachable st -> b <> b' ->
    fst (storage_calc_crc32 st (pre ++ b :: post))
    <> fst (storage_calc_crc32 st (pre ++ b' :: post)).
Proof.
  intros st pre post b b' Hst Hb H.
  rewrite !storage_calc_crc32_rounds in H by exact Hst.
  apply lxor_cancel_r in H.
  rewrite !fold_left_app, !fold_left_cons_eq in H. cbv beta in H.
  assert (Hc : 0 <= fold_left
                      (fun crc b =>
                         Nat.iter 8 crc_round (Z.lxor crc (byte_value b)))
                      pre 0xFFFFFFFF < 2 ^ 32)
    by (apply crc_fold_range; lia).
  pose proof (byte_value_range b) as R. pose proof (byte_value_range b') as R'.
  apply crc_fold_inj in H; try (apply crc_byte_range; assumption).
  apply crc_byte_inj_r in H; try assumption.
  apply Hb, byte_value_inj. exact H.
Qed.

Lemma crc32_detects_single_byte_change_witness :
  fst (storage_calc_crc32 crc_static_init
         ([Byte.x31] ++ Byte.x32 :: [Byte.x34]))
  <> fst (storage_calc_crc32 crc_static_init
            ([Byte.x31] ++ Byte.x33 :: [Byte.x34])).
Proof.
  apply crc32_detects_single_byte_change.
  - left. reflexivity.
  - discriminate.
Defined.

End CrcFacts.

(* ================================================================== *)
(** ** The time of day *)
(* ================================================================== *)

Section TimeFacts.
Import TimeManager.
Local Open Scope Z_scope.

(** X9. [time_get] always reports an hour below 24 and a minute below
    60, whatever the clock reading, the boot time and the offset. *)
Theorem time_get_in_range :
  forall (st : TimeState) (millis : Z),
    0 <= fst (time_get st millis) < 24 /\ 0 <= snd (time_get st millis) < 60.
Proof.
  intros st millis. unfold time_get. cbn [fst snd]. split; mod_lia.
Qed.

(** X10. After [time_set hour minute] at clock reading [millis], a
    [time_get] at a later reading reports the time set plus the whole
    minutes elapsed since, wrapping at midnight.  The uptime at the
    later reading has to stay one day short of the 32-bit wrap of the
    millisecond clock. *)
Theorem time_set_then_get :
  forall (st : TimeState) (hour minute : Z)
         (millis later : Z),
    0 <= hour < 24 -> 0 <= minute < 60 ->
    let elapsed0 := u32 (millis - g_boot_time_ms st) in
    let elapsed1 := u32 (later - g_boot_time_ms st) in
    elapsed0 <= elapsed1 -> elapsed1 + 86400000 <= 2 ^ 32 ->
    let st' := time_set st millis hour minute in
    let minutes := (hour * 60 + minute + (elapsed1 - elapsed0) / 60000) mod 1440 in
    time_get st' later = (minutes / 60, minutes mod 60).
Proof.
  intros st hour minute millis later Hh Hm elapsed0 elapsed1 H01 Hup st'
    minutes.
  unfold st', time_set, time_get.
  cbn [g_boot_time_ms g_time_offset_ms].
  fold elapsed0. fold elapsed1.
  assert (E0 : 0 <= elapsed0 < 2 ^ 32) by (apply Z.mod_pos_bound; lia).
  clearbody elapsed0 elapsed1.
  rewrite (u32_small (hour * 3600000)) by lia.
  rewrite (u32_small (minute * 60000)) by lia.
  rewrite (u32_small (hour * 3600000 + minute * 60000)) by lia.
  set (target := hour * 3600000 + minute * 60000).
  set (device := elapsed0 mod 86400000).
  assert (Hd : 0 <= device < 86400000) by (apply Z.mod_pos_bound; lia).
  assert (Ht : 0 <= target < 86400000) by (unfold target; lia).
  set (offset := if device <=? target then u32 (target - device)
                 else u32 (u32 (86400000 - device) + target)).
  assert (Ho : offset = (target - device) mod 86400000).
  { unfold offset. destruct (Z.leb_spec device target).
    - rewrite u32_small by lia. mod_lia.
    - rewrite (u32_small (86400000 - device)) by lia.
      rewrite u32_small by lia. mod_lia. }
  assert (Ho2 : 0 <= offset < 86400000)
    by (rewrite Ho; apply Z.mod_pos_bound; lia).
  rewrite (u32_small (elapsed1 + offset)) by lia.
  assert (Hc : (elapsed1 + offset) mod 86400000
               = (target + (elapsed1 - elapsed0)) mod 86400000).
  { rewrite Ho. unfold device.
    rewrite Zplus_mod_idemp_r.
    replace (elapsed1 + (target - elapsed0 mod 86400000))
      with (elapsed1 + target - elapsed0 mod 86400000) by lia.
    rewrite Zminus_mod_idemp_r. f_equal. lia. }
  rewrite Hc. unfold minutes, target. clear - Hh Hm H01.
  set (d := elapsed1 - elapsed0). assert (0 <= d) by (unfold d; lia).
  clearbody d. f_equal; mod_lia.
Qed.

Lemma time_set_then_get_witness :
  time_get (time_set time_static_init 5000 21 30) (5000 + 2 * 3600000 + 45000)
  = (23, 30).
Proof.
  exact (time_set_then_get time_static_init 21 30 5000
           (5000 + 2 * 3600000 + 45000)
           ltac:(lia) ltac:(lia) ltac:(vm_compute; discriminate)
           ltac:(vm_compute; discriminate)).
Defined.

End TimeFacts.

(* ================================================================== *)
(** ** The needs simulator: the direction of a tick *)
(* ================================================================== *)

Section TickFacts.
Import CoreState.
Local Open Scope Z_scope.

(** Rounding hands on the sign it is given. *)
Lemma binary_round_aux_sign s m e l :
  match binary_round_aux prec emax s m e l with
  | S754_nan => True
  | S754_zero s' | S754_infinity s' | S754_finite s' _ _ => s' = s
  end.
Proof.
  unfold binary_round_aux.
  destruct (shr_fexp prec emax m e l) as [mrs1 e1].
  destruct (shr_fexp prec emax _ e1 loc_Exact) as [mrs3 e3].
  destruct (shr_m mrs3); [reflexivity| |exact I].
  destruct (e3 <=? emax - prec); reflexivity.
Qed.

Lemma sign_clear_fle x : sign_clear x -> fle 0.0%f32 x = true.
Proof. destruct x as [[|]|[|]| |[|] m e]; intros H; try discriminate H;
         try contradiction; reflexivity. Qed.

Lemma of_Z_sign_clear n : 0 <= n -> sign_clear (of_Z n).
Proof.
  intros H. unfold of_Z. destruct n as [|p|p]; try lia; [reflexivity|].
  cbn [binary_normalize].
  pose proof (binary_round_num false p 0) as N.
  destruct (binary_round_shift false p 0) as (mz & ez & E & _).
  pose proof (binary_round_aux_sign false (Zpos mz) ez loc_Exact) as S.
  rewrite <- E in S.
  destruct (binary_round prec emax false p 0); try contradiction; exact S.
Qed.

Lemma fmul_sign_clear x y :
  sign_clear x -> sign_clear y -> is_nan (fmul x y) = false ->
  sign_clear (fmul x y).
Proof.
  intros Hx Hy. unfold fmul, SFmul.
  destruct x as [sx|sx| |sx mx ex], y as [sy|sy| |sy my ey];
    cbn [sign_clear] in Hx, Hy; try contradiction; subst;
    try discriminate; intros N; try reflexivity.
  pose proof (binary_round_aux_sign (xorb false false) (Zpos (mx * my))
                (ex + ey) loc_Exact) as S.
  destruct (binary_round_aux prec emax _ _ _ _); try discriminate; exact S.
Qed.

Lemma fdiv_sign_clear x y :
  sign_clear x -> sign_clear y -> is_nan (fdiv x y) = false ->
  sign_clear (fdiv x y).
Proof.
  intros Hx Hy. unfold fdiv, SFdiv.
  destruct x as [sx|sx| |sx mx ex], y as [sy|sy| |sy my ey];
    cbn [sign_clear] in Hx, Hy; try contradiction; subst;
    try discriminate; intros N; try reflexivity.
  destruct (SFdiv_core_binary prec emax (Zpos mx) ex (Zpos my) ey)
    as [[mz ez] lz].
  pose proof (binary_round_aux_sign (xorb false false) mz ez lz) as S.
  destruct (binary_round_aux prec emax _ _ _ _); try discriminate; exact S.
Qed.

Lemma fin_not_nan k x : fin k x -> is_nan x = false.
Proof. destruct x; try reflexivity. contradiction. Qed.

(** The amount a rate takes or adds over a tick is never negative. *)
Lemma rate_step_nonneg rate delta_ms :
  finb rate = true -> sign_clear rate -> 0 <= delta_ms < 2 ^ 32 ->
  fle 0.0%f32 (fmul rate (fdiv (of_Z delta_ms) 1000.0%f32)) = true.
Proof.
  intros Hf Hs Hd. apply sign_clear_fle.
  pose proof (dt_fin delta_ms Hd) as Hdt.
  assert (Sdt : sign_clear (fdiv (of_Z delta_ms) 1000.0%f32)).
  { apply fdiv_sign_clear; [apply of_Z_sign_clear; lia|reflexivity|].
    eapply fin_not_nan. exact Hdt. }
  apply fmul_sign_clear; [exact Hs|exact Sdt|].
  destruct rate as [s|s| |s m e]; try discriminate Hf.
  - destruct (fdiv (of_Z delta_ms) 1000.0%f32); try contradiction; reflexivity.
  - apply num_not_nan, fmul_num_l; [exact Hf|].
    eapply fin_num. exact Hdt.
Qed.

(** A rounded operand that reaches the well-formed positive magnitude
    [X * 2^ex] gives at least that. *)
Lemma binary_round_aux_above s m e l X ex :
  0 < m -> e <= fx (Zdigits2 m + e) ->
  bounded prec emax X ex = true -> e <= ex ->
  Zpos X * 2 ^ (ex - e) <= m ->
  match binary_round_aux prec emax s m e l with
  | S754_finite _ p e3 => ex < e3 \/ (e3 = ex /\ Zpos X <= Zpos p)
  | S754_infinity _ => True
  | _ => False
  end.
Proof.
  intros Hm He HX Hex Hle.
  apply bounded_canonical in HX. destruct HX as [CX LX].
  pose proof (Zdigits2_pos (Zpos X) ltac:(lia)) as DX.
  assert (P0 : 0 < 2 ^ (ex - e)) by (apply Z.pow_pos_nonneg; lia).
  assert (Dm : Zdigits2 (Zpos X) + ex <= Zdigits2 m + e).
  { assert (Zdigits2 (Zpos X * 2 ^ (ex - e)) <= Zdigits2 m)
      by (apply Zdigits2_mono; nia).
    rewrite Zdigits2_mul_pow2 in H by lia. lia. }
  pose proof (binary_round_aux_mag s m e l (Zdigits2 (Zpos X) + ex) Hm He
                ltac:(unfold fx in *; lia)) as G.
  destruct (binary_round_aux_spec s m e l ltac:(lia) He)
    as (m2 & R & He3 & E).
  rewrite E in G |- *. clear E.
  set (e1 := fx (Zdigits2 m + e)) in *.
  set (e3 := fx (Zdigits2 m2 + e1)) in *.
  assert (E1 : ex <= e1) by (unfold e1, fx in *; lia).
  destruct (m2 / 2 ^ (e3 - e1)) as [|p|p] eqn:Ep; try contradiction.
  destruct (e3 <=? 104); [|exact I].
  destruct (Z.eq_dec e3 ex) as [Heq|Hne]; [right|left; lia].
  split; [exact Heq|].
  assert (E1' : e1 = ex) by lia.
  rewrite Heq, E1', Z.sub_diag, Z.div_1_r in Ep. rewrite E1' in R.
  assert (Zpos X <= m / 2 ^ (ex - e))
    by (apply Z.div_le_lower_bound; lia).
  lia.
Qed.

(** Adding a positive number to a positive number never gives less. *)
Lemma fadd_pos_above X ex Y ey :
  bounded prec emax X ex = true ->
  is_nan (fadd (S754_finite false X ex) (S754_finite false Y ey)) = false
  /\ ~ lex_lt (fadd (S754_finite false X ex) (S754_finite false Y ey))
         (S754_finite false X ex).
Proof.
  intros HX. unfold fadd, SFadd. cbn [cond_Zopp].
  set (ez := Z.min ex ey).
  pose proof (shl_align_fst X ex ez ltac:(unfold ez; lia)) as Ex.
  pose proof (shl_align_fst Y ey ez ltac:(unfold ez; lia)) as Ey.
  rewrite Ex, Ey.
  assert (PX : 0 < 2 ^ (ex - ez)) by (apply Z.pow_pos_nonneg; unfold ez; lia).
  assert (PY : 0 < 2 ^ (ey - ez)) by (apply Z.pow_pos_nonneg; unfold ez; lia).
  destruct (Zpos X * 2 ^ (ex - ez) + Zpos Y * 2 ^ (ey - ez)) as [|q|q] eqn:E;
    try nia.
  cbn [binary_normalize].
  destruct (binary_round_shift false q ez) as (mz & e' & -> & He' & Hmz & Hc).
  assert (P' : 0 < 2 ^ (ez - e')) by (apply Z.pow_pos_nonneg; lia).
  assert (PE : 2 ^ (ex - e') = 2 ^ (ex - ez) * 2 ^ (ez - e'))
    by (rewrite <- Z.pow_add_r by (unfold ez in *; lia); f_equal; lia).
  assert (A1 : e' <= ex) by (unfold ez in *; lia).
  assert (A2 : Zpos X * 2 ^ (ex - e') <= Zpos mz)
    by (rewrite Hmz, PE; nia).
  pose proof (binary_round_aux_above false (Zpos mz) e' loc_Exact X ex
                ltac:(lia) Hc HX A1 A2) as G.
  pose proof (binary_round_aux_sign false (Zpos mz) e' loc_Exact) as S.
  destruct (binary_round_aux prec emax false (Zpos mz) e' loc_Exact)
    as [s|s| |s p e3]; try contradiction; subst s.
  - split; [reflexivity|]. unfold lex_lt. cbn [cls key_e key_m]. lia.
  - split; [reflexivity|]. unfold lex_lt. cbn [cls key_e key_m]. lia.
Qed.

(** What [clamp01] returns is a number that is not below zero. *)
Lemma clamp01_not_below_zero v :
  is_nan v = false ->
  is_nan (clamp01 v) = false /\ ~ lex_lt (clamp01 v) 0.0%f32.
Proof.
  intros N. unfold clamp01, flt, fgt.
  destruct (SFltb v 0.0%f32) eqn:E0.
  { split; [reflexivity|]. apply lex_lt_irrefl. }
  destruct (SFltb 1.0%f32 v) eqn:E1.
  { split; [reflexivity|]. unfold lex_lt. cbn. lia. }
  split; [exact N|]. apply flt_false; [exact N|reflexivity|exact E0].
Qed.

(** Raising a score of [0,1] by a non-negative amount and clamping
    never lowers it. *)
Lemma growth_not_below x d :
  in01 x -> fle 0.0%f32 d = true ->
  fle x (clamp01 (fadd x d)) = true.
Proof.
  intros Hx Hd.
  destruct (in01_shape x Hx) as [[s ->]|(X & ex & -> & BX & EX)].
  - assert (N : is_nan (fadd (S754_zero s) d) = false)
      by (destruct d as [sd|sd| |sd md ed]; try discriminate;
          destruct s, sd; reflexivity).
    destruct (clamp01_not_below_zero _ N) as [N' L].
    apply fle_spec. split; [reflexivity|]. split; [exact N'|].
    revert L. unfold lex_lt. destruct s; cbn [cls key_e key_m]; lia.
  - destruct Hx as (_ & _ & H1).
    assert (V : is_nan (fadd (S754_finite false X ex) d) = false
                /\ ~ lex_lt (fadd (S754_finite false X ex) d)
                       (S754_finite false X ex)).
    { destruct d as [sd|sd| |sd md ed]; try discriminate.
      - split; [reflexivity|]. apply lex_lt_irrefl.
      - destruct sd; [discriminate|]. split; [reflexivity|].
        unfold lex_lt; cbn; lia.
      - destruct sd; [discriminate|]. apply fadd_pos_above. exact BX. }
    destruct V as [N L].
    set (v := fadd (S754_finite false X ex) d) in *.
    unfold clamp01, flt, fgt.
    destruct (SFltb v 0.0%f32) eqn:E0.
    { apply flt_spec in E0. destruct E0 as (_ & _ & E0).
      exfalso. apply L. revert E0. unfold lex_lt. cbn [cls key_e key_m]. lia. }
    destruct (SFltb 1.0%f32 v) eqn:E1; [exact H1|].
    apply fle_spec. split; [reflexivity|]. split; [exact N|exact L].
Qed.

Local Open Scope f32_scope.

(** X11. One tick under the default configuration moves each of these
    needs in one direction only: hunger and the need for affection
    never fall, trust never rises, and energy never falls while the pet
    sleeps and never rises otherwise. *)
Theorem tick_moves_needs_one_way :
  forall (state : PetState) (delta_ms : Z) (current_action : PetAction),
    needs_in01 state -> (0 <= delta_ms < 2 ^ 32)%Z ->
    let state' :=
      core_state_update state core_state_config_init delta_ms current_action in
    (CoreState.hunger state <=? CoreState.hunger state') = true
    /\ (CoreState.affection_need state <=? CoreState.affection_need state')
       = true
    /\ (CoreState.trust state' <=? CoreState.trust state) = true
    /\ (if action_eqb current_action ACTION_SLEEP
        then CoreState.energy state <=? CoreState.energy state'
        else CoreState.energy state' <=? CoreState.energy state) = true.
Proof.
  intros state delta_ms a (Hh & He & Ha & Ht & Hs) Hd state'.
  unfold state', core_state_update.
  cbn [CoreState.hunger CoreState.energy CoreState.affection_need
       CoreState.trust CoreState.stress core_state_config_init
       hunger_rate energy_decay_rate energy_regen_rate affection_decay_rate
       stress_decay_rate trust_decay_rate].
  split; [|split; [|split]].
  - apply growth_not_below; [exact Hh|].
    apply rate_step_nonneg; [reflexivity|reflexivity|exact Hd].
  - apply growth_not_below; [exact Ha|].
    apply rate_step_nonneg; [reflexivity|reflexivity|exact Hd].
  - apply decay_not_above; [exact Ht|].
    apply rate_step_nonneg; [reflexivity|reflexivity|exact Hd].
  - destruct (action_eqb a ACTION_SLEEP).
    + apply growth_not_below; [exact He|].
      apply rate_step_nonneg; [reflexivity|reflexivity|exact Hd].
    + apply decay_not_above; [exact He|].
      apply rate_step_nonneg; [reflexivity|reflexivity|exact Hd].
Qed.

Lemma tick_moves_needs_one_way_witness :
  let state' :=
    core_state_update core_state_init core_state_config_init 2000 ACTION_IDLE in
  (CoreState.hunger core_state_init <=? CoreState.hunger state') = true
  /\ (CoreState.affection_need core_state_init
      <=? CoreState.affection_need state') = true
  /\ (CoreState.trust state' <=? CoreState.trust core_state_init) = true
  /\ (CoreState.energy state' <=? CoreState.energy core_state_init) = true.
Proof.
  apply (tick_moves_needs_one_way core_state_init 2000 ACTION_IDLE).
  - repeat split; reflexivity.
  - lia.
Defined.

End TickFacts.

(* ================================================================== *)
(** ** The gesture recognizer: single presses *)
(* ================================================================== *)

Section PressFacts.
Import Buttons.
Local Open Scope Z_scope.

Lemma step_timeout config s raw t release :
  waiting release s ->
  level_of (update_button config s raw t) = false ->
  double_press_ms config <= u32 (t - release) ->
  at_rest (fst (update_button config s raw t))
  /\ snd (update_button config s raw t) = [GESTURE_SHORT].
Proof.
  intros (Hc & Hn & Hp & Hs) Hl Hdbl.
  unfold level_of, update_button in *.
  pose proof (debounce_fields config s raw t) as F.
  destruct (debounce config s raw t) as [s1 d]. cbn [fst snd] in F.
  rewrite resolve_level in Hl. subst d.
  destruct F as (F1 & F2 & F3 & F4 & F5).
  rewrite Hc, Hn, Hp, Hs in *.
  destruct s1 as [c lr lc ps pc pe rt]. cbn in *. subst.
  unfold resolve, at_rest. cbn.
  apply Z.leb_le in Hdbl. rewrite Hdbl. cbn.
  repeat split; reflexivity.
Qed.

Lemma step_release_long config s raw t count pending start :
  held count pending start s ->
  level_of (update_button config s raw t) = false ->
  long_press_ms config <= u32 (t - start) ->
  at_rest (fst (update_button config s raw t))
  /\ snd (update_button config s raw t) = [GESTURE_LONG].
Proof.
  intros (Hc & Hn & Hp & Hs) Hl Hlong.
  unfold level_of, update_button in *.
  pose proof (debounce_fields config s raw t) as F.
  destruct (debounce config s raw t) as [s1 d]. cbn [fst snd] in F.
  rewrite resolve_level in Hl. subst d.
  destruct F as (F1 & F2 & F3 & F4 & F5).
  rewrite Hc, Hn, Hp, Hs in *.
  destruct s1 as [c lr lc ps pc pe rt]. cbn in *. subst.
  unfold resolve, at_rest. cbn.
  apply Z.leb_le in Hlong. rewrite Hlong. cbn.
  repeat split; reflexivity.
Qed.

(** The short press, for one button. *)
Lemma short_press_button config s rest0 held1 wait idle t1 x1 t2 x2 t3 x3 :
  let before := rest0 ++ (t1, x1) :: held1 ++ (t2, x2) :: wait in
  at_rest s ->
  map level_of (button_run config s (before ++ (t3, x3) :: idle))
  = (repeat false (length rest0) ++ true :: repeat true (length held1)
     ++ false :: repeat false (length wait))
    ++ false :: repeat false (length idle) ->
  u32 (t2 - t1) < long_press_ms config ->
  0 < double_press_ms config ->
  Forall (fun p => u32 (fst p - t2) < double_press_ms config) wait ->
  double_press_ms config <= u32 (t3 - t2) ->
  concat (map snd (button_run config s before)) = []
  /\ concat (map snd (button_run config s (before ++ (t3, x3) :: idle)))
     = [GESTURE_SHORT]
  /\ at_rest (button_final config s (before ++ (t3, x3) :: idle)).
Proof.
  intros before Hs Hl H21 Hd Hw H32.
  apply levels_app_inv in Hl;
    [|unfold before; rewrite !length_app; cbn [length];
      rewrite !length_app; cbn [length]; rewrite !repeat_length; lia].
  destruct Hl as [Hb Hl].
  (* up to the timeout *)
  assert (B : waiting t2 (button_final config s before)
              /\ concat (map snd (button_run config s before)) = []).
  { unfold before in *. clear before.
    apply levels_app_inv in Hb; [|apply repeat_length].
    destruct Hb as [L0 Hb].
    destruct (stretch_rest config rest0 s Hs L0) as [S0 G0].
    set (s0 := button_final config s rest0) in *.
    apply levels_cons_inv in Hb. destruct Hb as [L1 Hb].
    destruct (step_press config s0 x1 t1 S0 L1) as [S1 G1].
    set (s1 := fst (update_button config s0 x1 t1)) in *.
    apply levels_app_inv in Hb; [|apply repeat_length].
    destruct Hb as [L2 Hb].
    destruct (stretch_held config _ _ _ held1 s1 S1 L2) as [S2 G2].
    set (s2 := button_final config s1 held1) in *.
    apply levels_cons_inv in Hb. destruct Hb as [L3 Hb].
    destruct (step_release_short config s2 x2 t2 t1 S2 L3 H21 Hd) as [S3 G3].
    set (s3 := fst (update_button config s2 x2 t2)) in *.
    destruct (stretch_wait config t2 wait s3 S3 Hb Hw) as [S4 G4].
    split.
    - rewrite button_final_app. fold s0.
      rewrite button_final_cons. fold s1.
      rewrite button_final_app. fold s2.
      rewrite button_final_cons. fold s3. exact S4.
    - rewrite button_run_app, map_app, concat_app, G0. fold s0.
      cbn [button_run map concat app]. fold s1. rewrite G1.
      rewrite button_run_app, map_app, concat_app, G2. fold s2.
      cbn [button_run map concat app]. fold s3. rewrite G3, G4.
      reflexivity. }
  destruct B as [S4 G4].
  set (s4 := button_final config s before) in *.
  (* the timeout and after *)
  apply levels_cons_inv in Hl. destruct Hl as [L5 Hl].
  destruct (step_timeout config s4 x3 t3 t2 S4 L5 H32) as [S5 G5].
  set (s5 := fst (update_button config s4 x3 t3)) in *.
  destruct (stretch_rest config idle s5 S5 Hl) as [S6 G6].
  split; [exact G4|]. split.
  - rewrite button_run_app, map_app, concat_app, G4. fold s4.
    cbn [button_run map concat app]. fold s5. rewrite G5, G6. reflexivity.
  - rewrite button_final_app. fold s4.
    rewrite button_final_cons. fold s5. exact S6.
Qed.

(** The long press, for one button. *)
Lemma long_press_button config s rest0 held1 idle t1 x1 t2 x2 :
  at_rest s ->
  map level_of
    (button_run config s (rest0 ++ (t1, x1) :: held1 ++ (t2, x2) :: idle))
  = repeat false (length rest0) ++ true :: repeat true (length held1)
    ++ false :: repeat false (length idle) ->
  long_press_ms config <= u32 (t2 - t1) ->
  concat (map snd
            (button_run config s
               (rest0 ++ (t1, x1) :: held1 ++ (t2, x2) :: idle)))
  = [GESTURE_LONG]
  /\ at_rest (button_final config s
                (rest0 ++ (t1, x1) :: held1 ++ (t2, x2) :: idle)).
Proof.
  intros Hs Hl H21.
  apply levels_app_inv in Hl; [|apply repeat_length].
  destruct Hl as [L0 Hl].
  destruct (stretch_rest config rest0 s Hs L0) as [S0 G0].
  set (s0 := button_final config s rest0) in *.
  apply levels_cons_inv in Hl. destruct Hl as [L1 Hl].
  destruct (step_press config s0 x1 t1 S0 L1) as [S1 G1].
  set (s1 := fst (update_button config s0 x1 t1)) in *.
  apply levels_app_inv in Hl; [|apply repeat_length].
  destruct Hl as [L2 Hl].
  destruct (stretch_held config _ _ _ held1 s1 S1 L2) as [S2 G2].
  set (s2 := button_final config s1 held1) in *.
  apply levels_cons_inv in Hl. destruct Hl as [L3 Hl].
  destruct (step_release_long config s2 x2 t2 _ _ t1 S2 L3 H21) as [S3 G3].
  set (s3 := fst (update_button config s2 x2 t2)) in *.
  destruct (stretch_rest config idle s3 S3 Hl) as [S4 G4].
  split.
  - rewrite button_run_app, map_app, concat_app, G0. fold s0.
    cbn [button_run map concat app]. fold s1. rewrite G1.
    rewrite button_run_app, map_app, concat_app, G2. fold s2.
    cbn [button_run map concat app]. fold s3. rewrite G3, G4. reflexivity.
  - rewrite button_final_app. fold s0.
    rewrite button_final_cons. fold s1.
    rewrite button_final_app. fold s2.
    rewrite button_final_cons. fold s3. exact S4.
Qed.

(** X12. A single short press.  A button at rest is pressed, released
    before the long-press threshold, and stays released.  Nothing is
    emitted for it up to the last poll that finds the release less than
    the double-press window old; the first poll that finds it that old
    emits one short gesture, the button is at rest again, and later
    polls with the button released emit nothing more.  Durations are
    the wrap-around differences of the 32-bit clock the code takes;
    press and release are the debounced edges. *)
Theorem short_press_gesture :
  forall (g : ButtonsState) (b : ButtonId)
         (rest0 held1 wait idle : list poll) (p1 r1 t : poll),
    let before := rest0 ++ p1 :: held1 ++ r1 :: wait in
    let polls := before ++ t :: idle in
    length (g_state g) = 2%nat ->
    at_rest (g_state g !!! button_index b) ->
    levels b g polls
    = (repeat false (length rest0) ++ true :: repeat true (length held1)
       ++ false :: repeat false (length wait))
      ++ false :: repeat false (length idle) ->
    u32 (now r1 - now p1) < long_press_ms (g_config g) ->
    0 < double_press_ms (g_config g) ->
    Forall (fun p => u32 (now p - now r1) < double_press_ms (g_config g))
      wait ->
    double_press_ms (g_config g) <= u32 (now t - now r1) ->
    gestures_of b (snd (run_updates g before)) = []
    /\ gestures_of b (snd (run_updates g polls)) = [GESTURE_SHORT]
    /\ at_rest (g_state (fst (run_updates g polls)) !!! button_index b).
Proof.
  intros g b rest0 held1 wait idle p1 r1 t before polls
         Hlen Hrest Hlevels H21 Hd Hw H32.
  destruct (g_state g) as [|s0 [|s1 [|]]] eqn:Hg; try discriminate Hlen.
  destruct (run_updates_view b polls g s0 s1 Hg) as (HL & HG & HF).
  destruct (run_updates_view b before g s0 s1 Hg) as (_ & HG' & _).
  rewrite HG, HF, HG'. rewrite HL in Hlevels. rewrite Hg in *.
  clear HL HG HF HG'.
  unfold polls, before, button_view in *.
  repeat (progress (rewrite ?map_app in *; cbn [map] in * )).
  rewrite <- (length_map (fun p => (now p, raw_level p b)) rest0) in Hlevels.
  rewrite <- (length_map (fun p => (now p, raw_level p b)) held1) in Hlevels.
  rewrite <- (length_map (fun p => (now p, raw_level p b)) wait) in Hlevels.
  rewrite <- (length_map (fun p => (now p, raw_level p b)) idle) in Hlevels.
  apply (short_press_button (g_config g) _ _ _ _ _ _ _ _ _ _ _
           Hrest Hlevels H21 Hd); [|exact H32].
  apply Forall_map. exact Hw.
Qed.

Lemma short_press_gesture_witness :
  let before :=
    sample_rest0 ++ sample_p1 :: sample_held1 ++ sample_r1
    :: [both 340 false; both 460 false] in
  let polls := before ++ both 580 false :: [both 700 false] in
  gestures_of BUTTON_FEED (snd (run_updates fresh_buttons before)) = []
  /\ gestures_of BUTTON_FEED (snd (run_updates fresh_buttons polls))
     = [GESTURE_SHORT]
  /\ at_rest (g_state (fst (run_updates fresh_buttons polls))
              !!! button_index BUTTON_FEED).
Proof.
  apply short_press_gesture.
  - reflexivity.
  - repeat split; reflexivity.
  - reflexivity.
  - vm_compute. reflexivity.
  - vm_compute. reflexivity.
  - repeat constructor.
  - vm_compute. discriminate.
Defined.

(** X13. A long press.  A button at rest is pressed and released once
    the long-press threshold has passed: the release emits one long
    gesture, whatever the double-press window, the button is at rest
    again, and later polls with the button released emit nothing
    more. *)
Theorem long_press_gesture :
  forall (g : ButtonsState) (b : ButtonId)
         (rest0 held1 idle : list poll) (p1 r1 : poll),
    let polls := rest0 ++ p1 :: held1 ++ r1 :: idle in
    length (g_state g) = 2%nat ->
    at_rest (g_state g !!! button_index b) ->
    levels b g polls
    = repeat false (length rest0) ++ true :: repeat true (length held1)
      ++ false :: repeat false (length idle) ->
    long_press_ms (g_config g) <= u32 (now r1 - now p1) ->
    gestures_of b (snd (run_updates g polls)) = [GESTURE_LONG]
    /\ at_rest (g_state (fst (run_updates g polls)) !!! button_index b).
Proof.
  intros g b rest0 held1 idle p1 r1 polls Hlen Hrest Hlevels H21.
  destruct (g_state g) as [|s0 [|s1 [|]]] eqn:Hg; try discriminate Hlen.
  destruct (run_updates_view b polls g s0 s1 Hg) as (HL & HG & HF).
  rewrite HG, HF. rewrite HL in Hlevels. rewrite Hg in *. clear HL HG HF.
  unfold polls, button_view in *.
  repeat (progress (rewrite ?map_app in *; cbn [map] in * )).
  rewrite <- (length_map (fun p => (now p, raw_level p b)) rest0) in Hlevels.
  rewrite <- (length_map (fun p => (now p, raw_level p b)) held1) in Hlevels.
  rewrite <- (length_map (fun p => (now p, raw_level p b)) idle) in Hlevels.
  exact (long_press_button (g_config g) _ _ _ _ _ _ _ _ Hrest Hlevels H21).
Qed.

Lemma long_press_gesture_witness :
  let polls :=
    sample_rest0 ++ sample_p1
    :: [both 220 true; both 640 false] ++ both 700 false
    :: [both 760 false; both 1100 false] in
  gestures_of BUTTON_FEED (snd (run_updates fresh_buttons polls))
  = [GESTURE_LONG]
  /\ at_rest (g_state (fst (run_updates fresh_buttons polls))
              !!! button_index BUTTON_FEED).
Proof.
  apply long_press_gesture.
  - reflexivity.
  - repeat split; reflexivity.
  - reflexivity.
  - vm_compute. discriminate.
Defined.

End PressFacts.

(* ================================================================== *)
(** ** The gesture recognizer: one poll *)
(* ================================================================== *)

Section PollFacts.
Import Buttons.
Local Open Scope Z_scope.

(** X16. Debouncing: with a debounce time above zero, a poll changes
    the debounced level of a button only if the raw reading is the one
    of the poll before, has been so for the debounce time at least, and
    differs from the level; the new level is then that reading.  A poll
    that sees the raw reading flip never changes the level. *)
Theorem level_change_needs_stable_reading :
  forall (config : ButtonConfig) (state : ButtonState) (raw : bool)
         (current_ms : Z),
    0 < debounce_ms config ->
    level_of (update_button config state raw current_ms)
    <> current_state state ->
    raw = last_raw_state state
    /\ level_of (update_button config state raw current_ms) = raw
    /\ debounce_ms config <= u32 (current_ms - last_change_ms state).
Proof.
  intros config s raw t Hd. rewrite update_button_level. unfold debounce.
  destruct (Bool.eqb raw (last_raw_state s)) eqn:E; cbn [negb snd].
  - apply Bool.eqb_prop in E.
    destruct (Z.leb_spec (debounce_ms config) (u32 (t - last_change_ms s)))
      as [Hle|Hgt]; intros Hne; [repeat split; assumption|contradiction].
  - cbn [note_raw_change last_change_ms current_state].
    rewrite u32_diag.
    destruct (Z.leb_spec (debounce_ms config) 0) as [Hle|Hgt]; [lia|].
    intros Hne. contradiction.
Qed.

Lemma level_change_needs_stable_reading_witness :
  let s := button_final buttons_config_init initial_button [(100, true)] in
  true = last_raw_state s
  /\ level_of (update_button buttons_config_init s true 160) = true
  /\ debounce_ms buttons_config_init <= u32 (160 - last_change_ms s).
Proof.
  apply level_change_needs_stable_reading.
  - reflexivity.
  - discriminate.
Defined.

Lemma update_button_gestures (config : ButtonConfig) (s : ButtonState)
    (raw : bool) (t : Z) :
    let r := update_button config s raw t in
    (length (snd r) <= 1)%nat
    /\ Forall (fun k => k <> GESTURE_NONE) (snd r)
    /\ (level_of r = true -> snd r = []).
Proof.
  intros r. subst r. unfold level_of, update_button.
  destruct (debounce config s raw t) as [s1 d].
  rewrite resolve_level. unfold resolve.
  destruct s1 as [c lr lc ps pc pe rt]. cbn.
  destruct c, d, pe; cbn;
    repeat match goal with
           | |- context [if ?b then _ else _] => destruct b; cbn
           end;
    (split; [lia|]);
    (split; [repeat constructor; discriminate|]);
    first [reflexivity | discriminate].
Qed.

(** X17. One pass of the loop body emits at most one gesture for its
    button, never [GESTURE_NONE], and none at all when it leaves the
    button pressed: gestures are resolved at a release or while the
    button is up. *)
Theorem poll_emits_at_most_one_gesture :
  forall (config : ButtonConfig) (state : ButtonState) (raw : bool)
         (current_ms : Z),
    let r := update_button config state raw current_ms in
    (length (snd r) <= 1)%nat
    /\ Forall (fun k => k <> GESTURE_NONE) (snd r)
    /\ (level_of r = true -> snd r = []).
Proof.
  intros config state raw current_ms.
  exact (update_button_gestures config state raw current_ms).
Qed.

Lemma fold_emit_pending b t gestures : forall g,
  g_callback g = false ->
  let g' := fold_left (fun g k => emit_event g b k t) gestures g in
  g_callback g' = false
  /\ (gestures = [] -> g' = g)
  /\ (gestures <> [] ->
      g_has_pending_event g' = true
      /\ g_pending_event g' = option_map (event_of b t) (last gestures)).
Proof.
  induction gestures as [|k gestures IH]; intros g Hc; cbn [fold_left].
  - split; [exact Hc|]. split; [reflexivity|]. intros H. contradiction.
  - set (g1 := emit_event g b k t).
    assert (E1 : g1 = {| g_config := g_config g; g_state := g_state g;
                         g_pending_event := Some (event_of b t k);
                         g_has_pending_event := true;
                         g_callback := g_callback g |})
      by (unfold g1, emit_event; rewrite Hc; reflexivity).
    assert (Hc1 : g_callback g1 = false) by (rewrite E1; exact Hc).
    destruct (IH g1 Hc1) as (H1 & H2 & H3).
    split; [exact H1|]. split; [discriminate|]. intros _.
    destruct gestures as [|k' gestures].
    + rewrite (H2 eq_refl), E1. split; reflexivity.
    + destruct (H3 ltac:(discriminate)) as [H4 H5].
      split; [exact H4|]. rewrite H5. reflexivity.
Qed.

(** X18. Without a callback the recognizer has one pending register.
    A call of [buttons_update] returns true exactly when it emitted an
    event, and emits at most one per button, the feed button's first.
    If it emitted none the register is as before; otherwise the
    register holds the last event emitted, which [buttons_get_event]
    hands out once: when both buttons resolve a gesture in the same
    call, the feed button's event is overwritten and never seen. *)
Theorem polling_keeps_last_event :
  forall (g : ButtonsState) (raw : ButtonId -> bool) (current_ms : Z),
    length (g_state g) = 2%nat -> g_callback g = false ->
    let '(generated, g', events) := buttons_update g raw current_ms in
    generated = negb (Nat.eqb (length events) 0)
    /\ (length events <= 2)%nat
    /\ (events = [] ->
        g_has_pending_event g' = g_has_pending_event g
        /\ g_pending_event g' = g_pending_event g)
    /\ (events <> [] ->
        fst (buttons_get_event g') = last events
        /\ fst (buttons_get_event (snd (buttons_get_event g'))) = None).
Proof.
  intros g raw t Hlen Hc.
  destruct (g_state g) as [|s0 [|s1 [|]]] eqn:Hg; try discriminate Hlen.
  unfold buttons_update. cbn [fold_left button_index]. rewrite Hg.
  change ([s0; s1] !!! 0%nat) with s0.
  pose proof (update_button_gestures (g_config g) s0 (raw BUTTON_FEED) t)
    as (L0 & _ & _).
  destruct (update_button (g_config g) s0 (raw BUTTON_FEED) t) as [s0' gs0].
  cbn [snd] in L0.
  set (g1 := fold_left _ gs0 (set_button g 0 s0')).
  destruct (fold_emit_fields BUTTON_FEED t gs0 (set_button g 0 s0'))
    as [F1 F2].
  destruct (fold_emit_pending BUTTON_FEED t gs0 (set_button g 0 s0') Hc)
    as (C1 & N1 & P1).
  fold g1 in F1, F2, C1, N1, P1. cbn [set_button g_state g_config] in F1, F2.
  rewrite Hg in F1. change (<[0%nat := s0']> [s0; s1]) with [s0'; s1] in F1.
  rewrite F1, F2. cbn [button_index]. change ([s0'; s1] !!! 1%nat) with s1.
  pose proof (update_button_gestures (g_config g) s1 (raw BUTTON_PET) t)
    as (L1 & _ & _).
  destruct (update_button (g_config g) s1 (raw BUTTON_PET) t) as [s1' gs1].
  cbn [snd] in L1.
  set (g2 := fold_left _ gs1 (set_button g1 1 s1')).
  destruct (fold_emit_pending BUTTON_PET t gs1 (set_button g1 1 s1') C1)
    as (C2 & N2 & P2).
  fold g2 in C2, N2, P2.
  cbn [orb app].
  destruct gs0 as [|k0 [|]]; cbn [length] in L0; try lia;
    destruct gs1 as [|k1 [|]]; cbn [length] in L1; try lia;
    cbn [map app length Nat.eqb negb orb].
  - rewrite (N2 eq_refl), (N1 eq_refl).
    split; [reflexivity|]. split; [lia|]. split; [intros _; split; reflexivity|].
    intros H. contradiction.
  - destruct (P2 ltac:(discriminate)) as [H1 H2]. cbn [last option_map] in H2.
    split; [reflexivity|]. split; [lia|]. split; [discriminate|]. intros _.
    unfold buttons_get_event. rewrite H1, H2. cbn. split; reflexivity.
  - destruct (P1 ltac:(discriminate)) as [H1 H2]. cbn [last option_map] in H2.
    rewrite (N2 eq_refl). cbn [set_button g_has_pending_event g_pending_event].
    split; [reflexivity|]. split; [lia|]. split; [discriminate|]. intros _.
    unfold buttons_get_event.
    cbn [set_button g_has_pending_event g_pending_event].
    rewrite H1, H2. cbn. split; reflexivity.
  - destruct (P2 ltac:(discriminate)) as [H1 H2]. cbn [last option_map] in H2.
    split; [reflexivity|]. split; [lia|]. split; [discriminate|]. intros _.
    unfold buttons_get_event. rewrite H1, H2. cbn. split; reflexivity.
Qed.

Lemma polling_keeps_last_event_witness :
  let g :=
    fst (run_updates
           (buttons_init buttons_static_init (Some buttons_config_init))
           (sample_rest0 ++ sample_p1 :: sample_held1 ++ sample_r1
            :: [both 340 false; both 460 false])) in
  let '(generated, g', events) := buttons_update g (fun _ => false) 580 in
  generated = true
  /\ fst (buttons_get_event g')
     = Some (event_of BUTTON_PET 580 GESTURE_SHORT)
  /\ fst (buttons_get_event (snd (buttons_get_event g'))) = None.
Proof.
  intros g.
  pose proof (polling_keeps_last_event g (fun _ => false) 580
                eq_refl eq_refl) as H.
  destruct (buttons_update g (fun _ => false) 580) as [[generated g'] events]
    eqn:E.
  assert (Ev : events = [event_of BUTTON_FEED 580 GESTURE_SHORT;
                         event_of BUTTON_PET 580 GESTURE_SHORT]).
  { apply (f_equal snd) in E. cbn [snd] in E. rewrite <- E. reflexivity. }
  destruct H as (H1 & _ & _ & H2). rewrite Ev in H1, H2.
  destruct (H2 ltac:(discriminate)) as [H3 H4].
  split; [exact H1|]. split; [exact H3|exact H4].
Defined.

End PollFacts.

(* ================================================================== *)
(** ** The identity of the pet *)
(* ================================================================== *)

Section IdentityFacts.
Import PetIdentity.
Local Open Scope Z_scope.

Lemma byte_land_255 m : 0 <= m < 256 -> Z.land m 255 = m.
Proof.
  intros H. change 255 with (Z.ones 8). rewrite Z.land_ones by lia.
  apply Z.mod_small. exact H.
Qed.

Lemma shiftl_land_255 m k : 8 <= k -> Z.land (Z.shiftl m k) 255 = 0.
Proof.
  intros H. change 255 with (Z.ones 8). rewrite Z.land_ones by lia.
  rewrite Z.shiftl_mul_pow2 by lia.
  replace k with ((k - 8) + 8) by lia. rewrite Z.pow_add_r by lia.
  rewrite Z.mul_assoc. apply Z.mod_mul. lia.
Qed.

Lemma byte_shiftr m k : 0 <= m < 256 -> 8 <= k -> Z.shiftr m k = 0.
Proof.
  intros H Hk. rewrite Z.shiftr_div_pow2 by lia. apply Z.div_small.
  assert (2 ^ 8 <= 2 ^ k) by (apply Z.pow_le_mono_r; lia). lia.
Qed.

Lemma byte_lxor_range a b :
  0 <= a < 256 -> 0 <= b < 256 -> 0 <= Z.lxor a b < 256.
Proof.
  intros Ha Hb.
  assert (H0 : 0 <= Z.lxor a b) by (apply Z.lxor_nonneg; lia).
  split; [exact H0|].
  destruct (Z.eq_dec (Z.lxor a b) 0) as [->|Hne]; [lia|].
  change 256 with (2 ^ 8). apply Z.log2_lt_pow2; [lia|].
  pose proof (Z.log2_lxor a b ltac:(lia) ltac:(lia)) as Hl.
  assert (Z.log2 a < 8).
  { destruct (Z.eq_dec a 0) as [->|]; [cbn; lia|]. apply Z.log2_lt_pow2; lia. }
  assert (Z.log2 b < 8).
  { destruct (Z.eq_dec b 0) as [->|]; [cbn; lia|]. apply Z.log2_lt_pow2; lia. }
  lia.
Qed.

(** The three bytes [pet_identity_init] cuts out of the hash. *)
Lemma mac_hash_bytes m0 m1 m2 m3 m4 m5 :
  0 <= m1 < 256 -> 0 <= m2 < 256 -> 0 <= m3 < 256 ->
  0 <= m4 < 256 -> 0 <= m5 < 256 ->
  let mac_hash :=
    Z.lxor
      (Z.lor (Z.lor (Z.lor (Z.shiftl m0 24) (Z.shiftl m1 16)) (Z.shiftl m2 8))
         m3)
      (Z.lor (Z.shiftl m4 8) m5) in
  Z.land mac_hash 255 = Z.lxor m3 m5
  /\ Z.land (Z.shiftr mac_hash 8) 255 = Z.lxor m2 m4
  /\ Z.land (Z.shiftr mac_hash 16) 255 = m1.
Proof.
  intros H1 H2 H3 H4 H5. cbv zeta. split; [|split].
  - rewrite land_lxor_distr, !Z.land_lor_distr_l.
    rewrite !shiftl_land_255 by lia. rewrite !byte_land_255 by lia.
    reflexivity.
  - rewrite Z.shiftr_lxor, !Z.shiftr_lor.
    rewrite !Z.shiftr_shiftl_l by lia.
    rewrite !byte_shiftr by lia.
    rewrite land_lxor_distr, !Z.land_lor_distr_l.
    change (24 - 8) with 16. change (16 - 8) with 8. change (8 - 8) with 0.
    rewrite !Z.shiftl_0_r.
    rewrite !shiftl_land_255 by lia. rewrite !byte_land_255 by lia.
    rewrite !Z.lor_0_r. reflexivity.
  - rewrite Z.shiftr_lxor, !Z.shiftr_lor.
    rewrite (Z.shiftr_shiftl_l m0 24 16), (Z.shiftr_shiftl_l m1 16 16) by lia.
    rewrite (Z.shiftr_shiftl_r m2 8 16), (Z.shiftr_shiftl_r m4 8 16) by lia.
    change (24 - 16) with 8. change (16 - 16) with 0. change (16 - 8) with 8.
    rewrite Z.shiftl_0_r.
    rewrite !byte_shiftr by lia.
    rewrite land_lxor_distr, !Z.land_lor_distr_l.
    rewrite !shiftl_land_255 by lia. rewrite !byte_land_255 by lia.
    change (Z.land 0 255) with 0.
    rewrite !Z.lor_0_r, Z.lxor_0_r. reflexivity.
Qed.

(** X14. The identity [pet_identity_init] derives from a MAC address:
    the primary hue is byte 3 xor byte 5, the pattern seed is byte 1,
    and the secondary hue is byte 2 xor byte 4 unless that lies less
    than 40 or more than 216 away from the primary hue, in which case it
    is the primary hue plus 85 modulo 256.  Either way the two hues end
    up between 40 and 216 apart.  Byte 0 has no part in hues or seed,
    and a second call changes nothing. *)
Theorem pet_identity_hues :
  forall (m0 m1 m2 m3 m4 m5 : Z) (saved_name : option String.string),
    Forall (fun m => 0 <= m < 256) [m0; m1; m2; m3; m4; m5] ->
    let st :=
      pet_identity_init identity_static_init [m0; m1; m2; m3; m4; m5]
        saved_name in
    let id := g_identity st in
    primary_hue id = Z.lxor m3 m5
    /\ pattern_seed id = m1
    /\ secondary_hue id
       = (if (Z.abs (Z.lxor m2 m4 - Z.lxor m3 m5) <? 40)
             || (216 <? Z.abs (Z.lxor m2 m4 - Z.lxor m3 m5))
          then (Z.lxor m3 m5 + 85) mod 256
          else Z.lxor m2 m4)
    /\ 0 <= primary_hue id < 256 /\ 0 <= secondary_hue id < 256
    /\ 40 <= Z.abs (secondary_hue id - primary_hue id) <= 216
    /\ (forall mac' saved', pet_identity_init st mac' saved' = st).
Proof.
  intros m0 m1 m2 m3 m4 m5 saved_name Hm st id.
  repeat (apply Forall_cons in Hm; destruct Hm as [? Hm]).
  destruct (mac_hash_bytes m0 m1 m2 m3 m4 m5) as (E1 & E2 & E3); try assumption.
  unfold id, st, pet_identity_init.
  cbn [identity_static_init g_initialized g_identity primary_hue
       secondary_hue pattern_seed].
  change ([m0; m1; m2; m3; m4; m5] !!! 0%nat) with m0.
  change ([m0; m1; m2; m3; m4; m5] !!! 1%nat) with m1.
  change ([m0; m1; m2; m3; m4; m5] !!! 2%nat) with m2.
  change ([m0; m1; m2; m3; m4; m5] !!! 3%nat) with m3.
  change ([m0; m1; m2; m3; m4; m5] !!! 4%nat) with m4.
  change ([m0; m1; m2; m3; m4; m5] !!! 5%nat) with m5.
  rewrite E1, E2, E3.
  pose proof (byte_lxor_range m3 m5 ltac:(lia) ltac:(lia)) as R1.
  pose proof (byte_lxor_range m2 m4 ltac:(lia) ltac:(lia)) as R2.
  set (p := Z.lxor m3 m5) in *. set (q := Z.lxor m2 m4) in *.
  clearbody p q.
  split; [reflexivity|]. split; [reflexivity|]. split; [reflexivity|].
  split; [exact R1|].
  destruct (Z.ltb_spec (Z.abs (q - p)) 40);
    destruct (Z.ltb_spec 216 (Z.abs (q - p))); cbn [orb];
    (split; [mod_lia|]); (split; [mod_lia|]); reflexivity.
Qed.

Lemma pet_identity_hues_witness :
  let st :=
    pet_identity_init identity_static_init [0xA4; 0xCF; 0x12; 0x05; 0x7B; 0xE0]
      None in
  primary_hue (g_identity st) = 229
  /\ pattern_seed (g_identity st) = 0xCF
  /\ secondary_hue (g_identity st) = 105
  /\ 40 <= Z.abs (secondary_hue (g_identity st) - primary_hue (g_identity st))
     <= 216.
Proof.
  intros st.
  destruct (pet_identity_hues 0xA4 0xCF 0x12 0x05 0x7B 0xE0 None
              ltac:(repeat constructor; lia))
    as (H1 & H2 & H3 & _ & _ & H4 & _).
  split; [exact H1|]. split; [exact H2|]. split; [exact H3|]. exact H4.
Defined.

Lemma scaled_byte v c :
  0 <= v < 256 -> 0 <= c <= 255 ->
  Z.shiftr (v * c) 8 mod 256 = v * c / 256 /\ 0 <= v * c / 256 <= v.
Proof.
  intros Hv Hc. rewrite Z.shiftr_div_pow2 by lia. change (2 ^ 8) with 256.
  assert (0 <= v * c / 256) by (apply Z.div_pos; nia).
  assert (v * c / 256 <= v).
  { apply Z.div_le_upper_bound; [lia|]. nia. }
  split; [apply Z.mod_small; lia|lia].
Qed.

Lemma scaled_mono v c d :
  0 <= v -> c <= d -> v * c / 256 <= v * d / 256.
Proof. intros Hv Hcd. apply Z.div_le_mono; [lia|nia]. Qed.

(** X15. [hsv_to_rgb] on three bytes: without saturation the three
    channels are the value [v]; otherwise the brightest channel is
    exactly [v] and the darkest is exactly [(v * (255 - s)) >> 8], so
    no channel leaves the byte range or exceeds the value asked for;
    the hue only picks which channel is which. *)
Theorem hsv_to_rgb_channels :
  forall h s v : Z,
    0 <= h < 256 -> 0 <= s < 256 -> 0 <= v < 256 ->
    let '(r, g, b) := hsv_to_rgb h s v in
    Z.max r (Z.max g b) = v
    /\ Z.min r (Z.min g b) = (if s =? 0 then v else Z.shiftr (v * (255 - s)) 8)
    /\ 0 <= Z.min r (Z.min g b).
Proof.
  intros h s v Hh Hs Hv. unfold hsv_to_rgb.
  destruct (Z.eqb_spec s 0) as [->|Hs0]; [lia|].
  assert (Hr : (h / 43) mod 256 = h / 43).
  { apply Z.mod_small. split; [apply Z.div_pos; lia|].
    apply Z.div_lt_upper_bound; lia. }
  rewrite Hr.
  assert (R : 0 <= h / 43 <= 5).
  { split; [apply Z.div_pos; lia|].
    assert (h / 43 < 6) by (apply Z.div_lt_upper_bound; lia). lia. }
  assert (Hrem : 0 <= ((h - h / 43 * 43) * 6) mod 256 <= 252).
  { pose proof (Z.div_mod h 43 ltac:(lia)) as D.
    pose proof (Z.mod_pos_bound h 43 ltac:(lia)) as M.
    rewrite Z.mod_small by lia. lia. }
  set (remainder := ((h - h / 43 * 43) * 6) mod 256) in *. clearbody remainder.
  destruct (scaled_byte s remainder ltac:(lia) ltac:(lia)) as [_ X1].
  destruct (scaled_byte s (255 - remainder) ltac:(lia) ltac:(lia)) as [_ X2].
  rewrite (Z.shiftr_div_pow2 (s * remainder)) by lia.
  rewrite (Z.shiftr_div_pow2 (s * (255 - remainder))) by lia.
  change (2 ^ 8) with 256.
  set (x1 := s * remainder / 256) in *.
  set (x2 := s * (255 - remainder) / 256) in *. clearbody x1 x2.
  destruct (scaled_byte v (255 - s) ltac:(lia) ltac:(lia)) as [Ep Bp].
  destruct (scaled_byte v (255 - x1) ltac:(lia) ltac:(lia)) as [Eq Bq].
  destruct (scaled_byte v (255 - x2) ltac:(lia) ltac:(lia)) as [Et Bt].
  pose proof (scaled_mono v (255 - s) (255 - x1) ltac:(lia) ltac:(lia)) as Mq.
  pose proof (scaled_mono v (255 - s) (255 - x2) ltac:(lia) ltac:(lia)) as Mt.
  rewrite Ep, Eq, Et.
  rewrite (Z.shiftr_div_pow2 (v * (255 - s))) by lia. change (2 ^ 8) with 256.
  set (p := v * (255 - s) / 256) in *.
  set (q := v * (255 - x1) / 256) in *.
  set (t := v * (255 - x2) / 256) in *. clearbody p q t.
  destruct (h / 43) as [|[[|[]|]|[|[]|]|]|]; lia.
Qed.

Lemma hsv_to_rgb_channels_witness :
  let '(r, g, b) := hsv_to_rgb 229 200 220 in
  Z.max r (Z.max g b) = 220 /\ Z.min r (Z.min g b) = 47
  /\ 0 <= Z.min r (Z.min g b).
Proof.
  exact (hsv_to_rgb_channels 229 200 220 ltac:(lia) ltac:(lia) ltac:(lia)).
Defined.

End IdentityFacts.

(* ================================================================== *)
(** ** The event journal after a clear *)
(* ================================================================== *)

Section JournalFacts.
Import Logger.

(** The ring invariant, from any initialised logger with an empty
    journal: whatever the slots held before does not matter. *)
Lemma log_calls_invariant_from st0 cs :
  g_initialized st0 = true -> length (g_buffer st0) = 100%nat ->
  g_head st0 = 0%Z -> g_count st0 = 0%Z ->
  let st := log_calls cs st0 in
  g_initialized st = true
  /\ length (g_buffer st) = 100%nat
  /\ g_head st = (Z.of_nat (length cs) mod 100)%Z
  /\ g_count st = Z.min (Z.of_nat (length cs)) 100
  /\ forall k c, cs !! k = Some c -> (length cs <= k + 100)%nat ->
       g_buffer st !! Z.to_nat (Z.of_nat k mod 100) = Some (record_of c).
Proof.
  intros Hi0 Hl0 Hh0 Hc0.
  induction cs as [|c cs IH] using rev_ind; cbv zeta.
  - cbn [log_calls fold_left length]. rewrite Hh0, Hc0.
    repeat split; try assumption; try reflexivity.
    intros k c H. discriminate.
  - rewrite log_calls_snoc, length_app. cbn [length].
    cbv zeta in IH. destruct IH as (Hi & Hl & Hh & Hc & Hb).
    set (st := log_calls cs st0) in *.
    set (n := length cs) in *.
    unfold log_call, logger_log_event. rewrite Hi. cbn [negb].
    rewrite fill_entry_full.
    cbn [g_initialized g_buffer g_head g_count].
    rewrite Hh, Hc. unfold LOG_MAX_EVENTS.
    split; [reflexivity|]. split; [rewrite length_insert; exact Hl|].
    split; [mod_lia|]. split.
    + destruct (Z.ltb_spec (Z.min (Z.of_nat n) 100) 100); lia.
    + intros k c' Hk Hn.
      destruct (decide (k = n)) as [->|Hne].
      * rewrite lookup_app_r in Hk by (unfold n; lia).
        replace (n - length cs)%nat with 0%nat in Hk by (unfold n; lia).
        injection Hk as <-.
        apply list_lookup_insert_eq. rewrite Hl. mod_lia.
      * assert (Hlt : (k < n)%nat).
        { apply lookup_lt_Some in Hk. rewrite length_app in Hk.
          cbn [length] in Hk. unfold n. lia. }
        rewrite lookup_app_l in Hk by (unfold n in Hlt; exact Hlt).
        rewrite list_lookup_insert_ne by mod_lia.
        apply Hb; [exact Hk|lia].
Qed.

(** X19. [logger_clear] forgets everything: whatever was logged before,
    after a clear and [n] further appends the journal holds [min n 100]
    records, index [i] returns the record of append number
    [n - count + i] after the clear, and an index from the count on is
    refused.  Nothing logged before the clear can be read back. *)
Theorem journal_after_clear :
  forall before cs : list LogCall,
    let st :=
      log_calls cs
        (logger_clear (log_calls before (logger_init logger_static_init))) in
    logger_get_count st = Z.min (Z.of_nat (length cs)) LOG_MAX_EVENTS
    /\ (forall i, (0 <= i < logger_get_count st)%Z ->
          exists c,
            cs !! (length cs - Z.to_nat (logger_get_count st) + Z.to_nat i)%nat
              = Some c
            /\ logger_get_event st i = Some (record_of c))
    /\ (forall i, (logger_get_count st <= i)%Z -> logger_get_event st i = None).
Proof.
  intros before cs st.
  destruct (log_calls_invariant before) as (Hi0 & Hl0 & _).
  destruct (log_calls_invariant_from
              (logger_clear (log_calls before (logger_init logger_static_init)))
              cs Hi0 Hl0 eq_refl eq_refl) as (Hin & Hl & Hh & Hc & Hb).
  fold st in Hin, Hl, Hh, Hc, Hb.
  unfold logger_get_count, LOG_MAX_EVENTS. rewrite Hc.
  split; [reflexivity|]. split.
  - intros i Hi.
    set (n := length cs) in *.
    set (k := (n - Z.to_nat (Z.min (Z.of_nat n) 100) + Z.to_nat i)%nat).
    assert (Hk : (k < n)%nat) by (unfold k; lia).
    destruct (lookup_lt_is_Some_2 cs k Hk) as [c Hck].
    exists c. split; [exact Hck|].
    unfold logger_get_event. rewrite Hin, Hc, Hh. cbn [negb orb].
    destruct (Z.leb_spec (Z.min (Z.of_nat n) 100) i); [lia|].
    unfold LOG_MAX_EVENTS. f_equal.
    apply list_lookup_total_correct.
    specialize (Hb k c Hck ltac:(unfold k; lia)).
    rewrite <- Hb. f_equal.
    destruct (Z.eqb_spec (Z.min (Z.of_nat n) 100) 100); unfold k; mod_lia.
  - intros i Hi. unfold logger_get_event. rewrite Hin, Hc. cbn [negb orb].
    destruct (Z.leb_spec (Z.min (Z.of_nat (length cs)) 100) i);
      [reflexivity|lia].
Qed.

End JournalFacts.

(* ================================================================== *)
(** ** The needs simulator: what an interaction can do *)
(* ================================================================== *)

Section InteractionFacts.
Import CoreState.
Local Open Scope Z_scope.

Lemma binary_round_sign_clear m e : sign_clear (binary_round prec emax false m e).
Proof.
  pose proof (binary_round_num false m e) as N.
  destruct (binary_round_shift false m e) as (mz & ez & E & _).
  pose proof (binary_round_aux_sign false (Zpos mz) ez loc_Exact) as S.
  rewrite <- E in S.
  destruct (binary_round prec emax false m e); try contradiction; exact S.
Qed.

(** Taking a positive number from one that is not smaller leaves the
    sign bit clear. *)
Lemma fsub_sign_clear X ex Y ey :
  bounded prec emax X ex = true -> bounded prec emax Y ey = true ->
  ~ lex_lt (S754_finite false X ex) (S754_finite false Y ey) ->
  sign_clear (fsub (S754_finite false X ex) (S754_finite false Y ey)).
Proof.
  intros HX HY L.
  apply bounded_canonical in HX, HY. destruct HX as [CX LX], HY as [CY LY].
  pose proof (Zdigits2_bounds (Zpos X) ltac:(lia)) as [LoX HiX].
  pose proof (Zdigits2_bounds (Zpos Y) ltac:(lia)) as [LoY HiY].
  pose proof (Zdigits2_pos (Zpos X) ltac:(lia)) as DX.
  pose proof (Zdigits2_pos (Zpos Y) ltac:(lia)) as DY.
  unfold lex_lt in L. cbn [cls key_e key_m] in L.
  unfold fsub, SFsub. cbn [cond_Zopp].
  set (ez := Z.min ex ey).
  pose proof (shl_align_fst X ex ez ltac:(unfold ez; lia)) as Ex.
  pose proof (shl_align_fst Y ey ez ltac:(unfold ez; lia)) as Ey.
  rewrite Ex, Ey.
  assert (M : Zpos Y * 2 ^ (ey - ez) <= Zpos X * 2 ^ (ex - ez)).
  { destruct (Z.eq_dec ex ey) as [Heq|Hne].
    - replace (ey - ez) with 0 by (unfold ez; lia).
      replace (ex - ez) with 0 by (unfold ez; lia). lia.
    - assert (Hlt : ey < ex) by lia.
      replace (ey - ez) with 0 by (unfold ez; lia).
      replace (ex - ez) with (ex - ey) by (unfold ez; lia).
      assert (D24 : Zdigits2 (Zpos X) = 24) by (unfold fx in *; lia).
      assert (DY24 : Zdigits2 (Zpos Y) <= 24) by (unfold fx in *; lia).
      rewrite D24 in LoX. change (2 ^ (24 - 1)) with 8388608 in LoX.
      assert (Zpos Y < 2 ^ 24).
      { eapply Z.lt_le_trans; [exact HiY|].
        apply Z.pow_le_mono_r; lia. }
      change (2 ^ 24) with 16777216 in H.
      assert (2 <= 2 ^ (ex - ey)).
      { change 2 with (2 ^ 1) at 1. apply Z.pow_le_mono_r; lia. }
      nia. }
  destruct (Zpos X * 2 ^ (ex - ez) - Zpos Y * 2 ^ (ey - ez)) as [|q|q] eqn:E;
    try lia; cbn [binary_normalize].
  - reflexivity.
  - apply binary_round_sign_clear.
Qed.

(** A score of [0,1] times a positive constant below one is not above
    one. *)
Lemma fmul_unit_below_one x my ey :
  in01 x -> bounded prec emax my ey = true -> Zpos my * 2 ^ (- ey) < 2 ^ (- ey) * 2 ^ (- ey) -> ey <= 0 ->
  (exists s, fmul x (S754_finite false my ey) = S754_zero s)
  \/ (exists p e, fmul x (S754_finite false my ey) = S754_finite false p e
        /\ bounded prec emax p e = true
        /\ ~ lex_lt 1.0%f32 (S754_finite false p e)).
Proof.
  intros Hx Hc Hlt Hey.
  destruct (in01_shape x Hx) as [[s ->]|(X & ex & -> & BX & EX)].
  { left. exists (xorb s false). reflexivity. }
  destruct Hx as (_ & _ & H1).
  apply fle_spec in H1. destruct H1 as (_ & _ & H1).
  unfold lex_lt in H1.
  change (cls 1.0%f32) with 1 in H1. change (key_e 1.0%f32) with (-23) in H1.
  change (key_m 1.0%f32) with 8388608 in H1.
  cbn [cls key_e key_m] in H1.
  pose proof BX as BX'. pose proof Hc as Hc'.
  apply bounded_canonical in BX', Hc'.
  destruct BX' as [CX LX], Hc' as [Cc Lc].
  pose proof (Zdigits2_bounds (Zpos X) ltac:(lia)) as [LoX HiX].
  pose proof (Zdigits2_pos (Zpos X) ltac:(lia)) as DX.
  pose proof (Zdigits2_pos (Zpos my) ltac:(lia)) as Dc.
  pose proof (Zdigits2_mul (Zpos X) (Zpos my) ltac:(lia) ltac:(lia)) as D.
  rewrite <- Pos2Z.inj_mul in D.
  assert (P1 : 0 < 2 ^ (- ey)) by (apply Z.pow_pos_nonneg; lia).
  assert (P2 : 0 < 2 ^ (- ex)) by (apply Z.pow_pos_nonneg; lia).
  (* the value of [x] is at most one *)
  assert (VX : Zpos X <= 2 ^ (- ex)).
  { destruct (Z.eq_dec ex (-23)) as [->|Hne].
    - change (2 ^ (- -23)) with 8388608. lia.
    - assert (Zdigits2 (Zpos X) <= 24) by (unfold fx in *; lia).
      assert (2 ^ Zdigits2 (Zpos X) <= 2 ^ (- ex))
        by (apply Z.pow_le_mono_r; lia).
      lia. }
  assert (V : Zpos my < 2 ^ (- ey)) by nia.
  unfold fmul, SFmul. cbn [xorb].
  assert (He : ex + ey <= fx (Zdigits2 (Zpos (X * my)) + (ex + ey)))
    by (unfold fx in *; lia).
  assert (Hm : Zpos (X * my) < (Zpos 8388608 - 0) * 2 ^ (-23 - (ex + ey))).
  { rewrite Pos2Z.inj_mul, Z.sub_0_r.
    replace (-23 - (ex + ey)) with ((- ex) + (- ey) + (-23)) by lia.
    assert (E23 : 2 ^ (- ex + - ey) = 8388608 * 2 ^ (- ex + - ey + -23)).
    { change 8388608 with (2 ^ 23). rewrite <- Z.pow_add_r by lia.
      f_equal. lia. }
    rewrite Z.mul_comm in E23.
    assert (Zpos X * Zpos my < 2 ^ (- ex + - ey))
      by (rewrite Z.pow_add_r by lia; nia).
    change (Zpos 8388608) with 8388608. lia. }
  assert (KX : Zdigits2 (Zpos X) + ex <= 1).
  { assert (Zdigits2 (Zpos X) <= - ex + 1); [|lia].
    apply Zdigits2_lt_pow; [|lia]. rewrite Z.pow_add_r by lia.
    change (2 ^ 1) with 2. lia. }
  assert (Kc : Zdigits2 (Zpos my) + ey <= 0).
  { assert (Zdigits2 (Zpos my) <= - ey); [|lia].
    apply Zdigits2_lt_pow; lia. }
  pose proof (binary_round_aux_fin false (Zpos (X * my)) (ex + ey) loc_Exact 1
                ltac:(lia) He ltac:(lia) ltac:(lia)) as F.
  destruct (binary_round_aux_below false (Zpos (X * my)) (ex + ey) loc_Exact
              8388608 (-23) 0 ltac:(lia) He eq_refl ltac:(lia) ltac:(lia) Hm)
    as [R|(p & e3 & R & Hr)].
  - left. exists false. exact R.
  - right. exists p, e3. rewrite R in F |- *. split; [reflexivity|].
    split; [apply F|].
    unfold lex_lt. cbn [cls key_e key_m]. lia.
Qed.

(** The effectiveness [1 - spam_score * 0.7] of an interaction is a
    number with a clear sign bit. *)
Lemma effectiveness_sign_clear spam :
  in01 spam -> sign_clear (fsub 1.0%f32 (fmul spam 0.7%f32)).
Proof.
  intros Hp.
  destruct (fmul_unit_below_one spam 11744051 (-24) Hp eq_refl
              ltac:(vm_compute; reflexivity) ltac:(lia))
    as [[s E]|(p & e & E & B & L)];
    change (S754_finite false 11744051 (-24)) with 0.7%f32 in E; rewrite E.
  - reflexivity.
  - apply fsub_sign_clear; [reflexivity|exact B|exact L].
Qed.

Lemma reduction_nonneg c spam :
  nzb c = true -> sign_clear c -> in01 spam ->
  fle 0.0%f32 (fmul c (fsub 1.0%f32 (fmul spam 0.7%f32))) = true.
Proof.
  intros Hc Hs Hp. apply sign_clear_fle.
  apply fmul_sign_clear; [exact Hs|apply effectiveness_sign_clear; exact Hp|].
  apply num_not_nan, fmul_num_l; [exact Hc|].
  apply effectiveness_num, in01_num. exact Hp.
Qed.

Local Open Scope f32_scope.

(** X20. What an interaction can and cannot do, under the default
    configuration and from needs and a spam score in [0,1].  A feed
    never raises hunger, a pet never raises the need for affection, and
    neither lowers trust or the spam score; a feed leaves energy and
    the need for affection alone, a pet leaves hunger and energy
    alone.  However high the spam score, the effect never turns
    around. *)
Theorem interaction_effects :
  forall (state : PetState) (stats : InteractionStats),
    needs_in01 state -> in01 (spam_score stats) ->
    let fed := core_state_feed state core_state_config_init stats in
    let petted := core_state_pet state core_state_config_init stats in
    ((CoreState.hunger (fst fed) <=? CoreState.hunger state) = true
     /\ (CoreState.trust state <=? CoreState.trust (fst fed)) = true
     /\ (spam_score stats <=? spam_score (snd fed)) = true
     /\ CoreState.energy (fst fed) = CoreState.energy state
     /\ CoreState.affection_need (fst fed) = CoreState.affection_need state)
    /\ ((CoreState.affection_need (fst petted)
         <=? CoreState.affection_need state) = true
        /\ (CoreState.trust state <=? CoreState.trust (fst petted)) = true
        /\ (spam_score stats <=? spam_score (snd petted)) = true
        /\ CoreState.hunger (fst petted) = CoreState.hunger state
        /\ CoreState.energy (fst petted) = CoreState.energy state).
Proof.
  intros state stats (Hh & He & Ha & Ht & Hs) Hp fed petted.
  assert (Rf : forall x, in01 x -> (x <=? x) = true).
  { intros x Hx. apply fle_spec.
    assert (N : is_nan x = false)
      by (apply num_not_nan, in01_num; exact Hx).
    split; [exact N|]. split; [exact N|]. apply lex_lt_irrefl. }
  unfold fed, petted, core_state_feed, core_state_pet.
  cbn [fst snd CoreState.hunger CoreState.energy CoreState.affection_need
       CoreState.trust CoreState.stress spam_score set_spam_score
       core_state_config_init spam_penalty feed_hunger_reduction
       feed_stress_reduction pet_affection_reduction pet_stress_reduction].
  split.
  - split.
    { apply decay_not_above; [exact Hh|].
      apply reduction_nonneg; [reflexivity|reflexivity|exact Hp]. }
    split.
    { destruct ((CoreState.hunger state >? 0.5)
                && (1.0 - spam_score stats * 0.7 >? 0.5)).
      - apply growth_not_below; [exact Ht|reflexivity].
      - apply Rf. exact Ht. }
    split; [apply growth_not_below; [exact Hp|reflexivity]|].
    split; reflexivity.
  - split.
    { apply decay_not_above; [exact Ha|].
      apply reduction_nonneg; [reflexivity|reflexivity|exact Hp]. }
    split.
    { destruct ((CoreState.affection_need state >? 0.5)
                && (1.0 - spam_score stats * 0.7 >? 0.5)).
      - apply growth_not_below; [exact Ht|reflexivity].
      - apply Rf. exact Ht. }
    split; [apply growth_not_below; [exact Hp|reflexivity]|].
    split; reflexivity.
Qed.

Lemma interaction_effects_witness :
  let fed :=
    core_state_feed core_state_init core_state_config_init
      core_state_stats_init in
  (CoreState.hunger (fst fed) <=? CoreState.hunger core_state_init) = true
  /\ (spam_score core_state_stats_init <=? spam_score (snd fed)) = true.
Proof.
  intros fed.
  destruct (interaction_effects core_state_init core_state_stats_init
              ltac:(repeat split; reflexivity)
              ltac:(repeat split; reflexivity)) as ((H1 & _ & H2 & _) & _).
  split; [exact H1|exact H2].
Defined.

End InteractionFacts.
